(** * The point-grid page: a shallow embedding of the script and its shader

  The page script draws a lattice of points with WebGL2 and pushes them away
  from the pointer in the vertex shader.  This development embeds

  - the JavaScript arithmetic of the script: every JS Number is an IEEE-754
    binary64 value, modelled with the [spec_float] operations of the
    Standard Library at precision 53 and maximal exponent 1024, and every
    store into a [Float32Array] rounds to binary32;
  - the [Matrix3] class, over a heap of typed arrays so that aliasing between
    matrix objects is visible;
  - the page globals and the functions that update them
    ([updatePointerPosition], [resizeCanvas], [rebuildGrid],
    [updateAndRender], [createShader], [createProgram], [getWebGL2Context],
    [main]);
  - the vertex shader, in binary32 arithmetic, with the built-in functions
    whose precision GLSL leaves to the implementation as parameters;
  - the copy buttons of [scripts/copyButtons.js], over a browser state made
    of the elements, the clipboard, the clock and the pending timeouts.  *)

From Stdlib Require Import ZArith NArith List Bool Lia Ascii String.
From Stdlib Require Import Floats.SpecFloat.
From stdpp Require Import base option list strings gmap.

(** ** JavaScript numbers *)

Module JSNumber.

(** A JS Number: a binary64 floating-point value (no NaN payloads). *)
Definition number := spec_float.

Definition prec : Z := 53.
Definition emax : Z := 1024.

(** The Number denoted by an integer literal, and the conversion of an
    integer-valued host attribute (round to nearest, ties to even). *)
Definition of_Z (z : Z) : number := binary_normalize prec emax z 0 false.
Definition of_N (n : N) : number := of_Z (Z.of_N n).
Definition of_nat (n : nat) : number := of_Z (Z.of_nat n).

Definition fadd : number -> number -> number := SFadd prec emax.
Definition fsub : number -> number -> number := SFsub prec emax.
Definition fmul : number -> number -> number := SFmul prec emax.
Definition fdiv : number -> number -> number := SFdiv prec emax.
Definition fneg : number -> number := SFopp.
(** [x < y] and [x === y] on Numbers. *)
Definition flt : number -> number -> bool := SFltb.
Definition feq : number -> number -> bool := SFeqb.

Definition NaN : number := S754_nan.
Definition Infinity : number := S754_infinity false.

Definition is_finite (x : number) : bool :=
  match x with
  | S754_zero _ | S754_finite _ _ _ => true
  | S754_infinity _ | S754_nan => false
  end.

(** The integer [ceil x] of a finite [x]. *)
Definition ceilZ (x : number) : Z :=
  match x with
  | S754_finite s m e =>
      let z := cond_Zopp s (Zpos m) in
      if (0 <=? e)%Z then (z * 2 ^ e)%Z else (- ((- z) / 2 ^ (- e)))%Z
  | _ => 0%Z
  end.

(** [Math.ceil]: NaN, the infinities and the zeros are returned as they
    are; a fraction in (-1, 0) gives -0. *)
Definition Math_ceil (x : number) : number :=
  match x with
  | S754_finite s m e =>
      if (0 <=? e)%Z then x else binary_normalize prec emax (ceilZ x) 0 s
  | _ => x
  end.

(** [Math.max] of two arguments: NaN if either is NaN, and +0 above -0. *)
Definition Math_max (x y : number) : number :=
  match SFcompare x y with
  | None => NaN
  | Some Lt => y
  | Some Gt => x
  | Some Eq => match x with S754_zero true => y | _ => x end
  end.

(** [Math.PI], the binary64 value 0x1.921FB54442D18p+1. *)
Definition Math_PI : number := S754_finite false 7074237752028440 (-51).

(** Rounding to binary32, as a store into a [Float32Array] does
    ([Math.fround]); the result is again written as a binary64 value. *)
Definition fround (x : number) : number :=
  match x with
  | S754_finite s m e =>
      match binary_normalize 24 128 (cond_Zopp s (Zpos m)) e s with
      | S754_finite s' m' e' =>
          binary_normalize prec emax (cond_Zopp s' (Zpos m')) e' s'
      | r => r
      end
  | _ => x
  end.

(** Integer literals of the source are read as Numbers in [num_scope]. *)
Definition literal (z : Z) : spec_float := Eval cbv in of_Z z.
Definition unliteral (x : spec_float) : option Z :=
  match x with
  | S754_zero false => Some 0%Z
  | S754_finite s m e =>
      if (e <? 0)%Z
      then if (Z.land (Zpos m) (Z.ones (- e)) =? 0)%Z
           then Some (cond_Zopp s (Z.shiftr (Zpos m) (- e)))
           else None
      else Some (cond_Zopp s (Z.shiftl (Zpos m) e))
  | _ => None
  end.

End JSNumber.
Export JSNumber.

Declare Scope num_scope.
Delimit Scope num_scope with num.
Number Notation spec_float literal unliteral : num_scope.
Infix "+" := fadd : num_scope.
Infix "-" := fsub : num_scope.
Infix "*" := fmul : num_scope.
Infix "/" := fdiv : num_scope.
Notation "- x" := (fneg x) : num_scope.
Infix "<" := flt : num_scope.
Infix "===" := feq (at level 70, no associativity) : num_scope.

(** ** Typed arrays *)

Module Float32Array.

(** [new Float32Array(n)]: [n] cells holding +0. *)
Definition new (n : nat) : list number := replicate n 0%num.

(** [a[i]]: reading outside the array yields [undefined], which every
    arithmetic operator of the script turns into NaN. *)
Definition load (a : list number) (i : nat) : number := nth i a NaN.

(** [a[i] = v]: the value is rounded to binary32; a store outside the
    array is ignored. *)
Definition store (a : list number) (i : nat) (v : number) : list number :=
  <[i := fround v]> a.

(** [new Float32Array(values)]: a fresh array with every value rounded. *)
Definition from (values : list number) : list number := fround <$> values.

End Float32Array.

Notation "a .[ i ]" := (Float32Array.load a i)
(at level 1, left associativity, format "a .[ i ]").

(** ** The heap of matrix objects

  A [Matrix3] object owns one [Float32Array], created by its constructor
  and never reassigned, so a matrix reference is the address of the cell
  holding its [elements]. *)

Definition loc := positive.
Abbreviation heap := (gmap loc (list number)).

(** Modelled from the spec: the class [Vector3] built by [multiplyVector] is
  not among the sources; it is taken to be the plain triple of the three
  coordinates handed to its constructor. *)
Module Vector3.
Record t := { x : number; y : number; z : number }.
End Vector3.

Module Matrix3.
Section Methods.

(** [Math.cos] and [Math.sin] are implementation-approximated. *)
Variables Math_cos Math_sin : number -> number.

Import Float32Array.
Local Open Scope num_scope.

(** [this.elements] *)
Definition elements (h : heap) (this : loc) : list number :=
  default [] (h !! this).

Definition set (this : loc) (m11 m12 m13 m21 m22 m23 m31 m32 m33 : number)
    (h : heap) : heap :=
  alter (fun e =>
    let e := store e 0 m11 in let e := store e 3 m12 in let e := store e 6 m13 in
    let e := store e 1 m21 in let e := store e 4 m22 in let e := store e 7 m23 in
    let e := store e 2 m31 in let e := store e 5 m32 in let e := store e 8 m33 in
    e) this h.

Definition makeIdentity (this : loc) : heap -> heap :=
  set this
    1 0 0
    0 1 0
    0 0 1.

(** [new Matrix3()] *)
Definition new (h : heap) : loc * heap :=
  let this := fresh (dom h) in
  (this, makeIdentity this (<[this := Float32Array.new 9]> h)).

(** The loops [for (let i = 0; i < 9; i++)] run over the indices 0..8. *)
Definition clone (this : loc) (h : heap) : loc * heap :=
  let '(newMatrix, h) := new h in
  (newMatrix,
   foldl (fun h i => alter (fun e => store e i (elements h this).[i]) newMatrix h)
     h (seq 0 9)).

Definition copy (this m : loc) (h : heap) : heap :=
  foldl (fun h i => alter (fun e => store e i (elements h m).[i]) this h)
    h (seq 0 9).

Definition makeScale (this : loc) (x y : number) : heap -> heap :=
  set this
    x 0 0
    0 y 0
    0 0 1.

Definition makeRotation (this : loc) (degrees : number) : heap -> heap :=
  let radians := degrees * Math_PI / 180 in
  let c := Math_cos radians in
  let s := Math_sin radians in
  set this
    c s 0
    (- s) c 0
    0 0 1.

Definition makeTranslation (this : loc) (x y : number) : heap -> heap :=
  set this
    1 0 x
    0 1 y
    0 0 1.

Definition makeOrthographic (this : loc) (l r t b : number) : heap -> heap :=
  set this
    (2 / (r - l)) 0 0
    0 (2 / (t - b)) 0
    ((- (r + l)) / (r - l)) ((- (t + b)) / (t - b)) 1.

Definition multiplyScalar (this : loc) (s : number) (h : heap) : heap :=
  foldl (fun h i => alter (fun e => store e i (e.[i] * s)) this h) h (seq 0 9).

Definition multiplyVector (this : loc) (v : Vector3.t) (h : heap) : Vector3.t :=
  let e := elements h this in
  Vector3.Build_t
    (e.[0] * v.(Vector3.x) + e.[3] * v.(Vector3.y) + e.[6] * v.(Vector3.z))
    (e.[1] * v.(Vector3.x) + e.[4] * v.(Vector3.y) + e.[7] * v.(Vector3.z))
    (e.[2] * v.(Vector3.x) + e.[5] * v.(Vector3.y) + e.[8] * v.(Vector3.z)).

Definition multiplyMatrix (this m : loc) (h : heap) : heap :=
  let a := elements h this in
  let b := elements h m in
  set this
    (a.[0] * b.[0] + a.[3] * b.[1] + a.[6] * b.[2]) (a.[0] * b.[3] + a.[3] * b.[4] + a.[6] * b.[5]) (a.[0] * b.[6] + a.[3] * b.[7] + a.[6] * b.[8])
    (a.[1] * b.[0] + a.[4] * b.[1] + a.[7] * b.[2]) (a.[1] * b.[3] + a.[4] * b.[4] + a.[7] * b.[5]) (a.[1] * b.[6] + a.[4] * b.[7] + a.[7] * b.[8])
    (a.[2] * b.[0] + a.[5] * b.[1] + a.[8] * b.[2]) (a.[2] * b.[3] + a.[5] * b.[4] + a.[8] * b.[5]) (a.[2] * b.[6] + a.[5] * b.[7] + a.[8] * b.[8])
    h.

End Methods.
End Matrix3.


(** ** The page: globals, GL objects and the functions of the script *)

Inductive ShaderType := VERTEX_SHADER | FRAGMENT_SHADER.

Record WebGLShader := { shader_type : ShaderType; shader_source : string }.

Record WebGLProgram := { attached : list WebGLShader }.

(** What the browser and the graphics driver decide: whether the canvas
  hands out a WebGL2 context, and the status and info log of every
  compilation and link. *)
Record Platform := {
webgl2 : bool;
COMPILE_STATUS : WebGLShader -> bool;
getShaderInfoLog : WebGLShader -> string;
LINK_STATUS : WebGLProgram -> bool;
getProgramInfoLog : WebGLProgram -> string;
}.

(** The globals that exist from the start of the script: the window and
  canvas sizes (integers, [canvas.width] being an [unsigned long]), the
  matrix heap, [pMatrix], the pointer state, [startTime], and the lines
  written by [console.error]. *)
Record Page := {
innerWidth : N;
innerHeight : N;
canvas_width : N;
canvas_height : N;
mem : heap;
pMatrix : option loc;
mouseX : number;
mouseY : number;
startTime : number;
console : list string;
}.

(** The globals assigned by [main] ([gl], [program], [vao], the uniform
  locations) together with the GL state the script writes: the program in
  use, the uniform values, the data store of [vao.positionBuffer],
  [vao.vertexCount], the vertex counts of the draw calls issued (latest
  first) and whether a frame callback is pending.  The event handlers and
  the frame callback are embedded as they run once [main] has returned. *)
Record GL := {
program : WebGLProgram;
currentProgram : option WebGLProgram;
u_mpMatrix : list number;
u_mousePosition : list number;
u_time : number;
positionBuffer : list number;
vertexCount : option number;
drawn : list (option number);
frameRequested : bool;
}.

(** The outcome of running a function of the script: it returns, it throws,
  or a loop has not finished within the fuel given. *)
Inductive outcome (A : Type) :=
| Returns (a : A)
| Throws (error : string) (p : Page)
| OutOfFuel.
Arguments Returns {A} a.
Arguments Throws {A} error p.
Arguments OutOfFuel {A}.

Module Script.

Import Float32Array.
Local Open Scope num_scope.

Definition GRID_SIZE : number := 70.

Definition with_pointer (p : Page) (mx my : number) : Page :=
  {| innerWidth := innerWidth p; innerHeight := innerHeight p;
     canvas_width := canvas_width p; canvas_height := canvas_height p;
     mem := mem p; pMatrix := pMatrix p;
     mouseX := mx; mouseY := my;
     startTime := startTime p; console := console p |}.

Definition with_canvas (p : Page) (w h : N) : Page :=
  {| innerWidth := innerWidth p; innerHeight := innerHeight p;
     canvas_width := w; canvas_height := h;
     mem := mem p; pMatrix := pMatrix p;
     mouseX := mouseX p; mouseY := mouseY p;
     startTime := startTime p; console := console p |}.

Definition with_matrices (p : Page) (h : heap) (pm : option loc) : Page :=
  {| innerWidth := innerWidth p; innerHeight := innerHeight p;
     canvas_width := canvas_width p; canvas_height := canvas_height p;
     mem := h; pMatrix := pm;
     mouseX := mouseX p; mouseY := mouseY p;
     startTime := startTime p; console := console p |}.

Definition console_error (p : Page) (line : string) : Page :=
  {| innerWidth := innerWidth p; innerHeight := innerHeight p;
     canvas_width := canvas_width p; canvas_height := canvas_height p;
     mem := mem p; pMatrix := pMatrix p;
     mouseX := mouseX p; mouseY := mouseY p;
     startTime := startTime p; console := console p ++ [line] |}.

Definition updatePointerPosition (x y : number) (p : Page) : Page :=
  with_pointer p
    (x - of_N (canvas_width p) / 2)
    (of_N (canvas_height p) / 2 - y).

(** [canvas.width = v] and [canvas.height = v]: the attributes are
    reflected [unsigned long]s.  The value is taken modulo 2^32, and from
    2^31 on the attribute gets its default instead: 300 for the width,
    150 for the height. *)
Definition reflected (default v : N) : N :=
  let v := (v mod 2 ^ 32)%N in
  if (v <? 2 ^ 31)%N then v else default.

Definition resizeCanvas (p : Page) : Page :=
  let p := with_canvas p (reflected 300 (innerWidth p))
             (reflected 150 (innerHeight p)) in
  let '(m, h) := Matrix3.new (mem p) in
  let h :=
    Matrix3.makeOrthographic m
      ((- of_N (canvas_width p)) / 2) (of_N (canvas_width p) / 2)
      (of_N (canvas_height p) / 2) ((- of_N (canvas_height p)) / 2) h in
  with_matrices p h (Some m).

(** [for (let i = start; i < bound; i++) body]: the counter is a Number. *)
Fixpoint for_lt {A : Type} (fuel : nat) (i bound : number)
    (body : number -> A -> option A) (a : A) : option A :=
  match fuel with
  | O => None
  | S fuel =>
      if i < bound
      then match body i a with
           | Some a => for_lt fuel (i + 1) bound body a
           | None => None
           end
      else Some a
  end.

Definition step (p : Page) : number :=
  let maxDim := Math_max (of_N (canvas_width p)) (of_N (canvas_height p)) in
  maxDim / (GRID_SIZE - 1).

Definition cols (p : Page) : number :=
  Math_ceil (of_N (canvas_width p) / step p).

Definition rows (p : Page) : number :=
  Math_ceil (of_N (canvas_height p) / step p).

(** The array [positions] once both loops of [rebuildGrid] have run. *)
Definition positions (fuel : nat) (p : Page) : option (list number) :=
  let positions := [] in
  let step := step p in
  let cols := cols p in
  let rows := rows p in
  for_lt fuel 0 rows (fun y positions =>
    for_lt fuel 0 cols (fun x positions =>
      Some (positions ++
              [x * step - of_N (canvas_width p) / 2 + step / 2;
               y * step - of_N (canvas_height p) / 2 + step / 2]))
      positions)
    positions.

Definition with_buffer (g : GL) (data : list number) (count : number) : GL :=
  {| program := program g; currentProgram := currentProgram g;
     u_mpMatrix := u_mpMatrix g; u_mousePosition := u_mousePosition g;
     u_time := u_time g;
     positionBuffer := data; vertexCount := Some count;
     drawn := drawn g; frameRequested := frameRequested g |}.

Definition rebuildGrid (fuel : nat) (p : Page) (g : GL) : option GL :=
  match positions fuel p with
  | Some positions =>
      Some (with_buffer g (Float32Array.from positions)
              (of_nat (length positions) / 2))
  | None => None
  end.

Definition vertexShaderSource : string :=
  "#version 300 es

    precision highp float;

    uniform mat3 u_mpMatrix;
    uniform vec2 u_mousePosition;
    uniform float u_time;

    in vec2 a_position;

    void main() {
        float radius = 150.0;          // influence radius
        float maxDisplacement = 60.0;  // max offset distance

        vec2 toFrom = a_position - u_mousePosition;
        float dist = length(toFrom);
        vec2 dir = normalize(toFrom);

        // smooth falloff: 1 near mouse -> 0 far away
        float falloff = smoothstep(radius, 0.0, dist);

        // spring-like effect using sine and exponential decay
        float t = u_time * 5.0;
        float decay = exp(-3.0 * falloff * u_time) * sin(t) * 0.5 + 1.0;

        vec2 displaced = a_position + dir * maxDisplacement * falloff * decay;

        vec3 pos = u_mpMatrix * vec3(displaced, 1.0);
        gl_Position = vec4(pos.xy, 0.0, 1.0);
        gl_PointSize = 0.75;
    }
".

Definition fragmentShaderSource : string :=
  "#version 300 es

    precision highp float;

    out vec4 outColor;

    void main() {
        outColor = vec4(0.8, 0.8, 0.8, 1.0);
    }
".

Definition createShader (pf : Platform) (type : ShaderType) (source : string)
    (p : Page) : WebGLShader * Page :=
  let shader := {| shader_type := type; shader_source := source |} in
  let p :=
    if negb (COMPILE_STATUS pf shader)
    then console_error p (getShaderInfoLog pf shader)
    else p in
  (shader, p).

Definition createProgram (pf : Platform) (vs fs : WebGLShader) (p : Page)
    : WebGLProgram * Page :=
  let program := {| attached := [vs; fs] |} in
  let p :=
    if negb (LINK_STATUS pf program)
    then console_error p (getProgramInfoLog pf program)
    else p in
  (program, p).

Definition getWebGL2Context (pf : Platform) (p : Page) : outcome unit :=
  if negb (webgl2 pf) then Throws "WebGL2 not supported." p
  else Returns tt.

(** [requestAnimationFrame(updateAndRender)] *)
Definition requestAnimationFrame (g : GL) : GL :=
  {| program := program g; currentProgram := currentProgram g;
     u_mpMatrix := u_mpMatrix g; u_mousePosition := u_mousePosition g;
     u_time := u_time g;
     positionBuffer := positionBuffer g; vertexCount := vertexCount g;
     drawn := drawn g; frameRequested := true |}.

Definition main (pf : Platform) (fuel : nat) (p : Page) : outcome (Page * GL) :=
  let p := resizeCanvas p in
  match getWebGL2Context pf p with
  | Throws error p => Throws error p
  | OutOfFuel => OutOfFuel
  | Returns _ =>
      let '(vs, p) := createShader pf VERTEX_SHADER vertexShaderSource p in
      let '(fs, p) := createShader pf FRAGMENT_SHADER fragmentShaderSource p in
      let '(program, p) := createProgram pf vs fs p in
      let g :=
        {| program := program; currentProgram := Some program;
           u_mpMatrix := Float32Array.new 9;
           u_mousePosition := Float32Array.new 2;
           u_time := 0;
           positionBuffer := []; vertexCount := None;
           drawn := []; frameRequested := false |} in
      match rebuildGrid fuel p g with
      | Some g => Returns (p, requestAnimationFrame g)
      | None => OutOfFuel
      end
  end.

(** The literal [0.001]: the binary64 value nearest to 1/1000. *)
Definition milli : number := Eval cbv in (1 / 1000).

(** One frame; [now] is the value of [performance.now()]. *)
Definition updateAndRender (now : number) (p : Page) (g : GL)
    : outcome (Page * GL) :=
  let time := (now - startTime p) * milli in
  let '(mMatrix, h) := Matrix3.new (mem p) in
  let h := Matrix3.makeTranslation mMatrix 0 0 h in
  match pMatrix p with
  | None => Throws "TypeError: pMatrix is undefined" (with_matrices p h None)
  | Some pm =>
      let '(mpMatrix, h) := Matrix3.clone pm h in
      let h := Matrix3.multiplyMatrix mpMatrix mMatrix h in
      Returns
        (with_matrices p h (Some pm),
         {| program := program g; currentProgram := Some (program g);
            u_mpMatrix := Float32Array.from (Matrix3.elements h mpMatrix);
            u_mousePosition := Float32Array.from [mouseX p; mouseY p];
            u_time := fround time;
            positionBuffer := positionBuffer g; vertexCount := vertexCount g;
            drawn := vertexCount g :: drawn g; frameRequested := true |})
  end.

(** The events the script listens to.  A touch event carries its list of
    touches; a resize comes with the new inner size of the window. *)
Inductive Event :=
  | mousemove (clientX clientY : number)
  | touchmove (touches : list (number * number))
  | touchstart (touches : list (number * number))
  | resize (width height : N).

Definition touch_handler (touches : list (number * number)) (p : Page) : Page :=
  match touches with
  | (clientX, clientY) :: _ => updatePointerPosition clientX clientY p
  | [] => p
  end.

Definition with_window (p : Page) (w h : N) : Page :=
  {| innerWidth := w; innerHeight := h;
     canvas_width := canvas_width p; canvas_height := canvas_height p;
     mem := mem p; pMatrix := pMatrix p;
     mouseX := mouseX p; mouseY := mouseY p;
     startTime := startTime p; console := console p |}.

(** The listeners are registered when the script loads, while [gl] and
    [vao] are assigned by [main]: [g] is [None] as long as they are
    undefined, that is before [main] has run and after it threw.  The
    resize listener then fails in [rebuildGrid], once the loops are done,
    where [gl.bindBuffer] is looked up. *)
Definition dispatch (fuel : nat) (e : Event) (p : Page) (g : option GL)
    : outcome (Page * option GL) :=
  match e with
  | mousemove clientX clientY =>
      Returns (updatePointerPosition clientX clientY p, g)
  | touchmove touches | touchstart touches =>
      Returns (touch_handler touches p, g)
  | resize w h =>
      let p := resizeCanvas (with_window p w h) in
      match g with
      | Some g =>
          match rebuildGrid fuel p g with
          | Some g => Returns (p, Some g)
          | None => OutOfFuel
          end
      | None =>
          match positions fuel p with
          | Some _ => Throws "TypeError: gl is undefined" p
          | None => OutOfFuel
          end
      end
  end.

End Script.

(** ** The vertex shader

  [precision highp float]: a [float] of the shader is an IEEE binary32
  value.  Sums, differences and products are correctly rounded; quotients
  and square roots are taken correctly rounded as well, and NaN and the
  infinities arise as in IEEE arithmetic.  The built-ins [exp] and [sin],
  whose precision GLSL leaves to the implementation, are parameters.
  [length], [normalize], [min], [max], [clamp] and [smoothstep] are the
  formulas by which the GLSL specification defines them; for [smoothstep]
  that is what is evaluated here although the first edge exceeds the
  second.  A matrix-vector product adds its three terms from left to
  right. *)

Declare Scope glsl_scope.
Delimit Scope glsl_scope with glsl.

Module Shader.

Definition float := spec_float.

(** The [float] denoted by an integer-valued literal such as [150.0]. *)
Definition of_Z (z : Z) : float := binary_normalize 24 128 z 0 false.
Definition literal (z : Z) : spec_float := Eval cbv in of_Z z.

Definition add : float -> float -> float := SFadd 24 128.
Definition sub : float -> float -> float := SFsub 24 128.
Definition mul : float -> float -> float := SFmul 24 128.
Definition div : float -> float -> float := SFdiv 24 128.
Definition neg : float -> float := SFopp.
Definition sqrt : float -> float := SFsqrt 24 128.
Definition lt : float -> float -> bool := SFltb.
Definition le : float -> float -> bool := SFleb.

(** A uniform or attribute as the shader receives it: the binary32 value
    of a cell of a [Float32Array]. *)
Definition of_number (v : number) : float :=
  match v with
  | S754_finite s m e => binary_normalize 24 128 (cond_Zopp s (Zpos m)) e s
  | _ => v
  end.

Record vec2 := { x : float; y : float }.
Record vec3 := { x3 : float; y3 : float; z3 : float }.
Record vec4 := { x4 : float; y4 : float; z4 : float; w4 : float }.
(** A [mat3] by its nine cells, column after column. *)
Record mat3 := { cells : list float }.
Record outputs := { gl_Position : vec4; gl_PointSize : float }.

Number Notation spec_float literal JSNumber.unliteral : glsl_scope.
Infix "+" := add : glsl_scope.
Infix "-" := sub : glsl_scope.
Infix "*" := mul : glsl_scope.
Infix "/" := div : glsl_scope.
Notation "- x" := (neg x) : glsl_scope.
Infix "<" := lt : glsl_scope.
Infix "<=" := le : glsl_scope.

Section Main.

(** The implementation's [exp] and [sin]. *)
Variables exp sin : float -> float.

Local Open Scope glsl_scope.

(** The literals [0.5] and [0.75]. *)
Definition half : float := Eval cbv in (1 / 2).
Definition three_quarters : float := Eval cbv in (3 / 4).

Definition vadd (a b : vec2) : vec2 := {| x := x a + x b; y := y a + y b |}.
Definition vsub (a b : vec2) : vec2 := {| x := x a - x b; y := y a - y b |}.
Definition vscale (a : vec2) (k : float) : vec2 := {| x := x a * k; y := y a * k |}.
Definition vdiv (a : vec2) (k : float) : vec2 := {| x := x a / k; y := y a / k |}.

Definition length (v : vec2) : float := sqrt (x v * x v + y v * y v).

Definition normalize (v : vec2) : vec2 := vdiv v (length v).

(** [min(x, y)] is [y] if [y < x], else [x]; [max(x, y)] is [y] if
    [x < y], else [x]. *)
Definition min (x y : float) : float := if y < x then y else x.
Definition max (x y : float) : float := if x < y then y else x.

Definition clamp (x minVal maxVal : float) : float := min (max x minVal) maxVal.

Definition smoothstep (edge0 edge1 x : float) : float :=
  let t := clamp ((x - edge0) / (edge1 - edge0)) 0 1 in
  t * t * (3 - 2 * t).

Definition cell (m : mat3) (i : nat) : float := nth i (cells m) 0.

(** [m * v] for a [mat3] and a [vec3]. *)
Definition mulmv (m : mat3) (v : vec3) : vec3 :=
  {| x3 := cell m 0 * x3 v + cell m 3 * y3 v + cell m 6 * z3 v;
     y3 := cell m 1 * x3 v + cell m 4 * y3 v + cell m 7 * z3 v;
     z3 := cell m 2 * x3 v + cell m 5 * y3 v + cell m 8 * z3 v |}.

(** The value of the local [decay] in [main]. *)
Definition decay (falloff u_time : float) : float :=
  let t := u_time * 5 in
  exp (- 3 * falloff * u_time) * sin t * half + 1.

(** The value of the local [displaced] in [main]. *)
Definition displaced (u_mousePosition : vec2) (u_time : float) (a_position : vec2)
    : vec2 :=
  let radius := 150 in
  let maxDisplacement := 60 in
  let toFrom := vsub a_position u_mousePosition in
  let dist := length toFrom in
  let dir := normalize toFrom in
  let falloff := smoothstep radius 0 dist in
  let decay := decay falloff u_time in
  vadd a_position (vscale (vscale (vscale dir maxDisplacement) falloff) decay).

Definition main (u_mpMatrix : mat3) (u_mousePosition : vec2) (u_time : float)
    (a_position : vec2) : outputs :=
  let displaced := displaced u_mousePosition u_time a_position in
  let pos := mulmv u_mpMatrix {| x3 := x displaced; y3 := y displaced; z3 := 1 |} in
  {| gl_Position := {| x4 := x3 pos; y4 := y3 pos; z4 := 0; w4 := 1 |};
     gl_PointSize := three_quarters |}.

(** The displacement as the specification words it: with [d = P - M],
    [dist = |d|], [dir = d / dist], [falloff = smoothstep(150, 0, dist)]
    and [decay = exp(-3 * falloff * t) * sin(5t) * 0.5 + 1], the displaced
    position is [P + dir * 60 * falloff * decay]. *)
Definition spec_displaced (P M : vec2) (t : float) : vec2 :=
  let d := vsub P M in
  let dist := length d in
  let dir := vdiv d dist in
  let falloff := smoothstep 150 0 dist in
  let decay := exp (- 3 * falloff * t) * sin (5 * t) * half + 1 in
  vadd P (vscale (vscale (vscale dir 60) falloff) decay).

End Main.

End Shader.

(** ** The copy buttons ([scripts/copyButtons.js]) *)

Module CopyButtons.

Local Open Scope string_scope.

(** An element of the page: its markup, its text, and its listeners for
    [click], each one a closure of [copyLink] over [(buttonId, linkId)]. *)
Record Element := {
innerHTML : string;
textContent : string;
listeners : list (string * string);
}.

(** [navigator.clipboard]: undefined outside a secure context; otherwise
    the promise of [writeText] is rejected or fulfilled. *)
Inductive Clipboard := unavailable | denies | grants.

(** The browser: the elements by selector, the clipboard and its text, the
    clock in milliseconds, the pending timeouts (due time and the
    [buttonId] of the callback, in the order they were set) and the
    uncaught errors reported so far. *)
Record Browser := {
document : gmap string Element;
navigator_clipboard : Clipboard;
clipboard_text : option string;
now : Z;
timeouts : list (Z * string);
uncaught : list string;
}.

Inductive result :=
  | Ok (b : Browser)
  | Uncaught (error : string) (b : Browser).

Definition with_document (b : Browser) (d : gmap string Element) : Browser :=
  {| document := d; navigator_clipboard := navigator_clipboard b;
     clipboard_text := clipboard_text b; now := now b;
     timeouts := timeouts b; uncaught := uncaught b |}.

Definition quote : string := String "034"%char EmptyString.

(** [<span class=...>name</span>], the markup of an icon. *)
Definition icon (name : string) : string :=
  "<span class=" ++ quote ++ "material-symbols-outlined" ++ quote ++ ">"
    ++ name ++ "</span>".

(** [element.innerHTML = icon]: the text of the element is the icon name. *)
Definition set_icon (el : Element) (name : string) : Element :=
  {| innerHTML := icon name; textContent := name; listeners := listeners el |}.

Definition addEventListener (el : Element) (closure : string * string) : Element :=
  {| innerHTML := innerHTML el; textContent := textContent el;
     listeners := listeners el ++ [closure] |}.

(** [navigator.clipboard.writeText(content)] *)
Definition writeText (content : string) (b : Browser) : result :=
  match navigator_clipboard b with
  | unavailable =>
      Uncaught "TypeError: navigator.clipboard is undefined" b
  | denies => Ok b
  | grants =>
      Ok {| document := document b; navigator_clipboard := navigator_clipboard b;
            clipboard_text := Some content; now := now b;
            timeouts := timeouts b; uncaught := uncaught b |}
  end.

(** [setTimeout(callback, delay)], the callback being the one of
    [buttonId]. *)
Definition setTimeout (buttonId : string) (delay : Z) (b : Browser) : Browser :=
  {| document := document b; navigator_clipboard := navigator_clipboard b;
     clipboard_text := clipboard_text b; now := now b;
     timeouts := timeouts b ++ [(now b + delay, buttonId)%Z];
     uncaught := uncaught b |}.

Definition null_error : string := "TypeError: document.querySelector(...) is null".

(** [document.querySelector(selector).innerHTML = icon] *)
Definition show (buttonId name : string) (b : Browser) : result :=
  match document b !! buttonId with
  | None => Uncaught null_error b
  | Some el => Ok (with_document b (<[buttonId := set_icon el name]> (document b)))
  end.

(** The listener [copyLink] registers. *)
Definition listener (buttonId linkId : string) (b : Browser) : result :=
  match document b !! linkId with
  | None => Uncaught null_error b
  | Some link =>
      let content := textContent link in
      match writeText content b with
      | Uncaught error b => Uncaught error b
      | Ok b =>
          match show buttonId "check" b with
          | Uncaught error b => Uncaught error b
          | Ok b => Ok (setTimeout buttonId 1500 b)
          end
      end
  end.

(** The callback of the timeout. *)
Definition callback (buttonId : string) (b : Browser) : result :=
  show buttonId "content_copy" b.

Definition copyLink (buttonId linkId : string) (b : Browser) : result :=
  match document b !! buttonId with
  | None => Uncaught null_error b
  | Some el =>
      Ok (with_document b
            (<[buttonId := addEventListener el (buttonId, linkId)]> (document b)))
  end.

(** A line of the script:
    [document.querySelector(buttonId).addEventListener("click", copyLink(buttonId, linkId))].
    The method is looked up first; [copyLink] returns [undefined], and
    [addEventListener] ignores a listener that is null or undefined. *)
Definition line (buttonId linkId : string) (b : Browser) : result :=
  match document b !! buttonId with
  | None => Uncaught null_error b
  | Some _ => copyLink buttonId linkId b
  end.

Definition buttons : list (string * string) :=
  [ ("#copy-email", "#email-link");
    ("#copy-github", "#github-link");
    ("#copy-linkedin", "#linkedin-link") ].

(** The script: its lines in order, up to the first uncaught error. *)
Fixpoint lines (ls : list (string * string)) (b : Browser) : result :=
  match ls with
  | [] => Ok b
  | (buttonId, linkId) :: ls =>
      match line buttonId linkId b with
      | Ok b => lines ls b
      | Uncaught error b => Uncaught error b
      end
  end.

Definition script : Browser -> result := lines buttons.

(** An error a listener or a callback does not catch is reported, and
    the browser goes on. *)
Definition report (r : result) : Browser :=
  match r with
  | Ok b => b
  | Uncaught error b =>
      {| document := document b; navigator_clipboard := navigator_clipboard b;
         clipboard_text := clipboard_text b; now := now b;
         timeouts := timeouts b; uncaught := uncaught b ++ [error] |}
  end.

(** A click on the element [target]: its listeners run in the order they
    were added. *)
Definition click (target : string) (b : Browser) : Browser :=
  match document b !! target with
  | None => b
  | Some el =>
      foldl (fun b closure => report (listener closure.1 closure.2 b))
        b (listeners el)
  end.

Definition set_clock (b : Browser) (t : Z) (pending : list (Z * string)) : Browser :=
  {| document := document b; navigator_clipboard := navigator_clipboard b;
     clipboard_text := clipboard_text b; now := t;
     timeouts := pending; uncaught := uncaught b |}.

(** [ms] milliseconds pass: the timeouts that are due run, in order. *)
Definition elapse (ms : Z) (b : Browser) : Browser :=
  let t := (now b + ms)%Z in
  let due := List.filter (fun d => (d.1 <=? t)%Z) (timeouts b) in
  let pending := List.filter (fun d => negb (d.1 <=? t)%Z) (timeouts b) in
  foldl (fun b d => report (callback d.2 b)) (set_clock b t pending) due.

(** What the user does and what time does. *)
Inductive Action :=
  | Click (target : string)
  | Elapse (ms : Z).

Definition act (a : Action) (b : Browser) : Browser :=
  match a with
  | Click target => click target b
  | Elapse ms => elapse ms b
  end.

End CopyButtons.

(** ** Sample states *)

Module Sample.

Import Script.

(** A page whose window and canvas measure [w] by [h], before [main]. *)
Definition page (w h : N) : Page :=
  {| innerWidth := w; innerHeight := h;
     canvas_width := w; canvas_height := h;
     mem := ∅; pMatrix := None;
     mouseX := 0%num; mouseY := 0%num;
     startTime := 0%num; console := [] |}.

(** The GL state [main] builds before its first [rebuildGrid]. *)
Definition gl_state : GL :=
  let program :=
    {| attached :=
         [ {| shader_type := VERTEX_SHADER; shader_source := vertexShaderSource |};
           {| shader_type := FRAGMENT_SHADER; shader_source := fragmentShaderSource |} ] |} in
  {| program := program; currentProgram := Some program;
     u_mpMatrix := Float32Array.new 9;
     u_mousePosition := Float32Array.new 2;
     u_time := 0%num;
     positionBuffer := []; vertexCount := None;
     drawn := []; frameRequested := false |}.

(** A platform with WebGL2 on which every compilation and link fails. *)
Definition failing_driver : Platform :=
  {| webgl2 := true;
     COMPILE_STATUS := fun _ => false;
     getShaderInfoLog := fun _ => "ERROR: 0:1: syntax error"%string;
     LINK_STATUS := fun _ => false;
     getProgramInfoLog := fun _ => "ERROR: link failed"%string |}.

(** A platform whose canvas gives no WebGL2 context. *)
Definition no_webgl2 : Platform :=
  {| webgl2 := false;
     COMPILE_STATUS := fun _ => true;
     getShaderInfoLog := fun _ => EmptyString;
     LINK_STATUS := fun _ => true;
     getProgramInfoLog := fun _ => EmptyString |}.

End Sample.

Module SampleShader.

Import Shader.
Local Open Scope glsl_scope.

(** An [exp] and a [sin] to run the shader with: the constants 1 and 0. *)
Definition flat_exp (_ : float) : float := 1.
Definition flat_sin (_ : float) : float := 0.

(** The [float]s [2 ^ 127] and [2 ^ -80]. *)
Definition huge : float := S754_finite false 8388608 104.
Definition tiny : float := S754_finite false 8388608 (-103).

End SampleShader.

Module SampleButtons.

Import CopyButtons.
Local Open Scope string_scope.

(** A page with the three buttons and their links, before the script. *)
Definition contact_elements : gmap string Element :=
  let button := {| innerHTML := icon "content_copy"; textContent := "content_copy";
                   listeners := [] |} in
  let link text := {| innerHTML := text; textContent := text; listeners := [] |} in
  <["#copy-email" := button]>
    (<["#copy-github" := button]>
       (<["#copy-linkedin" := button]>
          (<["#email-link" := link "someone@example.org"]>
             (<["#github-link" := link "github.com/someone"]>
                (<["#linkedin-link" := link "linkedin.com/in/someone"]> ∅))))).

Definition contact_page (c : Clipboard) : Browser :=
  {| document := contact_elements; navigator_clipboard := c;
     clipboard_text := None; now := 0; timeouts := []; uncaught := [] |}.

(** The same page without its second button. *)
Definition contact_page_without_github : Browser :=
  let button := {| innerHTML := icon "content_copy"; textContent := "content_copy";
                   listeners := [] |} in
  {| document := <["#copy-email" := button]> (<["#copy-linkedin" := button]> ∅);
     navigator_clipboard := grants;
     clipboard_text := None; now := 0; timeouts := []; uncaught := [] |}.

(** The sample page once the script has run. *)
Definition wired (c : Clipboard) : Browser :=
  match script (contact_page c) with Ok b => b | Uncaught _ b => b end.

End SampleButtons.

(** ** Vocabulary of the statements *)

(** The matrix [new Matrix3().makeOrthographic(l, r, t, b)] in a heap of
    its own, and the image of the point [(px, py)] under it. *)
Definition orthographic_image (l r t b px py : number) : Vector3.t :=
  let '(m, h) := Matrix3.new ∅ in
  let h := Matrix3.makeOrthographic m l r t b h in
  Matrix3.multiplyVector m
    {| Vector3.x := px; Vector3.y := py; Vector3.z := 1%num |} h.

(** The mutating methods of [Matrix3], as calls on a receiver. *)
Inductive call :=
  | call_set (m11 m12 m13 m21 m22 m23 m31 m32 m33 : number)
  | call_makeIdentity
  | call_makeScale (x y : number)
  | call_makeRotation (degrees : number)
  | call_makeTranslation (x y : number)
  | call_makeOrthographic (l r t b : number)
  | call_multiplyScalar (s : number)
  | call_multiplyMatrix (m : loc)
  | call_copy (m : loc).

Definition invoke (Math_cos Math_sin : number -> number) (this : loc)
    (c : call) (h : heap) : heap :=
  match c with
  | call_set m11 m12 m13 m21 m22 m23 m31 m32 m33 =>
      Matrix3.set this m11 m12 m13 m21 m22 m23 m31 m32 m33 h
  | call_makeIdentity => Matrix3.makeIdentity this h
  | call_makeScale x y => Matrix3.makeScale this x y h
  | call_makeRotation degrees =>
      Matrix3.makeRotation Math_cos Math_sin this degrees h
  | call_makeTranslation x y => Matrix3.makeTranslation this x y h
  | call_makeOrthographic l r t b => Matrix3.makeOrthographic this l r t b h
  | call_multiplyScalar s => Matrix3.multiplyScalar this s h
  | call_multiplyMatrix m => Matrix3.multiplyMatrix this m h
  | call_copy m => Matrix3.copy this m h
  end.

(** The arrays a [Matrix3] can hold: nine binary32 values. *)
Definition matrix_array (a : list number) : Prop :=
  length a = 9%nat /\ Forall (fun v => fround v = v) a.

(** A representation that is a binary64 value. *)
Definition binary64 (v : number) : Prop := valid_binary prec emax v = true.

Definition is_zero (v : number) : bool :=
  match v with S754_zero _ => true | _ => false end.

(** A finite binary64 value. *)
Definition finite64 (v : number) : Prop := is_finite v = true /\ binary64 v.

(** A finite binary32 value, as a [Float32Array] holds it. *)
Definition finite32 (v : number) : Prop := finite64 v /\ fround v = v.

(** Equal, or zeros of either sign. *)
Definition same (v w : number) : Prop :=
  v = w \/ (is_zero v = true /\ is_zero w = true).

(** The elements [makeIdentity] writes. *)
Definition identity_elements : list number := [1; 0; 0; 0; 1; 0; 0; 0; 1]%num.

(** The identity at address 1 and [makeScale(x, y)] at address 2. *)
Definition identity_and_scale (x y : number) : heap :=
  Matrix3.makeScale 2%positive x y (Matrix3.new (Matrix3.new ∅).2).2.

(** A positive normal binary64 value with exponent [e]: a 53-bit mantissa. *)
Definition normal (v : number) (e : Z) : Prop :=
  exists m, v = S754_finite false m e /\ Zpos (digits2_pos m) = 53%Z.

(** A loop bound of the grid: NaN, or the Number of an integer from 0 to
    512. *)
Definition small_count (v : number) : Prop :=
  v = NaN \/ exists n : Z, (0 <= n <= 512)%Z /\ v = of_Z n.

(** Structural equality of Numbers, as a boolean. *)
Definition number_eqb (v w : number) : bool :=
  match v, w with
  | S754_zero s, S754_zero s' => Bool.eqb s s'
  | S754_infinity s, S754_infinity s' => Bool.eqb s s'
  | S754_nan, S754_nan => true
  | S754_finite s m e, S754_finite s' m' e' =>
      Bool.eqb s s' && Pos.eqb m m' && Z.eqb e e'
  | _, _ => false
  end.

(** The integers 0..512 with their Numbers. *)
Definition counter_table : list (Z * number) :=
  map (fun k => (Z.of_nat k, of_Z (Z.of_nat k))) (seq 0 513).

(** On 0..512 the test [i < n] and the increment [i + 1] of a loop counter
    agree with the integers. *)
Definition counter_lt_exact (kv nv : Z * number) : bool :=
  Bool.eqb (snd kv < snd nv)%num (fst kv <? fst nv)%Z.

Definition counter_exact (kv : Z * number) : bool :=
  number_eqb (snd kv + 1)%num (of_Z (fst kv + 1)) &&
  forallb (counter_lt_exact kv) counter_table.

(** The lines [main] writes with [console.error] on a platform: the info
    log of each shader that does not compile, then that of the program if it
    does not link. *)
Definition diagnostics (pf : Platform) : list string :=
  let vs := {| shader_type := VERTEX_SHADER;
               shader_source := Script.vertexShaderSource |} in
  let fs := {| shader_type := FRAGMENT_SHADER;
               shader_source := Script.fragmentShaderSource |} in
  let program := {| attached := [vs; fs] |} in
  (if COMPILE_STATUS pf vs then [] else [getShaderInfoLog pf vs]) ++
  (if COMPILE_STATUS pf fs then [] else [getShaderInfoLog pf fs]) ++
  (if LINK_STATUS pf program then [] else [getProgramInfoLog pf program]).

(** ** Vocabulary of the further properties *)

Section GridVocabulary.
Import Script.

(** The loop bound [v] makes a loop from 0 run [n] times: it is the Number
    of [n], or it is NaN and the loop does not run. *)
Definition runs (v : number) (n : nat) : Prop :=
  v = of_nat n \/ (v = NaN /\ n = 0%nat).

(** The two coordinates [rebuildGrid] pushes for column [x] and row [y]. *)
Definition grid_point (p : Page) (x y : nat) : list number :=
  [ (of_nat x * Script.step p - of_N (canvas_width p) / 2 + Script.step p / 2)%num;
    (of_nat y * Script.step p - of_N (canvas_height p) / 2 + Script.step p / 2)%num ].

(** [rows] rows of [cols] points each, row after row. *)
Definition lattice (p : Page) (cols rows : nat) : list number :=
  flat_map (fun y => flat_map (fun x => grid_point p x y) (seq 0 cols)) (seq 0 rows).

End GridVocabulary.

(** A binary32 value, as a cell of a [Float32Array] holds it. *)
Definition float32 (v : number) : Prop := binary64 v /\ fround v = v.

(** Every matrix of the heap is an array of nine binary32 values. *)
Definition well_formed (h : heap) : Prop :=
  forall (o : loc) (a : list number),
    h !! o = Some a -> length a = 9%nat /\ Forall float32 a.

Section PageVocabulary.
Import Script.
Local Open Scope num_scope.

(** The elements of the projection for a canvas of [w] by [h] pixels. *)
Definition projection (w h : N) : list number :=
  [fround (2 / of_N w); 0; - 0; 0; fround (2 / of_N h); - 0; 0; 0; 1].

(** What the browser runs once [main] has returned: the frame callback, at
    a time [now], or the handler of an event. *)
Inductive Task :=
  | frame (now : number)
  | event (e : Event).

Definition is_frame (t : Task) : bool :=
  match t with frame _ => true | event _ => false end.

(** A frame callback runs only if one was requested, which [main] and
    the callback itself do; the state holds [gl] and [vao] once [main] has
    assigned them. *)
Definition run_task (fuel : nat) (t : Task) (s : Page * option GL)
    : outcome (Page * option GL) :=
  match t with
  | frame now =>
      match s.2 with
      | Some g =>
          if frameRequested g
          then match updateAndRender now s.1 g with
               | Returns (p, g) => Returns (p, Some g)
               | Throws error p => Throws error p
               | OutOfFuel => OutOfFuel
               end
          else Returns s
      | None => Returns s
      end
  | event e => dispatch fuel e s.1 s.2
  end.

(** The tasks run one after the other, until one throws. *)
Fixpoint run (fuel : nat) (ts : list Task) (s : Page * option GL)
    : outcome (Page * option GL) :=
  match ts with
  | [] => Returns s
  | t :: ts =>
      match run_task fuel t s with
      | Returns s => run fuel ts s
      | Throws error p => Throws error p
      | OutOfFuel => OutOfFuel
      end
  end.

(** Window sides are below 2^31. *)
Definition in_range (t : Task) : Prop :=
  match t with
  | event (resize width height) => (width < 2 ^ 31)%N /\ (height < 2 ^ 31)%N
  | _ => True
  end.

(** The vertex buffer holds the grid of the canvas of [p]. *)
Definition grid_shown (p : Page) (g : GL) : Prop :=
  exists c r : nat,
    runs (cols p) c /\ runs (rows p) r /\
    positionBuffer g = Float32Array.from (lattice p c r) /\
    vertexCount g = Some (of_nat (r * c)).

(** The globals agree with each other: the canvas has the size of the
    window, [pMatrix] is a matrix (the projection of the canvas when no side
    is 0), the buffer holds the grid of the canvas, a frame is pending, and
    every draw call so far was given a count. *)
Definition consistent (s : Page * GL) : Prop :=
  canvas_width s.1 = innerWidth s.1 /\ canvas_height s.1 = innerHeight s.1 /\
  (canvas_width s.1 < 2 ^ 32)%N /\ (canvas_height s.1 < 2 ^ 32)%N /\
  (exists pm a,
     pMatrix s.1 = Some pm /\ mem s.1 !! pm = Some a /\
     (canvas_width s.1 <> 0%N -> canvas_height s.1 <> 0%N ->
      a = projection (canvas_width s.1) (canvas_height s.1))) /\
  grid_shown s.1 s.2 /\
  frameRequested s.2 = true /\
  Forall (fun d => exists n : nat, d = Some (of_nat n)) (drawn s.2).

End PageVocabulary.

Section ShaderVocabulary.
Import Shader.

(** [v] is a zero, a finite value or an infinity of sign [s]. *)
Definition signed (s : bool) (v : float) : Prop :=
  match v with
  | S754_zero s' | S754_infinity s' | S754_finite s' _ _ => s' = s
  | S754_nan => False
  end.

(** The comparison [a == b] of two [float]s. *)
Definition float_eq (a b : float) : bool := SFeqb a b.

(** [v] is a zero or a finite value below [2 ^ k] in magnitude. *)
Definition below (k : Z) (v : float) : Prop :=
  match v with
  | S754_zero _ => True
  | S754_finite _ m e => (Zpos (digits2_pos m) + e <= k)%Z
  | _ => False
  end.

(** The value of a finite [v] times [2 ^ k]. *)
Definition scaled (k : Z) (v : float) : Z :=
  match v with
  | S754_finite s m e => (cond_Zopp s (Zpos m) * 2 ^ (e + k))%Z
  | _ => 0%Z
  end.

(** The [mat3] the shader receives when [uniformMatrix3fv] is given the
    elements [u]. *)
Definition uniform_matrix (u : list number) : mat3 :=
  {| cells := of_number <$> u |}.

End ShaderVocabulary.

Section ButtonVocabulary.
Import CopyButtons.
Local Open Scope string_scope.

(** No element shows the check icon unless a timeout is pending for it,
    every pending timeout is due within 1500 ms, and its button exists. *)
Definition settled (b : Browser) : Prop :=
  (forall k el, document b !! k = Some el -> innerHTML el = icon "check" ->
                exists t, In (t, k) (timeouts b)) /\
  (forall t k, In (t, k) (timeouts b) ->
               (t <= now b + 1500)%Z /\ is_Some (document b !! k)).

(** Time does not run backwards. *)
Definition forward (a : Action) : Prop :=
  match a with
  | Click _ => True
  | Elapse ms => (0 <= ms)%Z
  end.

End ButtonVocabulary.

(** * Properties *)

(** ** The orthographic projection (C1) *)

Section Orthographic.

Import Matrix3.
Local Open Scope num_scope.

(** C1, evaluated on the code.  With bounds l = 0, r = 2, t = 2, b = 0 the
    corner (l, b) is sent to (0, 0) and the corner (r, t) to (2, 2), not to
    (-1, -1) and (1, 1): the translation terms reach cells 2 and 5 of the
    array, which [multiplyVector] only reads for the third coordinate. *)
Theorem makeOrthographic_corners_0_2 :
  orthographic_image 0 2 2 0 0 0
    = {| Vector3.x := 0; Vector3.y := 0; Vector3.z := 1 |} /\
  orthographic_image 0 2 2 0 2 2
    = {| Vector3.x := 2; Vector3.y := 2; Vector3.z := -3 |} /\
  Matrix3.elements (makeOrthographic 1%positive 0 2 2 0 (snd (Matrix3.new ∅))) 1%positive
    = [1; 0; -1; 0; 1; -1; 0; 0; 1].
Proof. repeat split; vm_compute; reflexivity. Qed.

(** With symmetric bounds, as [resizeCanvas] passes them, the translation
    terms vanish and the corners do land on the corners of the clip square
    (here for a 1024 by 512 canvas, whose scale factors are exact in
    binary32). *)
Lemma makeOrthographic_corners_symmetric :
  orthographic_image (-512) 512 256 (-256) (-512) (-256)
    = {| Vector3.x := -1; Vector3.y := -1; Vector3.z := 1 |} /\
  orthographic_image (-512) 512 256 (-256) 512 256
    = {| Vector3.x := 1; Vector3.y := 1; Vector3.z := 1 |}.
Proof. split; vm_compute; reflexivity. Qed.

End Orthographic.

(** ** The pointer state (C8, C10) *)

Section Pointer.

Import Script.
Local Open Scope num_scope.

(** C10.  For every client position [(x, y)] and every canvas size,
    [updatePointerPosition x y] stores exactly [x - width / 2] in [mouseX]
    and [height / 2 - y] in [mouseY] (so the stored ordinate is the client
    ordinate negated and shifted), and touches nothing else. *)
Theorem updatePointerPosition_sets (x y : number) (p : Page) :
  let p' := updatePointerPosition x y p in
  mouseX p' = x - of_N (canvas_width p) / 2 /\
  mouseY p' = of_N (canvas_height p) / 2 - y /\
  canvas_width p' = canvas_width p /\ canvas_height p' = canvas_height p /\
  mem p' = mem p /\ pMatrix p' = pMatrix p /\ console p' = console p.
Proof. cbv zeta. unfold updatePointerPosition, with_pointer. simpl. tauto. Qed.

(** The pointer ordinate runs against the client ordinate: on an 800 by 600
    canvas the client rows 0, 300 and 600 are stored as 300, 0 and -300. *)
Lemma updatePointerPosition_flips_y :
  let p := Sample.page 800 600 in
  mouseY (updatePointerPosition 0 0 p) = 300 /\
  mouseY (updatePointerPosition 0 300 p) = 0 /\
  mouseY (updatePointerPosition 0 600 p) = -300.
Proof. repeat split; vm_compute; reflexivity. Qed.

(** C8.  On an 800 by 600 canvas a pointer event at client (400, 300)
    leaves the pointer state at (0, 0). *)
Theorem updatePointerPosition_center (p : Page) :
  canvas_width p = 800%N -> canvas_height p = 600%N ->
  mouseX (updatePointerPosition 400 300 p) = 0 /\
  mouseY (updatePointerPosition 400 300 p) = 0.
Proof.
  intros Hw Hh. unfold updatePointerPosition, with_pointer. simpl.
  rewrite Hw, Hh. split; vm_compute; reflexivity.
Qed.

Lemma updatePointerPosition_center_witness :
  mouseX (updatePointerPosition 400 300 (Sample.page 800 600)) = 0 /\
  mouseY (updatePointerPosition 400 300 (Sample.page 800 600)) = 0.
Proof.
  apply (updatePointerPosition_center (Sample.page 800 600)); reflexivity.
Defined.

End Pointer.

(** ** Fuel *)

Section Fuel.

Import Script.

Lemma for_lt_fuel_mono {A : Type} (body body' : number -> A -> option A)
    (bound : number) (fuel : nat) :
  (forall i a r, body i a = Some r -> body' i a = Some r) ->
  forall (fuel' : nat) (i : number) (a r : A),
    (fuel <= fuel')%nat ->
    for_lt fuel i bound body a = Some r -> for_lt fuel' i bound body' a = Some r.
Proof.
  intros Hbody. induction fuel as [|fuel IH]; intros fuel' i a r Hle H;
    [discriminate|].
  destruct fuel' as [|fuel']; [lia|]. simpl in *.
  destruct (i < bound)%num; [|exact H].
  destruct (body i a) as [a'|] eqn:Ha; [|discriminate].
  rewrite (Hbody _ _ _ Ha). apply IH; [lia|exact H].
Qed.

(** More fuel does not change the array. *)
Lemma positions_fuel_mono (fuel fuel' : nat) (p : Page) (l : list number) :
  (fuel <= fuel')%nat -> positions fuel p = Some l -> positions fuel' p = Some l.
Proof.
  intros Hle. unfold positions. apply for_lt_fuel_mono; [|exact Hle].
  intros y a r. apply for_lt_fuel_mono; [|exact Hle]. auto.
Qed.

(** The array depends on the page through the canvas size only. *)
Lemma positions_canvas (fuel : nat) (p p' : Page) :
  canvas_width p' = canvas_width p -> canvas_height p' = canvas_height p ->
  positions fuel p' = positions fuel p.
Proof.
  intros Hw Hh. unfold positions, cols, rows, step. rewrite Hw, Hh. reflexivity.
Qed.

End Fuel.

(** ** The grid for an 800 by 600 canvas (C2) *)

Section Grid800x600.

Import Script.
Local Open Scope num_scope.

Lemma positions_800_600_length (p : Page) :
  canvas_width p = 800%N -> canvas_height p = 600%N ->
  (fun l => Z.of_nat (length l)) <$> positions 70 p = Some 7176%Z.
Proof.
  intros Hw Hh. unfold positions, cols, rows, step. rewrite Hw, Hh.
  vm_compute. reflexivity.
Qed.

(** C2 as stated fails: on an 800 by 600 canvas [cols] is 69, so no run of
    [rebuildGrid] has 70 columns or emits 3640 points. *)
Lemma rebuildGrid_800_600_not_3640 :
  ~ (step (Sample.page 800 600) = 800 / 69 /\
     cols (Sample.page 800 600) = 70 /\
     rows (Sample.page 800 600) = 52 /\
     exists fuel g,
       rebuildGrid fuel (Sample.page 800 600) Sample.gl_state = Some g /\
       vertexCount g = Some 3640).
Proof. intros (_ & Hcols & _). vm_compute in Hcols. discriminate. Qed.

(** C2, amended.  On an 800 by 600 canvas with GRID_SIZE = 70,
    [rebuildGrid] uses step = 800/69, which divides the width into exactly
    69 columns; with 52 rows it emits 69 * 52 = 3588 points (7176
    coordinates), given the 70 units of fuel its longer loop needs. *)
Theorem rebuildGrid_800_600 (p : Page) (g : GL) (fuel : nat) :
  canvas_width p = 800%N -> canvas_height p = 600%N -> (70 <= fuel)%nat ->
  step p = 800 / 69 /\ cols p = 69 /\ rows p = 52 /\
  exists g',
    rebuildGrid fuel p g = Some g' /\
    vertexCount g' = Some 3588 /\
    Z.of_nat (length (positionBuffer g')) = 7176%Z.
Proof.
  intros Hw Hh Hfuel.
  pose proof (positions_800_600_length p Hw Hh) as Hlen.
  unfold cols, rows, step. rewrite Hw, Hh.
  split; [vm_compute; reflexivity|].
  split; [vm_compute; reflexivity|].
  split; [vm_compute; reflexivity|].
  unfold rebuildGrid.
  destruct (positions 70 p) as [l|] eqn:Hl; [|discriminate].
  rewrite (positions_fuel_mono 70 fuel p l Hfuel Hl).
  injection Hlen as Hlen.
  eexists. split; [reflexivity|]. simpl. split.
  - replace (length l) with (Z.to_nat 7176) by lia. vm_compute. reflexivity.
  - unfold Float32Array.from. rewrite length_fmap. exact Hlen.
Qed.

Lemma rebuildGrid_800_600_witness :
  step (Sample.page 800 600) = 800 / 69 /\
  cols (Sample.page 800 600) = 69 /\ rows (Sample.page 800 600) = 52 /\
  exists g',
    rebuildGrid 100 (Sample.page 800 600) Sample.gl_state = Some g' /\
    vertexCount g' = Some 3588 /\
    Z.of_nat (length (positionBuffer g')) = 7176%Z.
Proof.
  apply (rebuildGrid_800_600 (Sample.page 800 600) Sample.gl_state 100);
    try reflexivity. lia.
Defined.

End Grid800x600.

(** ** Clones share no storage (C6) *)

Section Clone.

Import Script.

Lemma set_lookup_ne (this o : loc) m11 m12 m13 m21 m22 m23 m31 m32 m33 (h : heap) :
  o <> this ->
  Matrix3.set this m11 m12 m13 m21 m22 m23 m31 m32 m33 h !! o = h !! o.
Proof. intros Hne. unfold Matrix3.set. apply lookup_alter_ne. congruence. Qed.

Lemma foldl_alter_lookup_ne {I : Type} (f : heap -> I -> list number -> list number)
    (this o : loc) (l : list I) (h : heap) :
  o <> this ->
  foldl (fun h i => alter (f h i) this h) h l !! o = h !! o.
Proof.
  intros Hne. revert h. induction l as [|i l IH]; intros h; simpl; [reflexivity|].
  rewrite IH. apply lookup_alter_ne. congruence.
Qed.

Lemma invoke_lookup_ne cos sin (this o : loc) (c : call) (h : heap) :
  o <> this -> invoke cos sin this c h !! o = h !! o.
Proof.
  intros Hne. destruct c; simpl;
    unfold Matrix3.makeIdentity, Matrix3.makeScale, Matrix3.makeRotation,
      Matrix3.makeTranslation, Matrix3.makeOrthographic, Matrix3.multiplyMatrix;
    try (apply set_lookup_ne; exact Hne).
  - unfold Matrix3.multiplyScalar.
    apply (foldl_alter_lookup_ne
             (fun _ i e => Float32Array.store e i (e.[i] * s)%num)). exact Hne.
  - unfold Matrix3.copy.
    apply (foldl_alter_lookup_ne
             (fun h i e => Float32Array.store e i (Matrix3.elements h m).[i])).
    exact Hne.
Qed.

Lemma invoke_all_lookup_ne cos sin (this o : loc) (cs : list call) (h : heap) :
  o <> this ->
  foldl (fun h c => invoke cos sin this c h) h cs !! o = h !! o.
Proof.
  intros Hne. revert h. induction cs as [|c cs IH]; intros h; simpl; [reflexivity|].
  rewrite IH. apply invoke_lookup_ne. exact Hne.
Qed.

Lemma new_fresh (h : heap) : h !! (Matrix3.new h).1 = None.
Proof. unfold Matrix3.new. simpl. apply not_elem_of_dom, is_fresh. Qed.

Lemma new_lookup_ne (h : heap) (o : loc) :
  o <> (Matrix3.new h).1 -> (Matrix3.new h).2 !! o = h !! o.
Proof.
  unfold Matrix3.new. simpl. intros Hne.
  unfold Matrix3.makeIdentity. rewrite set_lookup_ne by exact Hne.
  apply lookup_insert_ne. congruence.
Qed.

Lemma new_lookup (h : heap) :
  (Matrix3.new h).2 !! (Matrix3.new h).1
    = Some [1; 0; 0; 0; 1; 0; 0; 0; 1]%num.
Proof.
  unfold Matrix3.new. simpl. unfold Matrix3.makeIdentity, Matrix3.set.
  rewrite lookup_alter_eq, lookup_insert_eq. reflexivity.
Qed.

Lemma allocated_ne_fresh (h : heap) (o : loc) (a : list number) :
  h !! o = Some a -> o <> (Matrix3.new h).1.
Proof. intros Ho Heq. rewrite Heq, new_fresh in Ho. discriminate. Qed.

Lemma clone_unfold (this : loc) (h : heap) :
  Matrix3.clone this h
  = ((Matrix3.new h).1,
     foldl (fun h' i => alter (fun e => Float32Array.store e i (Matrix3.elements h' this).[i])
                          (Matrix3.new h).1 h')
       (Matrix3.new h).2 (seq 0 9)).
Proof. unfold Matrix3.clone. destruct (Matrix3.new h). reflexivity. Qed.

Lemma clone_loc (this : loc) (h : heap) :
  (Matrix3.clone this h).1 = (Matrix3.new h).1.
Proof. rewrite clone_unfold. reflexivity. Qed.

Lemma clone_lookup_ne (this o : loc) (h : heap) :
  o <> (Matrix3.clone this h).1 -> (Matrix3.clone this h).2 !! o = h !! o.
Proof.
  rewrite clone_unfold. unfold fst at 1, snd at 1. intros Hne.
  etrans; [|apply new_lookup_ne; exact Hne].
  apply (foldl_alter_lookup_ne
           (fun h i e => Float32Array.store e i (Matrix3.elements h this).[i])).
  exact Hne.
Qed.

(** Copying the nine cells of [a] over an array [b] held at another
    address. *)
Lemma foldl_copy_lookup (src dst : loc) (a : list number) (l : list nat) :
  src <> dst ->
  forall (h : heap) (b : list number),
    h !! src = Some a -> h !! dst = Some b ->
    foldl (fun h i => alter (fun e => Float32Array.store e i (Matrix3.elements h src).[i]) dst h) h l
      !! dst
    = Some (foldl (fun e i => Float32Array.store e i a.[i]) b l).
Proof.
  intros Hne. induction l as [|i l IH]; intros h b Hsrc Hdst; simpl; [exact Hdst|].
  apply IH.
  - rewrite lookup_alter_ne by congruence. exact Hsrc.
  - rewrite lookup_alter_eq, Hdst. simpl.
    unfold Matrix3.elements. rewrite Hsrc. reflexivity.
Qed.

Lemma clone_lookup (this : loc) (h : heap) (a : list number) :
  h !! this = Some a -> matrix_array a ->
  (Matrix3.clone this h).2 !! (Matrix3.clone this h).1 = Some a.
Proof.
  intros Hthis [Hlen Hf32].
  pose proof (allocated_ne_fresh h this a Hthis) as Hne.
  rewrite clone_unfold. unfold fst at 1, snd at 1.
  rewrite (foldl_copy_lookup this _ a (seq 0 9) Hne _ _
             (eq_trans (new_lookup_ne h this Hne) Hthis) (new_lookup h)).
  do 10 (destruct a as [|? a]; try discriminate Hlen).
  repeat match goal with
         | H : Forall _ (_ :: _) |- _ => apply Forall_cons in H; destruct H as [? H]
         end.
  simpl. unfold Float32Array.store, Float32Array.load. simpl.
  repeat match goal with H : fround _ = _ |- _ => rewrite H; clear H end.
  reflexivity.
Qed.

Lemma updateAndRender_keeps_pMatrix (now : number) (p : Page) (g : GL)
    (pm : loc) (a : list number) :
  pMatrix p = Some pm -> mem p !! pm = Some a ->
  exists p' g',
    updateAndRender now p g = Returns (p', g') /\
    pMatrix p' = Some pm /\ mem p' !! pm = Some a.
Proof.
  intros Hpm Ha. unfold updateAndRender. rewrite Hpm.
  pose proof (allocated_ne_fresh _ _ _ Ha) as Hne1.
  pose proof (new_lookup_ne (mem p) pm Hne1) as Hnew.
  destruct (Matrix3.new (mem p)) as [mMatrix h1]. cbn [fst snd] in Hne1, Hnew.
  assert (Hh2 : Matrix3.makeTranslation mMatrix 0%num 0%num h1 !! pm = Some a).
  { unfold Matrix3.makeTranslation. rewrite set_lookup_ne by exact Hne1.
    rewrite Hnew. exact Ha. }
  pose proof (allocated_ne_fresh _ _ _ Hh2) as Hne2.
  rewrite <- (clone_loc pm) in Hne2.
  pose proof (clone_lookup_ne pm pm _ Hne2) as Hclone.
  destruct (Matrix3.clone pm (Matrix3.makeTranslation mMatrix 0%num 0%num h1))
    as [mpMatrix h3].
  cbn [fst snd] in Hne2, Hclone.
  eexists _, _. split; [reflexivity|]. cbn [pMatrix mem with_matrices].
  split; [reflexivity|].
  unfold Matrix3.multiplyMatrix. rewrite set_lookup_ne by exact Hne2.
  rewrite Hclone. exact Hh2.
Qed.

(** C6.  The clone [B] of a matrix [A] is a different object holding the
    same nine elements, and no sequence of mutating calls on [B]
    (construction methods, [multiplyMatrix], [multiplyScalar], [set],
    [copy], with any arguments, [A] included) changes an element of [A].
    In particular a frame, which multiplies [pMatrix.clone()] by the model
    matrix, returns with the stored projection matrix as it was. *)
Theorem clone_shares_no_storage (Math_cos Math_sin : number -> number)
    (h : heap) (A : loc) (a : list number) :
  h !! A = Some a -> matrix_array a ->
  let B := (Matrix3.clone A h).1 in
  let h1 := (Matrix3.clone A h).2 in
  B <> A /\ h1 !! B = Some a /\ h1 !! A = Some a /\
  (forall cs : list call,
     foldl (fun h c => invoke Math_cos Math_sin B c h) h1 cs !! A = Some a) /\
  (forall (now : number) (p : Page) (g : GL),
     pMatrix p = Some A -> mem p = h ->
     exists p' g',
       updateAndRender now p g = Returns (p', g') /\
       pMatrix p' = Some A /\ mem p' !! A = Some a).
Proof.
  intros HA Hwf B h1.
  assert (Hne : A <> B).
  { unfold B. rewrite clone_loc. eapply allocated_ne_fresh. exact HA. }
  assert (HA1 : h1 !! A = Some a).
  { unfold h1. rewrite clone_lookup_ne by exact Hne. exact HA. }
  split; [congruence|].
  split; [apply clone_lookup; assumption|].
  split; [exact HA1|].
  split.
  - intros cs. rewrite invoke_all_lookup_ne by exact Hne. exact HA1.
  - intros now p g Hpm Hmem. apply updateAndRender_keeps_pMatrix; [exact Hpm|].
    rewrite Hmem. exact HA.
Qed.

Lemma identity_is_matrix_array : matrix_array [1; 0; 0; 0; 1; 0; 0; 0; 1]%num.
Proof. split; [reflexivity|]. repeat constructor. Qed.

Lemma clone_shares_no_storage_witness :
  let h := (Matrix3.new ∅).2 in
  let B := (Matrix3.clone 1%positive h).1 in
  let h1 := (Matrix3.clone 1%positive h).2 in
  B <> 1%positive /\
  foldl (fun h c => invoke (fun _ => 1%num) (fun _ => 0%num) B c h) h1
    [call_makeScale 2%num 3%num; call_multiplyScalar 5%num; call_multiplyMatrix 1%positive]
    !! 1%positive
  = Some [1; 0; 0; 0; 1; 0; 0; 0; 1]%num.
Proof.
  pose proof (clone_shares_no_storage (fun _ => 1%num) (fun _ => 0%num)
                (Matrix3.new ∅).2 1%positive [1; 0; 0; 0; 1; 0; 0; 0; 1]%num
                (new_lookup ∅) identity_is_matrix_array) as (Hne & _ & _ & Hcalls & _).
  split; [exact Hne|]. apply Hcalls.
Defined.

End Clone.

(** ** Composition with the identity (C5) *)

Section MulOne.
Local Open Scope Z_scope.

Lemma shr_52_exact (m : positive) :
  SpecFloat.iter_pos shr_1 52
    {| shr_m := Zpos (4503599627370496 * m); shr_r := false; shr_s := false |}
  = {| shr_m := Zpos m; shr_r := false; shr_s := false |}.
Proof. reflexivity. Qed.

Lemma digits2_pos_shift_52 (m : positive) :
  Zpos (digits2_pos (4503599627370496 * m)) = Zpos (digits2_pos m) + 52.
Proof.
  change (4503599627370496 * m)%positive
    with (Pos.iter xO m 52%positive).
  simpl. rewrite !Pos2Z.inj_succ. lia.
Qed.

Lemma round_exact (s : bool) (m : positive) (e : Z) :
  bounded prec emax m e = true ->
  binary_round_aux prec emax s (Zpos (4503599627370496 * m)) (-52 + e) loc_Exact
  = S754_finite s m e.
Proof.
  unfold bounded, canonical_mantissa. intros Hb.
  apply andb_true_iff in Hb. destruct Hb as [Hcan Hmax].
  apply Z.eqb_eq in Hcan.
  unfold binary_round_aux.
  assert (H1 : shr_fexp prec emax (Zpos (4503599627370496 * m)) (-52 + e) loc_Exact
               = ({| shr_m := Zpos m; shr_r := false; shr_s := false |}, e)).
  { unfold shr_fexp. unfold Zdigits2. rewrite digits2_pos_shift_52.
    replace (Zpos (digits2_pos m) + 52 + (-52 + e)) with (Zpos (digits2_pos m) + e) by lia.
    rewrite Hcan. replace (e - (-52 + e)) with 52 by lia.
    unfold shr, shr_record_of_loc. rewrite shr_52_exact. f_equal. lia. }
  rewrite H1. cbn [shr_m loc_of_shr_record round_nearest_even].
  assert (H2 : shr_fexp prec emax (Zpos m) e loc_Exact
               = ({| shr_m := Zpos m; shr_r := false; shr_s := false |}, e)).
  { unfold shr_fexp. unfold Zdigits2. rewrite Hcan. rewrite Z.sub_diag. reflexivity. }
  rewrite H2. cbn [shr_m]. rewrite Hmax. reflexivity.
Qed.

End MulOne.

Lemma fmul_1_l (v : number) : binary64 v -> (1 * v)%num = v.
Proof.
  destruct v as [s|s| |s m e]; intros Hv; try reflexivity.
  unfold fmul, SFmul. apply (round_exact s m e Hv).
Qed.

Lemma fmul_1_r (v : number) : binary64 v -> (v * 1)%num = v.
Proof.
  destruct v as [s|s| |s m e]; intros Hv; simpl.
  - destruct s; reflexivity.
  - destruct s; reflexivity.
  - reflexivity.
  - unfold fmul, SFmul. cbn [literal]. rewrite Pos.mul_comm, Z.add_comm, xorb_false_r.
    apply (round_exact s m e Hv).
Qed.

Section Dot.
Local Open Scope num_scope.

Lemma same_feq (v w : number) : is_finite w = true -> same v w -> (v === w) = true.
Proof.
  intros Hw [->|[Hv Hz]].
  - destruct w as [s|s| |s m e]; try discriminate; [reflexivity|].
    unfold feq, SFeqb, SFcompare.
    rewrite Z.compare_refl, Pos.compare_cont_refl. destruct s; reflexivity.
  - destruct v, w; try discriminate. reflexivity.
Qed.

Lemma same_fround (v w : number) : fround w = w -> same v w -> same (fround v) w.
Proof.
  intros Hw [->|[Hv Hz]]; [left; exact Hw|].
  right. destruct v; try discriminate. split; [reflexivity|exact Hz].
Qed.

Lemma fmul_0_l (v : number) : is_finite v = true -> is_zero (0 * v) = true.
Proof. destruct v; try discriminate; reflexivity. Qed.

Lemma fmul_0_r (v : number) : is_finite v = true -> is_zero (v * 0) = true.
Proof. destruct v; try discriminate; reflexivity. Qed.

Lemma fadd_zero_zero (v w : number) :
  is_zero v = true -> is_zero w = true -> is_zero (v + w) = true.
Proof.
  destruct v as [[]| | |], w as [[]| | |]; try discriminate; reflexivity.
Qed.

Lemma fadd_zero_r (v z w : number) :
  is_finite w = true -> same v w -> is_zero z = true -> same (v + z) w.
Proof.
  intros Hw [->|[Hv Hz]] Hzero.
  - destruct z as [sz| | |]; try discriminate.
    destruct w as [[]| | |]; try discriminate;
      solve [left; reflexivity | right; destruct sz; split; reflexivity].
  - right. split; [apply fadd_zero_zero; assumption|exact Hz].
Qed.

Lemma fadd_zero_l (z v w : number) :
  is_finite w = true -> is_zero z = true -> same v w -> same (z + v) w.
Proof.
  intros Hw Hzero [->|[Hv Hz]].
  - destruct z as [sz| | |]; try discriminate.
    destruct w as [[]| | |]; try discriminate;
      solve [left; reflexivity | right; destruct sz; split; reflexivity].
  - right. split; [apply fadd_zero_zero; assumption|exact Hz].
Qed.

Lemma same_refl (v : number) : same v v.
Proof. left. reflexivity. Qed.

(** The rows of the identity against a column of finite values. *)
Lemma dot_100_l (u v w : number) :
  finite64 u -> finite64 v -> finite64 w -> same (1 * u + 0 * v + 0 * w) u.
Proof.
  intros [Hu Hu64] [Hv _] [Hw _]. rewrite fmul_1_l by exact Hu64.
  apply fadd_zero_r; [exact Hu| |apply fmul_0_l; exact Hw].
  apply fadd_zero_r; [exact Hu|apply same_refl|apply fmul_0_l; exact Hv].
Qed.

Lemma dot_010_l (u v w : number) :
  finite64 u -> finite64 v -> finite64 w -> same (0 * u + 1 * v + 0 * w) v.
Proof.
  intros [Hu _] [Hv Hv64] [Hw _]. rewrite fmul_1_l by exact Hv64.
  apply fadd_zero_r; [exact Hv| |apply fmul_0_l; exact Hw].
  apply fadd_zero_l; [exact Hv|apply fmul_0_l; exact Hu|apply same_refl].
Qed.

Lemma dot_001_l (u v w : number) :
  finite64 u -> finite64 v -> finite64 w -> same (0 * u + 0 * v + 1 * w) w.
Proof.
  intros [Hu _] [Hv _] [Hw Hw64]. rewrite fmul_1_l by exact Hw64.
  apply fadd_zero_l; [exact Hw| |apply same_refl].
  apply fadd_zero_zero; apply fmul_0_l; assumption.
Qed.

(** A row of finite values against the columns of the identity. *)
Lemma dot_100_r (u v w : number) :
  finite64 u -> finite64 v -> finite64 w -> same (u * 1 + v * 0 + w * 0) u.
Proof.
  intros [Hu Hu64] [Hv _] [Hw _]. rewrite fmul_1_r by exact Hu64.
  apply fadd_zero_r; [exact Hu| |apply fmul_0_r; exact Hw].
  apply fadd_zero_r; [exact Hu|apply same_refl|apply fmul_0_r; exact Hv].
Qed.

Lemma dot_010_r (u v w : number) :
  finite64 u -> finite64 v -> finite64 w -> same (u * 0 + v * 1 + w * 0) v.
Proof.
  intros [Hu _] [Hv Hv64] [Hw _]. rewrite fmul_1_r by exact Hv64.
  apply fadd_zero_r; [exact Hv| |apply fmul_0_r; exact Hw].
  apply fadd_zero_l; [exact Hv|apply fmul_0_r; exact Hu|apply same_refl].
Qed.

Lemma dot_001_r (u v w : number) :
  finite64 u -> finite64 v -> finite64 w -> same (u * 0 + v * 0 + w * 1) w.
Proof.
  intros [Hu _] [Hv _] [Hw Hw64]. rewrite fmul_1_r by exact Hw64.
  apply fadd_zero_l; [exact Hw| |apply same_refl].
  apply fadd_zero_zero; apply fmul_0_r; assumption.
Qed.

End Dot.

Section Identity.
Local Open Scope num_scope.

Lemma set_elements (this : loc) m11 m12 m13 m21 m22 m23 m31 m32 m33
    (h : heap) (e : list number) :
  h !! this = Some e -> length e = 9%nat ->
  Matrix3.elements (Matrix3.set this m11 m12 m13 m21 m22 m23 m31 m32 m33 h) this
  = [fround m11; fround m21; fround m31;
     fround m12; fround m22; fround m32;
     fround m13; fround m23; fround m33].
Proof.
  intros He Hlen. unfold Matrix3.elements, Matrix3.set.
  rewrite lookup_alter_eq, He.
  do 10 (destruct e as [|? e]; try discriminate Hlen).
  reflexivity.
Qed.

Ltac nine a Hlen Hfin :=
  do 10 (destruct a as [|? a]; try discriminate Hlen);
  repeat match goal with
         | H : Forall _ (_ :: _) |- _ =>
             apply Forall_cons in H; destruct H as [[? ?] H]
         end.

Ltac entry lemma :=
  apply same_feq; [match goal with H : finite64 ?v |- is_finite ?v = true => apply H end|];
  apply same_fround; [assumption|];
  apply lemma; assumption.

(** C5, amended.  For every matrix M whose nine elements are finite,
    [identity.multiplyMatrix(M)] leaves in the identity object elements that
    compare equal ([===]) to those of M, and [M.multiplyMatrix(identity)]
    leaves in M elements that compare equal to those it had. *)
Theorem multiplyMatrix_identity (h : heap) (this m : loc) (a : list number) :
  length a = 9%nat -> Forall finite32 a ->
  (h !! this = Some identity_elements -> h !! m = Some a ->
   Forall2 (fun r v => (r === v) = true)
     (Matrix3.elements (Matrix3.multiplyMatrix this m h) this) a) /\
  (h !! this = Some a -> h !! m = Some identity_elements ->
   Forall2 (fun r v => (r === v) = true)
     (Matrix3.elements (Matrix3.multiplyMatrix this m h) this) a).
Proof.
  intros Hlen Hfin. split; intros Hthis Hm; unfold Matrix3.multiplyMatrix.
  - rewrite (set_elements _ _ _ _ _ _ _ _ _ _ _ _ Hthis eq_refl).
    unfold Matrix3.elements. rewrite Hthis, Hm.
    nine a Hlen Hfin.
    cbn [default from_option id identity_elements Float32Array.load nth].
    repeat constructor;
      first [entry dot_100_l | entry dot_010_l | entry dot_001_l].
  - rewrite (set_elements _ _ _ _ _ _ _ _ _ _ _ _ Hthis Hlen).
    unfold Matrix3.elements. rewrite Hthis, Hm.
    nine a Hlen Hfin.
    cbn [default from_option id identity_elements Float32Array.load nth].
    repeat constructor;
      first [entry dot_100_r | entry dot_010_r | entry dot_001_r].
Qed.

End Identity.

Section IdentityExamples.
Local Open Scope num_scope.

Lemma scale_2_3_finite32 : Forall finite32 [2; 0; 0; 0; 3; 0; 0; 0; 1].
Proof. repeat constructor. Qed.

Lemma multiplyMatrix_identity_witness :
  Forall2 (fun r v => (r === v) = true)
    (Matrix3.elements
       (Matrix3.multiplyMatrix 1%positive 2%positive (identity_and_scale 2 3))
       1%positive)
    [2; 0; 0; 0; 3; 0; 0; 0; 1] /\
  Forall2 (fun r v => (r === v) = true)
    (Matrix3.elements
       (Matrix3.multiplyMatrix 2%positive 1%positive (identity_and_scale 2 3))
       2%positive)
    [2; 0; 0; 0; 3; 0; 0; 0; 1].
Proof.
  split.
  - exact (proj1 (multiplyMatrix_identity (identity_and_scale 2 3)
                    1%positive 2%positive [2; 0; 0; 0; 3; 0; 0; 0; 1]
                    eq_refl scale_2_3_finite32) eq_refl eq_refl).
  - exact (proj2 (multiplyMatrix_identity (identity_and_scale 2 3)
                    2%positive 1%positive [2; 0; 0; 0; 3; 0; 0; 0; 1]
                    eq_refl scale_2_3_finite32) eq_refl eq_refl).
Defined.

(** C5 as stated fails on a matrix with an infinite element: composing the
    identity with [makeScale(Infinity, 1)] on either side turns two zeros
    into NaN, since 0 * Infinity is NaN. *)
Lemma multiplyMatrix_identity_infinity :
  let h := identity_and_scale (1 / 0) 1 in
  let M := [Infinity; 0; 0; 0; 1; 0; 0; 0; 1] in
  Matrix3.elements h 1%positive = identity_elements /\
  Matrix3.elements h 2%positive = M /\
  Matrix3.elements (Matrix3.multiplyMatrix 1%positive 2%positive h) 1%positive
    = [Infinity; NaN; NaN; 0; 1; 0; 0; 0; 1] /\
  Matrix3.elements (Matrix3.multiplyMatrix 2%positive 1%positive h) 2%positive
    = [Infinity; 0; 0; NaN; 1; 0; NaN; 0; 1] /\
  Matrix3.elements (Matrix3.multiplyMatrix 1%positive 2%positive h) 1%positive <> M /\
  Matrix3.elements (Matrix3.multiplyMatrix 2%positive 1%positive h) 2%positive <> M.
Proof.
  cbv zeta. repeat split; try (vm_compute; reflexivity); vm_compute; discriminate.
Qed.

(** A zero may change sign: the identity times [makeScale(-0, 1)] holds +0
    where the factor holds -0, which [===] does not tell apart. *)
Lemma multiplyMatrix_identity_negative_zero :
  let h := identity_and_scale (- 0) 1 in
  Matrix3.elements h 2%positive = [- 0; 0; 0; 0; 1; 0; 0; 0; 1] /\
  Matrix3.elements (Matrix3.multiplyMatrix 1%positive 2%positive h) 1%positive
    = [0; 0; 0; 0; 1; 0; 0; 0; 1] /\
  ((0 : number) === - 0) = true.
Proof. cbv zeta. repeat split; vm_compute; reflexivity. Qed.

End IdentityExamples.

(** ** The grid loops finish, and rebuild the same grid (C7) *)

Section Digits.
Local Open Scope Z_scope.

Lemma digits2_pos_size (p : positive) : digits2_pos p = Pos.size p.
Proof. induction p; simpl; congruence. Qed.

Lemma digits_log2 (p : positive) : Zpos (digits2_pos p) = Z.log2 (Zpos p) + 1.
Proof.
  rewrite digits2_pos_size. destruct p; simpl; try rewrite Pos.add_1_r; lia.
Qed.

Lemma digits_bounds (p : positive) :
  2 ^ (Zpos (digits2_pos p) - 1) <= Zpos p < 2 ^ Zpos (digits2_pos p).
Proof.
  rewrite digits_log2. pose proof (Z.log2_spec (Zpos p) eq_refl) as H.
  replace (Z.log2 (Zpos p) + 1 - 1) with (Z.log2 (Zpos p)) by lia.
  replace (Z.log2 (Zpos p) + 1) with (Z.succ (Z.log2 (Zpos p))) by lia.
  exact H.
Qed.

Lemma digits_unique (p : positive) (d : Z) :
  2 ^ (d - 1) <= Zpos p < 2 ^ d -> Zpos (digits2_pos p) = d.
Proof.
  intros H. rewrite digits_log2.
  assert (Z.log2 (Zpos p) = d - 1); [|lia].
  apply Z.log2_unique.
  - destruct (Z.le_gt_cases 1 d) as [|Hd]; [lia|].
    replace (2 ^ d) with 0 in H; [lia|].
    destruct d; try lia. reflexivity.
  - replace (Z.succ (d - 1)) with d by lia. exact H.
Qed.

Lemma digits_iter_xO (p d : positive) :
  Zpos (digits2_pos (Pos.iter xO p d)) = Zpos (digits2_pos p) + Zpos d.
Proof.
  induction d as [|d IH] using Pos.peano_ind.
  - simpl. lia.
  - rewrite Pos.iter_succ. simpl digits2_pos. lia.
Qed.

(** Rounding a value that already fits returns it. *)
Lemma round_fits (s : bool) (m : positive) (e : Z) :
  bounded prec emax m e = true ->
  binary_round_aux prec emax s (Zpos m) e loc_Exact = S754_finite s m e.
Proof.
  unfold bounded, canonical_mantissa. intros Hb.
  apply andb_true_iff in Hb. destruct Hb as [Hcan Hmax].
  apply Z.eqb_eq in Hcan.
  assert (H2 : shr_fexp prec emax (Zpos m) e loc_Exact
               = ({| shr_m := Zpos m; shr_r := false; shr_s := false |}, e)).
  { unfold shr_fexp, Zdigits2. rewrite Hcan, Z.sub_diag. reflexivity. }
  unfold binary_round_aux. rewrite H2.
  cbn [shr_m loc_of_shr_record round_nearest_even]. rewrite H2.
  cbn [shr_m]. rewrite Hmax. reflexivity.
Qed.

Lemma bounded_normal (m : positive) (e : Z) :
  Zpos (digits2_pos m) = 53 -> -1074 <= e <= 971 -> bounded prec emax m e = true.
Proof.
  intros Hd He. unfold bounded, canonical_mantissa, fexp, emin, prec, emax.
  rewrite Hd. apply andb_true_iff. split; [apply Z.eqb_eq|apply Z.leb_le]; lia.
Qed.

(** The Number of a positive integer below 2^53 is normal, with the
    exponent that makes its mantissa 53 bits long. *)
Lemma of_Z_normal (w : positive) :
  Zpos w < 2 ^ 53 -> normal (of_Z (Zpos w)) (Zpos (digits2_pos w) - 53).
Proof.
  intros Hw. pose proof (digits_bounds w) as Hdw.
  assert (Hd : Zpos (digits2_pos w) <= 53).
  { destruct (Z.le_gt_cases (Zpos (digits2_pos w)) 53) as [|Hgt]; [assumption|].
    assert (2 ^ 53 <= 2 ^ (Zpos (digits2_pos w) - 1))
      by (apply Z.pow_le_mono_r; lia). lia. }
  unfold of_Z, binary_normalize, binary_round.
  unfold fexp, emin, prec, emax.
  rewrite Z.add_0_r.
  rewrite Z.max_l by lia.
  unfold shl_align. rewrite Z.sub_0_r.
  destruct (Zpos (digits2_pos w) - 53) as [|q|q] eqn:Hq; try lia.
  - exists w. split; [|lia].
    apply (round_fits false w 0). apply bounded_normal; lia.
  - exists (Pos.iter xO w q). 
    assert (Hdq : Zpos (digits2_pos (Pos.iter xO w q)) = 53)
      by (rewrite digits_iter_xO; lia).
    split; [|exact Hdq].
    apply (round_fits false (Pos.iter xO w q) (Zneg q)).
    apply bounded_normal; [exact Hdq|lia].
Qed.

End Digits.

Section Rounding.
Local Open Scope Z_scope.

Lemma round_nearest_even_cases (m : Z) (l : location) :
  round_nearest_even m l = m \/ round_nearest_even m l = m + 1.
Proof.
  destruct l as [|[]]; simpl; auto. destruct (Z.even m); auto.
Qed.

(** The second half of [binary_round_aux]: a 53-bit mantissa is rounded to
    the next integer at most, which has 53 bits again or is 2^53. *)
Lemma round_second_half (s : bool) (pm : positive) (e : Z) (l : location) :
  Zpos (digits2_pos pm) = 53 -> -1074 <= e <= 970 ->
  exists m e',
    (let '(mrs, e') := shr_fexp prec emax (round_nearest_even (Zpos pm) l) e loc_Exact in
     match shr_m mrs with
     | Z0 => S754_zero s
     | Zpos m => if e' <=? emax - prec then S754_finite s m e' else S754_infinity s
     | Zneg _ => S754_nan
     end) = S754_finite s m e' /\
    Zpos (digits2_pos m) = 53 /\ e <= e' <= e + 1.
Proof.
  intros Hd He. pose proof (digits_bounds pm) as Hb. rewrite Hd in Hb.
  change (2 ^ (53 - 1)) with 4503599627370496 in Hb.
  change (2 ^ 53) with 9007199254740992 in Hb.
  assert (Hr : round_nearest_even (Zpos pm) l = Zpos pm \/
               round_nearest_even (Zpos pm) l = Zpos pm + 1)
    by apply round_nearest_even_cases.
  assert (Hcases : (exists r, round_nearest_even (Zpos pm) l = Zpos r /\
                              Zpos (digits2_pos r) = 53) \/
                   round_nearest_even (Zpos pm) l = 9007199254740992).
  { destruct Hr as [Hr|Hr]; rewrite Hr.
    - left. exists pm. split; [reflexivity|exact Hd].
    - destruct (Z.eq_dec (Zpos pm + 1) 9007199254740992) as [Heq|Hneq];
        [right; exact Heq|left].
      exists (pm + 1)%positive. split; [lia|].
      apply digits_unique.
      change (2 ^ (53 - 1)) with 4503599627370496.
      change (2 ^ 53) with 9007199254740992. lia. }
  destruct Hcases as [(r & Hrr & Hdr)|Hrr]; rewrite Hrr.
  - exists r, e. unfold shr_fexp, Zdigits2, fexp, emin, prec, emax.
    rewrite Hdr. rewrite Z.max_l by lia.
    replace (53 + e - 53 - e) with 0 by lia.
    cbn [shr shr_record_of_loc shr_m].
    replace (e <=? 1024 - 53) with true by (symmetry; apply Z.leb_le; lia).
    split; [reflexivity|]. split; [reflexivity|lia].
  - exists 4503599627370496%positive, (e + 1).
    unfold shr_fexp, Zdigits2, fexp, emin, prec, emax.
    change (Zpos (digits2_pos 9007199254740992)) with 54.
    rewrite Z.max_l by lia.
    replace (54 + e - 53 - e) with 1 by lia.
    cbn [shr shr_record_of_loc shr_m SpecFloat.iter_pos shr_1 orb].
    replace (e + 1 <=? 1024 - 53) with true by (symmetry; apply Z.leb_le; lia).
    split; [reflexivity|]. split; [reflexivity|lia].
Qed.

Lemma shr_1_halves (p : positive) (r s : bool) :
  Zpos (digits2_pos p) = 54 ->
  exists q, shr_m (shr_1 {| shr_m := Zpos p; shr_r := r; shr_s := s |}) = Zpos q /\
            Zpos (digits2_pos q) = 53.
Proof.
  intros Hd. destruct p as [q|q|]; simpl in Hd; try lia;
    exists q; (split; [reflexivity|lia]).
Qed.

(** Rounding a mantissa of 53 or 54 bits gives a normal value whose exponent
    has grown by two at most. *)
Lemma round_wide (s : bool) (pq : positive) (e : Z) (l : location) :
  Zpos (digits2_pos pq) = 53 \/ Zpos (digits2_pos pq) = 54 ->
  -1074 <= e <= 969 ->
  exists m e',
    binary_round_aux prec emax s (Zpos pq) e l = S754_finite s m e' /\
    Zpos (digits2_pos m) = 53 /\ e <= e' <= e + 2.
Proof.
  intros [Hd|Hd] He; unfold binary_round_aux.
  - assert (H1 : shr_fexp prec emax (Zpos pq) e l
                 = (shr_record_of_loc (Zpos pq) l, e)).
    { unfold shr_fexp, Zdigits2, fexp, emin, prec, emax. rewrite Hd.
      rewrite Z.max_l by lia. replace (53 + e - 53 - e) with 0 by lia.
      reflexivity. }
    rewrite H1.
    assert (Hm : shr_m (shr_record_of_loc (Zpos pq) l) = Zpos pq)
      by (destruct l as [|[]]; reflexivity).
    rewrite Hm.
    destruct (round_second_half s pq e
                (loc_of_shr_record (shr_record_of_loc (Zpos pq) l)) Hd)
      as (m & e' & Heq & Hdm & He'); [lia|].
    exists m, e'. split; [exact Heq|]. split; [exact Hdm|lia].
  - assert (H1 : shr_fexp prec emax (Zpos pq) e l
                 = (shr_1 (shr_record_of_loc (Zpos pq) l), e + 1)).
    { unfold shr_fexp, Zdigits2, fexp, emin, prec, emax. rewrite Hd.
      rewrite Z.max_l by lia. replace (54 + e - 53 - e) with 1 by lia.
      reflexivity. }
    rewrite H1.
    assert (Hq : exists q, shr_m (shr_1 (shr_record_of_loc (Zpos pq) l)) = Zpos q /\
                           Zpos (digits2_pos q) = 53).
    { destruct l as [|[]]; apply shr_1_halves; exact Hd. }
    destruct Hq as (q & Hq & Hdq). rewrite Hq.
    destruct (round_second_half s q (e + 1)
                (loc_of_shr_record (shr_1 (shr_record_of_loc (Zpos pq) l))) Hdq)
      as (m & e' & Heq & Hdm & He'); [lia|].
    exists m, e'. split; [exact Heq|]. split; [exact Hdm|lia].
Qed.

End Rounding.

Section Division.
Local Open Scope Z_scope.

(** The quotient of two positive normal values is normal, and its exponent
    is the difference of theirs lowered by 51 to 53. *)
Lemma fdiv_normal (v w : number) (e1 e2 : Z) :
  normal v e1 -> normal w e2 -> -400 <= e1 <= 400 -> -400 <= e2 <= 400 ->
  exists e, normal (fdiv v w) e /\ e1 - e2 - 53 <= e <= e1 - e2 - 51.
Proof.
  intros (m1 & Hv & Hd1) (m2 & Hw & Hd2) He1 He2. subst v w.
  pose proof (digits_bounds m1) as Hb1. rewrite Hd1 in Hb1.
  pose proof (digits_bounds m2) as Hb2. rewrite Hd2 in Hb2.
  change (2 ^ (53 - 1)) with 4503599627370496 in Hb1, Hb2.
  change (2 ^ 53) with 9007199254740992 in Hb1, Hb2.
  unfold fdiv, SFdiv, SFdiv_core_binary, Zdigits2.
  rewrite Hd1, Hd2. unfold fexp, emin, prec, emax.
  rewrite Z.max_l by lia. rewrite Z.min_l by lia.
  replace (e1 - e2 - (53 + e1 - (53 + e2) - 53)) with 53 by lia.
  replace (53 + e1 - (53 + e2) - 53) with (e1 - e2 - 53) by lia.
  rewrite Z.shiftl_mul_pow2 by lia.
  change (2 ^ 53) with 9007199254740992.
  pose proof (Z_div_mod (Zpos m1 * 9007199254740992) (Zpos m2) eq_refl) as Hdiv.
  destruct (Z.div_eucl (Zpos m1 * 9007199254740992) (Zpos m2)) as [q r].
  destruct Hdiv as [Hdiv Hr].
  assert (Hq : 4503599627370496 <= q < 18014398509481984) by nia.
  destruct q as [|pq|pq]; try lia.
  assert (Hdq : Zpos (digits2_pos pq) = 53 \/ Zpos (digits2_pos pq) = 54).
  { destruct (Z.lt_ge_cases (Zpos pq) 9007199254740992) as [Hlt|Hge].
    - left. apply digits_unique.
      change (2 ^ (53 - 1)) with 4503599627370496.
      change (2 ^ 53) with 9007199254740992. lia.
    - right. apply digits_unique.
      change (2 ^ (54 - 1)) with 9007199254740992.
      change (2 ^ 54) with 18014398509481984. lia. }
  destruct (round_wide (xorb false false) pq (e1 - e2 - 53)
              (new_location (Zpos m2) r) Hdq)
    as (m & e & Heq & Hdm & He); [lia|].
  exists e. split; [|lia]. exists m. split; [exact Heq|exact Hdm].
Qed.

End Division.

Section GridBounds.
Import Script.
Local Open Scope Z_scope.

(** What a canvas dimension below 2^32 converts to. *)
Lemma of_N_cases (n : N) :
  (n < 2 ^ 32)%N ->
  (n = 0%N /\ of_N n = S754_zero false) \/
  (exists e, normal (of_N n) e /\ -52 <= e <= -21).
Proof.
  intros Hn. destruct n as [|w]; [left; split; reflexivity|right].
  assert (Hw : Zpos w < 2 ^ 32).
  { change (2 ^ 32) with (Z.of_N (2 ^ 32)%N). change (Zpos w) with (Z.of_N (Npos w)).
    lia. }
  exists (Zpos (digits2_pos w) - 53). split.
  - apply of_Z_normal. change (2 ^ 32) with 4294967296 in Hw.
    change (2 ^ 53) with 9007199254740992. lia.
  - pose proof (digits_bounds w) as Hb.
    assert (Zpos (digits2_pos w) - 1 < 32); [|lia].
    apply (Z.pow_lt_mono_r_iff 2); lia.
Qed.

Lemma normal_exponent (v : number) (e e' : Z) : normal v e -> normal v e' -> e = e'.
Proof. intros (m & -> & _) (m' & H & _). congruence. Qed.

(** [Math.max] of two dimensions is one of them, and its exponent is the
    larger of the two. *)
Lemma Math_max_normal (v w : number) (e1 e2 : Z) :
  normal v e1 -> normal w e2 ->
  exists e, normal (Math_max v w) e /\ e1 <= e /\ e2 <= e /\ (e = e1 \/ e = e2).
Proof.
  intros (m1 & -> & Hd1) (m2 & -> & Hd2). unfold Math_max, SFcompare.
  destruct (Z.compare_spec e1 e2) as [Heq|Hlt|Hgt].
  - destruct (Pos.compare_cont Eq m1 m2).
    + exists e1. split; [exists m1; auto|lia].
    + exists e2. split; [exists m2; auto|lia].
    + exists e1. split; [exists m1; auto|lia].
  - exists e2. split; [exists m2; auto|lia].
  - exists e1. split; [exists m1; auto|lia].
Qed.

Lemma Math_max_zero_l (w : number) (e : Z) :
  normal w e -> Math_max (S754_zero false) w = w.
Proof. intros (m & -> & _). reflexivity. Qed.

Lemma Math_max_zero_r (v : number) (e : Z) :
  normal v e -> Math_max v (S754_zero false) = v.
Proof. intros (m & -> & _). reflexivity. Qed.

Lemma grid_divisor_normal : normal (GRID_SIZE - 1)%num (-46).
Proof. eexists. split; [vm_compute; reflexivity|reflexivity]. Qed.

Lemma Math_ceil_small (v : number) (e : Z) :
  normal v e -> e <= -44 -> small_count (Math_ceil v).
Proof.
  intros (m & -> & Hd) He. right.
  pose proof (digits_bounds m) as Hb. rewrite Hd in Hb.
  change (2 ^ 53) with 9007199254740992 in Hb.
  exists (ceilZ (S754_finite false m e)). split.
  - unfold ceilZ, cond_Zopp.
    destruct (Z.leb_spec 0 e) as [|_]; [lia|].
    assert (Hpow : 2 ^ 44 <= 2 ^ (- e)) by (apply Z.pow_le_mono_r; lia).
    change (2 ^ 44) with 17592186044416 in Hpow.
    assert (Hdiv : - 512 <= - Zpos m / 2 ^ (- e) <= 0).
    { split.
      - apply Z.div_le_lower_bound; [lia|]. nia.
      - assert (- Zpos m / 2 ^ (- e) < 0); [|lia].
        apply Z.div_lt_upper_bound; lia. }
    lia.
  - unfold Math_ceil. destruct (Z.leb_spec 0 e) as [|_]; [lia|]. reflexivity.
Qed.

(** The three shapes of [step], [cols] and [rows] on a canvas whose sides
    are below 2^32. *)
Lemma cols_rows_small (p : Page) :
  (canvas_width p < 2 ^ 32)%N -> (canvas_height p < 2 ^ 32)%N ->
  small_count (cols p) /\ small_count (rows p).
Proof.
  intros Hw Hh. unfold cols, rows, step.
  destruct (of_N_cases _ Hw) as [[_ Hw0]|(ew & Hwn & Hew)];
    destruct (of_N_cases _ Hh) as [[_ Hh0]|(eh & Hhn & Heh)].
  - rewrite Hw0, Hh0. split; left; reflexivity.
  - rewrite Hw0. rewrite (Math_max_zero_l _ _ Hhn).
    destruct (fdiv_normal _ _ _ _ Hhn grid_divisor_normal) as (es & Hs & Hes);
      [lia|lia|].
    split.
    + destruct Hs as (ms & -> & _). right. exists 0. split; [lia|reflexivity].
    + destruct (fdiv_normal _ _ _ _ Hhn Hs) as (ec & Hc & Hec); [lia|lia|].
      apply (Math_ceil_small _ ec Hc). lia.
  - rewrite Hh0. rewrite (Math_max_zero_r _ _ Hwn).
    destruct (fdiv_normal _ _ _ _ Hwn grid_divisor_normal) as (es & Hs & Hes);
      [lia|lia|].
    split.
    + destruct (fdiv_normal _ _ _ _ Hwn Hs) as (ec & Hc & Hec); [lia|lia|].
      apply (Math_ceil_small _ ec Hc). lia.
    + destruct Hs as (ms & -> & _). right. exists 0. split; [lia|reflexivity].
  - destruct (Math_max_normal _ _ _ _ Hwn Hhn) as (eM & HM & HwM & HhM & HeM).
    destruct (fdiv_normal _ _ _ _ HM grid_divisor_normal) as (es & Hs & Hes);
      [lia|lia|].
    split.
    + destruct (fdiv_normal _ _ _ _ Hwn Hs) as (ec & Hc & Hec); [lia|lia|].
      apply (Math_ceil_small _ ec Hc). lia.
    + destruct (fdiv_normal _ _ _ _ Hhn Hs) as (ec & Hc & Hec); [lia|lia|].
      apply (Math_ceil_small _ ec Hc). lia.
Qed.

End GridBounds.

Section Loops.
Import Script.
Local Open Scope Z_scope.

Lemma number_eqb_eq (v w : number) : number_eqb v w = true -> v = w.
Proof.
  destruct v, w; simpl; try discriminate; intros H.
  - apply eqb_prop in H. congruence.
  - apply eqb_prop in H. congruence.
  - reflexivity.
  - apply andb_true_iff in H. destruct H as [H He].
    apply andb_true_iff in H. destruct H as [Hs Hm].
    apply eqb_prop in Hs. apply Pos.eqb_eq in Hm. apply Z.eqb_eq in He.
    congruence.
Qed.

Lemma counters_exact : forallb counter_exact counter_table = true.
Proof. vm_compute. reflexivity. Qed.

Lemma in_counter_table (k : Z) : 0 <= k <= 512 -> In (k, of_Z k) counter_table.
Proof.
  intros Hk. unfold counter_table. apply in_map_iff.
  exists (Z.to_nat k). rewrite Z2Nat.id by lia. split; [reflexivity|].
  apply in_seq. lia.
Qed.

Lemma counter_row (k : Z) : 0 <= k <= 512 -> counter_exact (k, of_Z k) = true.
Proof.
  intros Hk.
  exact (proj1 (forallb_forall counter_exact counter_table) counters_exact
           (k, of_Z k) (in_counter_table k Hk)).
Qed.

Lemma counter_succ (k : Z) : 0 <= k <= 512 -> (of_Z k + 1)%num = of_Z (k + 1).
Proof.
  intros Hk. pose proof (counter_row k Hk) as H.
  apply andb_true_iff in H. destruct H as [H _].
  apply number_eqb_eq in H. exact H.
Qed.

Lemma counter_lt (k n : Z) :
  0 <= k <= 512 -> 0 <= n <= 512 -> (of_Z k < of_Z n)%num = (k <? n).
Proof.
  intros Hk Hn. pose proof (counter_row k Hk) as H.
  apply andb_true_iff in H. destruct H as [_ H].
  pose proof (proj1 (forallb_forall (counter_lt_exact (k, of_Z k)) counter_table) H
                (n, of_Z n) (in_counter_table n Hn)) as Hlt.
  apply eqb_prop in Hlt. exact Hlt.
Qed.

(** A loop whose bound is the Number of [n <= 512] and whose counter stands
    at [k <= n] finishes within [n - k + 1] units of fuel. *)
Lemma for_lt_counts {A : Type} (body : number -> A -> option A) (d : nat) :
  (forall i a, is_Some (body i a)) ->
  forall (k n : Z) (fuel : nat) (a : A),
    0 <= k -> k + Z.of_nat d = n -> n <= 512 -> (d < fuel)%nat ->
    is_Some (for_lt fuel (of_Z k) (of_Z n) body a).
Proof.
  intros Hbody. induction d as [|d IH]; intros k n fuel a Hk Hd Hn Hfuel;
    (destruct fuel as [|fuel]; [lia|]); simpl.
  - rewrite counter_lt by lia. rewrite (proj2 (Z.ltb_ge k n)) by lia. eauto.
  - rewrite counter_lt by lia. rewrite (proj2 (Z.ltb_lt k n)) by lia.
    destruct (Hbody (of_Z k) a) as [a' Ha']. rewrite Ha'.
    rewrite counter_succ by lia. apply (IH (k + 1) n); lia.
Qed.

Lemma for_lt_small {A : Type} (body : number -> A -> option A)
    (bound : number) (fuel : nat) (a : A) :
  (forall i a, is_Some (body i a)) -> small_count bound -> (513 <= fuel)%nat ->
  is_Some (for_lt fuel 0%num bound body a).
Proof.
  intros Hbody [->|(n & Hn & ->)] Hfuel.
  - destruct fuel as [|fuel]; [lia|]. simpl. eauto.
  - apply (for_lt_counts body (Z.to_nat n) Hbody 0 n); lia.
Qed.

(** With 513 units of fuel both loops of [rebuildGrid] finish. *)
Lemma positions_total (fuel : nat) (p : Page) :
  (canvas_width p < 2 ^ 32)%N -> (canvas_height p < 2 ^ 32)%N ->
  (513 <= fuel)%nat -> is_Some (positions fuel p).
Proof.
  intros Hw Hh Hfuel. destruct (cols_rows_small p Hw Hh) as [Hc Hr].
  unfold positions. apply for_lt_small; [|exact Hr|exact Hfuel].
  intros y a. apply for_lt_small; [|exact Hc|exact Hfuel].
  intros x a'. eauto.
Qed.

(** C7.  On a canvas whose sides are below 2^32, [rebuildGrid] returns, and
    two calls at the same canvas width and height upload the same point
    sequence and vertex count, whatever else changed in between (pointer,
    matrices, GL state, fuel); calling it again on its own result changes
    nothing. *)
Theorem rebuildGrid_idempotent (p p' : Page) (g g' : GL) (fuel fuel' : nat) :
  (canvas_width p < 2 ^ 32)%N -> (canvas_height p < 2 ^ 32)%N ->
  canvas_width p' = canvas_width p -> canvas_height p' = canvas_height p ->
  (513 <= fuel)%nat -> (513 <= fuel')%nat ->
  exists g1 g2,
    rebuildGrid fuel p g = Some g1 /\
    rebuildGrid fuel' p' g' = Some g2 /\
    positionBuffer g2 = positionBuffer g1 /\
    vertexCount g2 = vertexCount g1 /\
    rebuildGrid fuel p g1 = Some g1.
Proof.
  intros Hw Hh Hw' Hh' Hfuel Hfuel'.
  destruct (positions_total 513 p Hw Hh (le_n _)) as [l Hl].
  pose proof (positions_fuel_mono 513 fuel p l Hfuel Hl) as H1.
  pose proof (positions_fuel_mono 513 fuel' p l Hfuel' Hl) as H2.
  rewrite <- (positions_canvas fuel' p p' Hw' Hh') in H2.
  unfold rebuildGrid. rewrite H1, H2.
  eexists _, _. repeat split; reflexivity.
Qed.

Lemma rebuildGrid_idempotent_witness :
  exists g1 g2,
    rebuildGrid 513 (Sample.page 4 2) Sample.gl_state = Some g1 /\
    rebuildGrid 600 (updatePointerPosition 1%num 1%num (Sample.page 4 2))
      (requestAnimationFrame Sample.gl_state) = Some g2 /\
    positionBuffer g2 = positionBuffer g1 /\
    vertexCount g2 = vertexCount g1 /\
    rebuildGrid 513 (Sample.page 4 2) g1 = Some g1.
Proof.
  apply (rebuildGrid_idempotent (Sample.page 4 2)
           (updatePointerPosition 1%num 1%num (Sample.page 4 2))
           Sample.gl_state (requestAnimationFrame Sample.gl_state) 513 600);
    try reflexivity; lia.
Defined.

End Loops.

(** ** Failure points (C9) *)

Section Failures.
Import Script.

Lemma reflected_small (default v : N) : (v < 2 ^ 31)%N -> reflected default v = v.
Proof.
  intros Hv. unfold reflected. cbv zeta.
  rewrite N.mod_small by (change (2 ^ 32)%N with 4294967296%N;
                          change (2 ^ 31)%N with 2147483648%N in Hv; lia).
  apply N.ltb_lt in Hv. rewrite Hv. reflexivity.
Qed.

Lemma reflected_bound (default v : N) :
  (default < 2 ^ 31)%N -> (reflected default v < 2 ^ 31)%N.
Proof.
  intros Hd. unfold reflected. cbv zeta.
  destruct (N.ltb_spec (v mod 2 ^ 32) (2 ^ 31)); assumption.
Qed.

Lemma resizeCanvas_canvas (p : Page) :
  canvas_width (resizeCanvas p) = reflected 300 (innerWidth p) /\
  canvas_height (resizeCanvas p) = reflected 150 (innerHeight p) /\
  console (resizeCanvas p) = console p /\
  pMatrix (resizeCanvas p) <> None.
Proof.
  unfold resizeCanvas. destruct (Matrix3.new _) as [m h].
  cbn [canvas_width canvas_height console pMatrix with_matrices with_canvas].
  repeat split. discriminate.
Qed.

(** The canvas never has a side of 2^31 or more. *)
Lemma resizeCanvas_bound (p : Page) :
  (canvas_width (resizeCanvas p) < 2 ^ 32)%N /\
  (canvas_height (resizeCanvas p) < 2 ^ 32)%N.
Proof.
  destruct (resizeCanvas_canvas p) as (-> & -> & _).
  pose proof (reflected_bound 300 (innerWidth p) eq_refl).
  pose proof (reflected_bound 150 (innerHeight p) eq_refl).
  change (2 ^ 31)%N with 2147483648%N in *.
  change (2 ^ 32)%N with 4294967296%N. lia.
Qed.

Lemma main_returns (pf : Platform) (p : Page) (fuel : nat) :
  webgl2 pf = true -> (513 <= fuel)%nat ->
  exists p' g,
    main pf fuel p = Returns (p', g) /\
    console p' = console p ++ diagnostics pf /\
    attached (program g)
      = [ {| shader_type := VERTEX_SHADER; shader_source := vertexShaderSource |};
          {| shader_type := FRAGMENT_SHADER; shader_source := fragmentShaderSource |} ] /\
    currentProgram g = Some (program g) /\
    pMatrix p' <> None.
Proof.
  intros Hgl Hfuel.
  destruct (resizeCanvas_canvas p) as (_ & _ & Hcon & Hpm).
  destruct (resizeCanvas_bound p) as (Hw & Hh).
  unfold main, getWebGL2Context. rewrite Hgl. cbn [negb].
  unfold createShader, createProgram, diagnostics. cbv beta iota zeta.
  set (vs := {| shader_type := VERTEX_SHADER; shader_source := vertexShaderSource |}).
  set (fs := {| shader_type := FRAGMENT_SHADER; shader_source := fragmentShaderSource |}).
  set (pr := {| attached := [vs; fs] |}).
  set (p1 := if negb (COMPILE_STATUS pf vs)
             then console_error (resizeCanvas p) (getShaderInfoLog pf vs)
             else resizeCanvas p).
  set (p2 := if negb (COMPILE_STATUS pf fs)
             then console_error p1 (getShaderInfoLog pf fs) else p1).
  set (p3 := if negb (LINK_STATUS pf pr)
             then console_error p2 (getProgramInfoLog pf pr) else p2).
  assert (H3 : canvas_width p3 = canvas_width (resizeCanvas p) /\
               canvas_height p3 = canvas_height (resizeCanvas p) /\
               console p3 = console p ++
                 (if COMPILE_STATUS pf vs then [] else [getShaderInfoLog pf vs]) ++
                 (if COMPILE_STATUS pf fs then [] else [getShaderInfoLog pf fs]) ++
                 (if LINK_STATUS pf pr then [] else [getProgramInfoLog pf pr]) /\
               pMatrix p3 <> None).
  { unfold p3, p2, p1.
    destruct (COMPILE_STATUS pf vs), (COMPILE_STATUS pf fs), (LINK_STATUS pf pr);
      cbn [negb console_error canvas_width canvas_height console pMatrix];
      rewrite ?Hcon, <- ?app_assoc, ?app_nil_r; auto. }
  destruct H3 as (Hw3 & Hh3 & Hc3 & Hpm3).
  unfold rebuildGrid.
  destruct (positions_total fuel p3) as [l Hl];
    [rewrite Hw3; exact Hw|rewrite Hh3; exact Hh|exact Hfuel|].
  rewrite Hl. eexists _, _. split; [reflexivity|].
  split; [exact Hc3|]. cbn [requestAnimationFrame with_buffer program currentProgram attached].
  auto.
Qed.

(** C9, amended.  The script has one throw and two logged checks.
    [getWebGL2Context] throws exactly when the canvas has no WebGL2
    context; [main] stops there with nothing written to the console.
    [createShader] and [createProgram] return their object whatever the
    status, writing the info log to the console when it is false, so
    [main] goes on and returns with the (possibly unusable) program in
    use.  With [gl] assigned no event handler throws, and neither does a
    frame once [pMatrix] is set, as it is when [main] has returned.  As
    long as [gl] is undefined the pointer and touch handlers return as
    well, but the resize handler raises a [TypeError] in [rebuildGrid],
    after [resizeCanvas] has run. *)
Theorem failure_points (pf : Platform) (p : Page) (g : GL) (fuel : nat) :
  (getWebGL2Context pf p = Throws "WebGL2 not supported." p <-> webgl2 pf = false) /\
  (getWebGL2Context pf p = Returns tt <-> webgl2 pf = true) /\
  (forall type source,
     let shader := {| shader_type := type; shader_source := source |} in
     createShader pf type source p
     = (shader,
        if COMPILE_STATUS pf shader then p
        else console_error p (getShaderInfoLog pf shader))) /\
  (forall vs fs,
     let program := {| attached := [vs; fs] |} in
     createProgram pf vs fs p
     = (program,
        if LINK_STATUS pf program then p
        else console_error p (getProgramInfoLog pf program))) /\
  (webgl2 pf = false ->
   main pf fuel p = Throws "WebGL2 not supported." (resizeCanvas p) /\
   console (resizeCanvas p) = console p) /\
  (webgl2 pf = true -> (513 <= fuel)%nat ->
   exists p' g',
     main pf fuel p = Returns (p', g') /\
     console p' = console p ++ diagnostics pf /\
     attached (program g')
       = [ {| shader_type := VERTEX_SHADER; shader_source := vertexShaderSource |};
           {| shader_type := FRAGMENT_SHADER; shader_source := fragmentShaderSource |} ] /\
     currentProgram g' = Some (program g') /\
     pMatrix p' <> None) /\
  (forall error p', main pf fuel p = Throws error p' ->
     webgl2 pf = false /\ error = "WebGL2 not supported."%string) /\
  (forall e error p', dispatch fuel e p (Some g) <> Throws error p') /\
  (forall e, (513 <= fuel)%nat ->
     exists p' g', dispatch fuel e p (Some g) = Returns (p', Some g')) /\
  (forall now, pMatrix p <> None ->
     exists p' g', updateAndRender now p g = Returns (p', g')) /\
  (forall e,
     match e with
     | resize width height =>
         (513 <= fuel)%nat ->
         dispatch fuel e p None
         = Throws "TypeError: gl is undefined"
             (resizeCanvas (with_window p width height))
     | _ => exists p', dispatch fuel e p None = Returns (p', None)
     end).
Proof.
  assert (Hpos : forall w h, (513 <= fuel)%nat ->
            is_Some (positions fuel (resizeCanvas (with_window p w h)))).
  { intros w h Hfuel.
    destruct (resizeCanvas_bound (with_window p w h)) as [Hw Hh].
    apply positions_total; assumption. }
  repeat split.
  - unfold getWebGL2Context. destruct (webgl2 pf); [discriminate|reflexivity].
  - intros H. unfold getWebGL2Context. rewrite H. reflexivity.
  - unfold getWebGL2Context. destruct (webgl2 pf); [reflexivity|discriminate].
  - intros H. unfold getWebGL2Context. rewrite H. reflexivity.
  - intros type source shader. unfold createShader. fold shader.
    destruct (COMPILE_STATUS pf shader); reflexivity.
  - intros vs fs program. unfold createProgram. fold program.
    destruct (LINK_STATUS pf program); reflexivity.
  - unfold main, getWebGL2Context. rewrite H. reflexivity.
  - apply main_returns.
  - unfold main, getWebGL2Context in H. destruct (webgl2 pf); [|reflexivity].
    cbn [negb] in H. unfold createShader, createProgram in H.
    cbv beta iota zeta in H.
    destruct (rebuildGrid _ _ _) in H; discriminate.
  - unfold main, getWebGL2Context in H. destruct (webgl2 pf).
    + cbn [negb] in H. unfold createShader, createProgram in H.
      cbv beta iota zeta in H.
      destruct (rebuildGrid _ _ _) in H; discriminate.
    + cbn [negb] in H. congruence.
  - intros e error p' H. destruct e; simpl in H; try discriminate.
    destruct (rebuildGrid _ _ _) in H; discriminate.
  - intros e Hfuel. destruct e as [cx cy|ts|ts|w h]; cbn [dispatch];
      try (eexists _, _; reflexivity).
    unfold rebuildGrid. destruct (Hpos w h Hfuel) as [l Hl].
    rewrite Hl. eexists _, _. reflexivity.
  - intros now Hpm. unfold updateAndRender.
    destruct (Matrix3.new (mem p)) as [mMatrix h1].
    destruct (pMatrix p) as [pm|]; [|contradiction].
    destruct (Matrix3.clone pm _) as [mpMatrix h3].
    eexists _, _. reflexivity.
  - intros e. destruct e as [cx cy|ts|ts|w h]; cbn [dispatch];
      try (eexists; reflexivity).
    intros Hfuel. destruct (Hpos w h Hfuel) as [l Hl]. rewrite Hl. reflexivity.
Qed.

(** C9 as stated fails on a platform without WebGL2: [main] throws with
    nothing on the console, and a resize of the window then raises a
    [TypeError]. *)
Lemma failure_points_resize_throws :
  main Sample.no_webgl2 513 (Sample.page 4 2)
  = Throws "WebGL2 not supported." (resizeCanvas (Sample.page 4 2)) /\
  console (resizeCanvas (Sample.page 4 2)) = [] /\
  dispatch 513 (resize 6 2) (resizeCanvas (Sample.page 4 2)) None
  = Throws "TypeError: gl is undefined"
      (resizeCanvas (with_window (resizeCanvas (Sample.page 4 2)) 6 2)).
Proof.
  split; [reflexivity|]. split; [reflexivity|].
  cbn [dispatch].
  destruct (positions_total 513 (resizeCanvas (with_window (resizeCanvas (Sample.page 4 2)) 6 2)))
    as [l Hl]; [apply resizeCanvas_bound|apply resizeCanvas_bound|lia|].
  rewrite Hl. reflexivity.
Qed.

(** On a platform with WebGL2 where every compilation and the link fail,
    [main] still returns: three diagnostics are on the console and the
    program is in use. *)
Lemma main_failing_driver :
  exists p g,
    main Sample.failing_driver 513 (Sample.page 4 2) = Returns (p, g) /\
    console p = [ "ERROR: 0:1: syntax error"; "ERROR: 0:1: syntax error";
                  "ERROR: link failed" ]%string /\
    currentProgram g = Some (program g).
Proof.
  destruct (main_returns Sample.failing_driver (Sample.page 4 2) 513)
    as (p & g & Hmain & Hcon & _ & Hcur & _); try reflexivity; try lia.
  exists p, g. repeat split; assumption.
Qed.

End Failures.

(** ** The shape of the grid *)

Section Lattice.
Import Script.
Local Open Scope Z_scope.

(** A loop from [k] to the Number of [n <= 512] folds its body over the
    counters k, k+1, ..., n-1. *)
Lemma for_lt_run {A : Type} (body : number -> A -> option A) (f : number -> A -> A)
    (d : nat) :
  (forall i a, body i a = Some (f i a)) ->
  forall (k : nat) (fuel : nat) (a : A),
    (k + d <= 512)%nat -> (d < fuel)%nat ->
    for_lt fuel (of_nat k) (of_nat (k + d)) body a
    = Some (foldl (fun a j => f (of_nat j) a) a (seq k d)).
Proof.
  intros Hbody. induction d as [|d IH]; intros k fuel a Hn Hfuel;
    (destruct fuel as [|fuel]; [lia|]); cbn [for_lt seq foldl]; unfold of_nat.
  - rewrite counter_lt by lia. rewrite (proj2 (Z.ltb_ge _ _)) by lia. reflexivity.
  - rewrite counter_lt by lia. rewrite (proj2 (Z.ltb_lt _ _)) by lia.
    rewrite Hbody. rewrite counter_succ by lia.
    replace (Z.of_nat k + 1) with (Z.of_nat (S k)) by lia.
    replace (k + S d)%nat with (S k + d)%nat by lia.
    apply (IH (S k)); lia.
Qed.

Lemma for_lt_runs {A : Type} (body : number -> A -> option A) (f : number -> A -> A)
    (bound : number) (n fuel : nat) (a : A) :
  (forall i a, body i a = Some (f i a)) ->
  runs bound n -> (n <= 512)%nat -> (513 <= fuel)%nat ->
  for_lt fuel 0%num bound body a
  = Some (foldl (fun a j => f (of_nat j) a) a (seq 0 n)).
Proof.
  intros Hbody [->|[-> ->]] Hn Hfuel.
  - apply (for_lt_run body f n Hbody 0%nat); lia.
  - destruct fuel as [|fuel]; [lia|]. reflexivity.
Qed.

Lemma foldl_app_flat_map {A B : Type} (g : B -> list A) (l : list B) (a : list A) :
  foldl (fun a j => a ++ g j) a l = a ++ flat_map g l.
Proof.
  revert a. induction l as [|j l IH]; intros a; simpl.
  - rewrite app_nil_r. reflexivity.
  - rewrite IH, <- app_assoc. reflexivity.
Qed.

(** With enough fuel [positions] is the lattice of its two loop counts. *)
Lemma positions_lattice (p : Page) (c r fuel : nat) :
  runs (cols p) c -> runs (rows p) r -> (c <= 512)%nat -> (r <= 512)%nat ->
  (513 <= fuel)%nat ->
  positions fuel p = Some (lattice p c r).
Proof.
  intros Hc Hr Hcn Hrn Hfuel. unfold positions.
  set (point := fun (x y : number) =>
         [ (x * step p - of_N (canvas_width p) / 2 + step p / 2)%num;
           (y * step p - of_N (canvas_height p) / 2 + step p / 2)%num ]).
  set (row := fun (y : number) (acc : list number) =>
         acc ++ flat_map (fun x => point (of_nat x) y) (seq 0 c)).
  rewrite (for_lt_runs _ row (rows p) r fuel []); try assumption.
  - unfold row.
    rewrite (foldl_app_flat_map
               (fun y => flat_map (fun x => point (of_nat x) (of_nat y)) (seq 0 c))).
    reflexivity.
  - intros y acc.
    rewrite (for_lt_runs _ (fun x acc => acc ++ point x y) (cols p) c fuel acc);
      try assumption; [|reflexivity].
    unfold row.
    rewrite (foldl_app_flat_map (fun x => point (of_nat x) y)). reflexivity.
Qed.

(** A list made of chunks of one length is indexed chunk by chunk. *)
Lemma flat_map_lookup {A B : Type} (g : B -> list A) (n : nat) (l : list B) :
  (forall b, length (g b) = n) ->
  forall (i j : nat) (b : B),
    l !! i = Some b -> (j < n)%nat ->
    flat_map g l !! (i * n + j)%nat = g b !! j.
Proof.
  intros Hn. induction l as [|b0 l IH]; intros i j b Hi Hj; [discriminate|].
  simpl. destruct i as [|i].
  - injection Hi as ->. simpl. apply lookup_app_l. rewrite Hn. exact Hj.
  - rewrite lookup_app_r by (rewrite Hn; simpl; lia).
    rewrite Hn. replace (S i * n + j - n)%nat with (i * n + j)%nat by (simpl; lia).
    apply IH; assumption.
Qed.

Lemma flat_map_length_const {A B : Type} (g : B -> list A) (n : nat) (l : list B) :
  (forall b, length (g b) = n) -> length (flat_map g l) = (length l * n)%nat.
Proof.
  intros Hn. induction l as [|b l IH]; simpl; [reflexivity|].
  rewrite length_app, Hn, IH. lia.
Qed.

Lemma lattice_length (p : Page) (c r : nat) :
  length (lattice p c r) = (r * (c * 2))%nat.
Proof.
  unfold lattice.
  rewrite (flat_map_length_const _ (c * 2)), length_seq; [reflexivity|].
  intros y. rewrite (flat_map_length_const _ 2), length_seq; reflexivity.
Qed.

Lemma lattice_lookup (p : Page) (c r x y : nat) :
  (x < c)%nat -> (y < r)%nat ->
  lattice p c r !! (2 * (y * c + x))%nat = grid_point p x y !! 0%nat /\
  lattice p c r !! (2 * (y * c + x) + 1)%nat = grid_point p x y !! 1%nat.
Proof.
  intros Hx Hy. unfold lattice.
  assert (Hrow : forall y', length (flat_map (fun x => grid_point p x y') (seq 0 c))
                            = (c * 2)%nat).
  { intros y'. rewrite (flat_map_length_const _ 2), length_seq; reflexivity. }
  assert (Hy' : seq 0 r !! y = Some y) by (apply lookup_seq; lia).
  assert (Hx' : seq 0 c !! x = Some x) by (apply lookup_seq; lia).
  split.
  - replace (2 * (y * c + x))%nat with (y * (c * 2) + (x * 2 + 0))%nat by lia.
    rewrite (flat_map_lookup _ (c * 2) _ Hrow y _ y Hy') by lia.
    apply (flat_map_lookup (fun x => grid_point p x y) 2 _ (fun _ => eq_refl) x 0%nat x Hx'). lia.
  - replace (2 * (y * c + x) + 1)%nat with (y * (c * 2) + (x * 2 + 1))%nat by lia.
    rewrite (flat_map_lookup _ (c * 2) _ Hrow y _ y Hy') by lia.
    apply (flat_map_lookup (fun x => grid_point p x y) 2 _ (fun _ => eq_refl) x 1%nat x Hx'). lia.
Qed.

End Lattice.

Section GridCounts.
Import Script.
Local Open Scope Z_scope.

Lemma Math_ceil_count (v : number) (e : Z) :
  normal v e -> e <= -44 ->
  exists n : nat, (1 <= n <= 512)%nat /\ Math_ceil v = of_nat n.
Proof.
  intros (m & -> & Hd) He.
  pose proof (digits_bounds m) as Hb. rewrite Hd in Hb.
  change (2 ^ 53) with 9007199254740992 in Hb.
  assert (Hpow : 2 ^ 44 <= 2 ^ (- e)) by (apply Z.pow_le_mono_r; lia).
  change (2 ^ 44) with 17592186044416 in Hpow.
  assert (Hdiv : - 512 <= - Zpos m / 2 ^ (- e) < 0).
  { split.
    - apply Z.div_le_lower_bound; [lia|]. nia.
    - apply Z.div_lt_upper_bound; lia. }
  exists (Z.to_nat (- (- Zpos m / 2 ^ (- e)))). split; [lia|].
  unfold Math_ceil, of_nat, of_Z, ceilZ, cond_Zopp.
  destruct (Z.leb_spec 0 e) as [|_]; [lia|].
  rewrite Z2Nat.id by lia. reflexivity.
Qed.

(** How often the two loops of [rebuildGrid] run on a canvas whose sides
    are below 2^32: at most 512 times each; not at all along a side that is
    0 (nor along the other one when both are 0); at least once along each
    side when neither is 0. *)
Ltac counts_side :=
  first
    [ lia
    | left; reflexivity
    | right; split; reflexivity
    | congruence
    | let Hz := fresh in
      intros Hz; rewrite Hz in *;
      match goal with
      | H : normal (of_N 0) _ |- _ => destruct H as (? & ? & _); discriminate
      end ].

Lemma grid_counts (p : Page) :
  (canvas_width p < 2 ^ 32)%N -> (canvas_height p < 2 ^ 32)%N ->
  exists c r : nat,
    runs (cols p) c /\ runs (rows p) r /\ (c <= 512)%nat /\ (r <= 512)%nat /\
    (canvas_width p = 0%N -> c = 0%nat) /\
    (canvas_height p = 0%N -> r = 0%nat) /\
    (canvas_width p <> 0%N -> canvas_height p <> 0%N -> (1 <= c)%nat /\ (1 <= r)%nat).
Proof.
  intros Hw Hh. unfold cols, rows, step.
  destruct (of_N_cases _ Hw) as [[Hw0 Hwz]|(ew & Hwn & Hew)];
    destruct (of_N_cases _ Hh) as [[Hh0 Hhz]|(eh & Hhn & Heh)].
  - rewrite Hwz, Hhz. exists 0%nat, 0%nat.
    repeat split; counts_side.
  - rewrite Hwz. rewrite (Math_max_zero_l _ _ Hhn).
    destruct (fdiv_normal _ _ _ _ Hhn grid_divisor_normal) as (es & Hs & Hes);
      [lia|lia|].
    destruct (fdiv_normal _ _ _ _ Hhn Hs) as (ec & Hc & Hec); [lia|lia|].
    destruct (Math_ceil_count _ ec Hc) as (r & Hr & Hrr); [lia|].
    exists 0%nat, r. rewrite Hrr.
    assert (Hcz : Math_ceil (S754_zero false / (of_N (canvas_height p) / (GRID_SIZE - 1)))%num
                  = of_nat 0).
    { destruct Hs as (ms & -> & _). reflexivity. }
    rewrite Hcz. repeat split; counts_side.
  - rewrite Hhz. rewrite (Math_max_zero_r _ _ Hwn).
    destruct (fdiv_normal _ _ _ _ Hwn grid_divisor_normal) as (es & Hs & Hes);
      [lia|lia|].
    destruct (fdiv_normal _ _ _ _ Hwn Hs) as (ec & Hc & Hec); [lia|lia|].
    destruct (Math_ceil_count _ ec Hc) as (c & Hcc & Hcr); [lia|].
    exists c, 0%nat. rewrite Hcr.
    assert (Hrz : Math_ceil (S754_zero false / (of_N (canvas_width p) / (GRID_SIZE - 1)))%num
                  = of_nat 0).
    { destruct Hs as (ms & -> & _). reflexivity. }
    rewrite Hrz. repeat split; counts_side.
  - destruct (Math_max_normal _ _ _ _ Hwn Hhn) as (eM & HM & HwM & HhM & HeM).
    destruct (fdiv_normal _ _ _ _ HM grid_divisor_normal) as (es & Hs & Hes);
      [lia|lia|].
    destruct (fdiv_normal _ _ _ _ Hwn Hs) as (ec & Hc & Hec); [lia|lia|].
    destruct (fdiv_normal _ _ _ _ Hhn Hs) as (er & Hr & Her); [lia|lia|].
    destruct (Math_ceil_count _ ec Hc) as (c & Hcc & Hcr); [lia|].
    destruct (Math_ceil_count _ er Hr) as (r & Hrr & Hrc); [lia|].
    exists c, r. rewrite Hcr, Hrc.
    repeat split; counts_side.
Qed.

End GridCounts.

Section Halving.
Local Open Scope Z_scope.

(** The mantissa of the Number of a positive integer below 2^53. *)
Lemma of_Z_mantissa (w : positive) :
  Zpos w < 2 ^ 53 ->
  of_Z (Zpos w)
  = S754_finite false
      match (Zpos (digits2_pos w) - 53)%Z with
      | Zneg q => Pos.iter xO w q
      | _ => w
      end
      (Zpos (digits2_pos w) - 53).
Proof.
  intros Hw. pose proof (digits_bounds w) as Hdw.
  assert (Hd : Zpos (digits2_pos w) <= 53).
  { destruct (Z.le_gt_cases (Zpos (digits2_pos w)) 53) as [|Hgt]; [assumption|].
    assert (2 ^ 53 <= 2 ^ (Zpos (digits2_pos w) - 1))
      by (apply Z.pow_le_mono_r; lia). lia. }
  unfold of_Z, binary_normalize, binary_round.
  unfold fexp, emin, prec, emax.
  rewrite Z.add_0_r. rewrite Z.max_l by lia.
  unfold shl_align. rewrite Z.sub_0_r.
  destruct (Zpos (digits2_pos w) - 53) as [|q|q] eqn:Hq; try lia.
  - apply (round_fits false w 0). apply bounded_normal; lia.
  - apply (round_fits false (Pos.iter xO w q) (Zneg q)).
    apply bounded_normal; [rewrite digits_iter_xO; lia|lia].
Qed.

(** Halving a normal value lowers its exponent by one. *)
Lemma fdiv_2_exact (s : bool) (m : positive) (e : Z) :
  Zpos (digits2_pos m) = 53 -> -400 <= e <= 400 ->
  (S754_finite s m e / 2)%num = S754_finite s m (e - 1).
Proof.
  intros Hd He.
  unfold fdiv, SFdiv. cbn [literal]. rewrite xorb_false_r.
  unfold SFdiv_core_binary, Zdigits2.
  rewrite Hd. change (Zpos (digits2_pos 4503599627370496)) with 53.
  unfold fexp, emin, prec, emax.
  rewrite Z.max_l by lia. rewrite Z.min_l by lia.
  replace (e - -51 - (53 + e - (53 + -51) - 53)) with 53 by lia.
  replace (53 + e - (53 + -51) - 53) with (e - 2) by lia.
  rewrite Z.shiftl_mul_pow2 by lia. change (2 ^ 53) with 9007199254740992.
  pose proof (Z_div_mod (Zpos m * 9007199254740992) 4503599627370496 eq_refl) as Hdiv.
  destruct (Z.div_eucl (Zpos m * 9007199254740992) 4503599627370496) as [q r].
  destruct Hdiv as [Hdiv Hr].
  assert (Hq : q = Zpos (m~0)) by lia. assert (Hr0 : r = 0) by lia. subst q r.
  change (new_location 4503599627370496 0) with loc_Exact.
  unfold binary_round_aux.
  assert (H1 : shr_fexp 53 1024 (Zpos m~0) (e - 2) loc_Exact
               = ({| shr_m := Zpos m; shr_r := false; shr_s := false |}, e - 1)).
  { unfold shr_fexp, Zdigits2, fexp, emin. cbn [digits2_pos].
    rewrite Pos2Z.inj_succ, Hd. rewrite Z.max_l by lia.
    replace (Z.succ 53 + (e - 2) - 53 - (e - 2)) with 1 by lia.
    cbn [shr shr_record_of_loc SpecFloat.iter_pos shr_1 orb]. f_equal. lia. }
  rewrite H1. cbn [shr_m loc_of_shr_record round_nearest_even].
  assert (H2 : shr_fexp 53 1024 (Zpos m) (e - 1) loc_Exact
               = ({| shr_m := Zpos m; shr_r := false; shr_s := false |}, e - 1)).
  { unfold shr_fexp, Zdigits2, fexp, emin. rewrite Hd. rewrite Z.max_l by lia.
    replace (53 + (e - 1) - 53 - (e - 1)) with 0 by lia. reflexivity. }
  rewrite H2. cbn [shr_m].
  replace (e - 1 <=? 1024 - 53) with true by (symmetry; apply Z.leb_le; lia).
  reflexivity.
Qed.

(** Half the Number of an even count is the Number of half the count. *)
Lemma of_nat_double_half (n : nat) :
  (Z.of_nat n < 2 ^ 52) -> (of_nat (n * 2) / 2)%num = of_nat n.
Proof.
  intros Hn. destruct n as [|n]; [reflexivity|].
  unfold of_nat.
  replace (Z.of_nat (S n * 2)) with (Zpos (Pos.of_succ_nat n)~0) by lia.
  replace (Z.of_nat (S n)) with (Zpos (Pos.of_succ_nat n)) in * by lia.
  set (w := Pos.of_succ_nat n) in *.
  change (2 ^ 52) with 4503599627370496 in Hn.
  rewrite !of_Z_mantissa by (change (2 ^ 53) with 9007199254740992; lia).
  pose proof (digits_bounds w) as Hb.
  assert (Hd : Zpos (digits2_pos w) <= 52).
  { destruct (Z.le_gt_cases (Zpos (digits2_pos w)) 52) as [|Hgt]; [assumption|].
    assert (2 ^ 52 <= 2 ^ (Zpos (digits2_pos w) - 1))
      by (apply Z.pow_le_mono_r; lia).
    change (2 ^ 52) with 4503599627370496 in *. lia. }
  cbn [digits2_pos]. rewrite Pos2Z.inj_succ.
  destruct (Zpos (digits2_pos w) - 53) as [|q|q] eqn:Hq; try lia.
  assert (Hm : match Z.succ (Zpos (digits2_pos w)) - 53 with
               | Zneg q' => Pos.iter xO (w~0)%positive q'
               | _ => (w~0)%positive
               end = Pos.iter xO w q).
  { destruct (Z.succ (Zpos (digits2_pos w)) - 53) as [|q'|q'] eqn:Hq'; try lia.
    - assert (q = 1%positive) by lia. subst q. reflexivity.
    - assert (q = Pos.succ q') by lia. subst q.
      rewrite Pos.iter_succ_r. reflexivity. }
  rewrite Hm.
  rewrite fdiv_2_exact.
  - f_equal. lia.
  - rewrite digits_iter_xO. lia.
  - lia.
Qed.

End Halving.

Section GridTheorems.
Import Script.

Lemma rebuildGrid_runs (p : Page) (g : GL) (fuel c r : nat) :
  runs (cols p) c -> runs (rows p) r -> (c <= 512)%nat -> (r <= 512)%nat ->
  (513 <= fuel)%nat ->
  rebuildGrid fuel p g
  = Some (with_buffer g (Float32Array.from (lattice p c r)) (of_nat (r * c))).
Proof.
  intros Hc Hr Hcn Hrn Hfuel. unfold rebuildGrid.
  rewrite (positions_lattice p c r fuel Hc Hr Hcn Hrn Hfuel).
  rewrite lattice_length.
  replace (r * (c * 2))%nat with (r * c * 2)%nat by lia.
  rewrite of_nat_double_half; [reflexivity|].
  assert (r * c <= 512 * 512)%nat by (apply Nat.mul_le_mono; assumption).
  change (2 ^ 52)%Z with 4503599627370496%Z. lia.
Qed.

Lemma lattice_buffer_length (p : Page) (c r : nat) :
  length (Float32Array.from (lattice p c r)) = (r * (c * 2))%nat.
Proof. unfold Float32Array.from. rewrite length_fmap. apply lattice_length. Qed.

(** X5.  On a canvas whose sides are below 2^32, [rebuildGrid] uploads [rows]
    rows of [cols] points each, row after row (each loop bound at most 512),
    every coordinate rounded to binary32, and sets [vertexCount] to the
    Number of rows times cols. *)
Theorem rebuildGrid_lattice (p : Page) (g : GL) (fuel : nat) :
  (canvas_width p < 2 ^ 32)%N -> (canvas_height p < 2 ^ 32)%N ->
  (513 <= fuel)%nat ->
  exists (c r : nat) (g' : GL),
    runs (cols p) c /\ runs (rows p) r /\ (c <= 512)%nat /\ (r <= 512)%nat /\
    rebuildGrid fuel p g = Some g' /\
    positionBuffer g' = Float32Array.from (lattice p c r) /\
    length (positionBuffer g') = (r * (c * 2))%nat /\
    vertexCount g' = Some (of_nat (r * c)).
Proof.
  intros Hw Hh Hfuel.
  destruct (grid_counts p Hw Hh) as (c & r & Hc & Hr & Hcn & Hrn & _).
  exists c, r. rewrite (rebuildGrid_runs p g fuel c r Hc Hr Hcn Hrn Hfuel).
  eexists. split; [exact Hc|]. split; [exact Hr|]. split; [exact Hcn|].
  split; [exact Hrn|]. split; [reflexivity|]. split; [reflexivity|].
  split; [apply lattice_buffer_length|reflexivity].
Qed.

Lemma rebuildGrid_lattice_witness :
  exists (c r : nat) (g' : GL),
    runs (cols (Sample.page 4 2)) c /\ runs (rows (Sample.page 4 2)) r /\
    (c <= 512)%nat /\ (r <= 512)%nat /\
    rebuildGrid 513 (Sample.page 4 2) Sample.gl_state = Some g' /\
    positionBuffer g' = Float32Array.from (lattice (Sample.page 4 2) c r) /\
    length (positionBuffer g') = (r * (c * 2))%nat /\
    vertexCount g' = Some (of_nat (r * c)).
Proof.
  apply (rebuildGrid_lattice (Sample.page 4 2) Sample.gl_state 513);
    try reflexivity; lia.
Defined.

(** X6.  Where a point is in the buffer: with [c] columns, the point of column
    [x] and row [y] occupies cells [2 (y c + x)] and [2 (y c + x) + 1], and
    they hold [x * step - width / 2 + step / 2] and
    [y * step - height / 2 + step / 2], rounded to binary32. *)
Theorem rebuildGrid_point (p : Page) (g : GL) (fuel : nat) :
  (canvas_width p < 2 ^ 32)%N -> (canvas_height p < 2 ^ 32)%N ->
  (513 <= fuel)%nat ->
  exists (c r : nat) (g' : GL),
    runs (cols p) c /\ runs (rows p) r /\
    rebuildGrid fuel p g = Some g' /\
    forall x y : nat, (x < c)%nat -> (y < r)%nat ->
      positionBuffer g' !! (2 * (y * c + x))%nat
        = Some (fround (of_nat x * step p - of_N (canvas_width p) / 2 + step p / 2)%num) /\
      positionBuffer g' !! (2 * (y * c + x) + 1)%nat
        = Some (fround (of_nat y * step p - of_N (canvas_height p) / 2 + step p / 2)%num).
Proof.
  intros Hw Hh Hfuel.
  destruct (grid_counts p Hw Hh) as (c & r & Hc & Hr & Hcn & Hrn & _).
  exists c, r. unfold rebuildGrid.
  rewrite (positions_lattice p c r fuel Hc Hr Hcn Hrn Hfuel).
  eexists. split; [exact Hc|]. split; [exact Hr|]. split; [reflexivity|].
  intros x y Hx Hy. cbn [positionBuffer with_buffer]. unfold Float32Array.from.
  rewrite !list_lookup_fmap.
  destruct (lattice_lookup p c r x y Hx Hy) as [H0 H1].
  rewrite H0, H1. split; reflexivity.
Qed.

Lemma rebuildGrid_point_witness :
  exists (c r : nat) (g' : GL),
    runs (cols (Sample.page 4 2)) c /\ runs (rows (Sample.page 4 2)) r /\
    rebuildGrid 513 (Sample.page 4 2) Sample.gl_state = Some g' /\
    forall x y : nat, (x < c)%nat -> (y < r)%nat ->
      positionBuffer g' !! (2 * (y * c + x))%nat
        = Some (fround (of_nat x * step (Sample.page 4 2)
                        - of_N (canvas_width (Sample.page 4 2)) / 2
                        + step (Sample.page 4 2) / 2)%num) /\
      positionBuffer g' !! (2 * (y * c + x) + 1)%nat
        = Some (fround (of_nat y * step (Sample.page 4 2)
                        - of_N (canvas_height (Sample.page 4 2)) / 2
                        + step (Sample.page 4 2) / 2)%num).
Proof.
  apply (rebuildGrid_point (Sample.page 4 2) Sample.gl_state 513);
    try reflexivity; lia.
Defined.

Lemma lattice_no_columns (p : Page) (r : nat) : lattice p 0 r = [].
Proof. unfold lattice. induction (seq 0 r) as [|y l IH]; [reflexivity|exact IH]. Qed.

(** X7.  A canvas with a side of 0 gets an empty grid: nothing is uploaded and
    [vertexCount] is 0 (on a 0 by 0 canvas the step is 0 and both loop
    bounds are NaN). *)
Theorem rebuildGrid_zero_side (p : Page) (g : GL) (fuel : nat) :
  (canvas_width p < 2 ^ 32)%N -> (canvas_height p < 2 ^ 32)%N ->
  (513 <= fuel)%nat ->
  canvas_width p = 0%N \/ canvas_height p = 0%N ->
  exists g',
    rebuildGrid fuel p g = Some g' /\
    positionBuffer g' = [] /\ vertexCount g' = Some 0%num.
Proof.
  intros Hw Hh Hfuel Hzero.
  destruct (grid_counts p Hw Hh) as (c & r & Hc & Hr & Hcn & Hrn & Hc0 & Hr0 & _).
  unfold rebuildGrid.
  rewrite (positions_lattice p c r fuel Hc Hr Hcn Hrn Hfuel).
  assert (Hempty : lattice p c r = []).
  { destruct Hzero as [Hz|Hz].
    - rewrite (Hc0 Hz). apply lattice_no_columns.
    - rewrite (Hr0 Hz). reflexivity. }
  rewrite Hempty. eexists. split; [reflexivity|]. split; reflexivity.
Qed.

Lemma rebuildGrid_zero_side_witness :
  exists g',
    rebuildGrid 513 (Sample.page 0 600) Sample.gl_state = Some g' /\
    positionBuffer g' = [] /\ vertexCount g' = Some 0%num.
Proof.
  apply (rebuildGrid_zero_side (Sample.page 0 600) Sample.gl_state 513);
    try reflexivity; try lia. left. reflexivity.
Defined.

(** X8.  A canvas with both sides between 1 and 2^32 - 1 gets at least one point
    and at most 512 * 512. *)
Theorem rebuildGrid_nonempty (p : Page) (g : GL) (fuel : nat) :
  (canvas_width p < 2 ^ 32)%N -> (canvas_height p < 2 ^ 32)%N ->
  (513 <= fuel)%nat ->
  canvas_width p <> 0%N -> canvas_height p <> 0%N ->
  exists (n : nat) (g' : GL),
    rebuildGrid fuel p g = Some g' /\
    (1 <= n <= 512 * 512)%nat /\
    length (positionBuffer g') = (2 * n)%nat /\
    vertexCount g' = Some (of_nat n).
Proof.
  intros Hw Hh Hfuel Hw0 Hh0.
  destruct (grid_counts p Hw Hh) as (c & r & Hc & Hr & Hcn & Hrn & _ & _ & Hpos).
  destruct (Hpos Hw0 Hh0) as [Hc1 Hr1].
  exists (r * c)%nat. rewrite (rebuildGrid_runs p g fuel c r Hc Hr Hcn Hrn Hfuel).
  eexists. split; [reflexivity|]. split; [nia|].
  split; [|reflexivity].
  cbn [positionBuffer with_buffer]. rewrite lattice_buffer_length. lia.
Qed.

Lemma rebuildGrid_nonempty_witness :
  exists (n : nat) (g' : GL),
    rebuildGrid 513 (Sample.page 4 2) Sample.gl_state = Some g' /\
    (1 <= n <= 512 * 512)%nat /\
    length (positionBuffer g') = (2 * n)%nat /\
    vertexCount g' = Some (of_nat n).
Proof.
  apply (rebuildGrid_nonempty (Sample.page 4 2) Sample.gl_state 513);
    try reflexivity; try lia; discriminate.
Defined.

End GridTheorems.

(** ** Rounding to binary32 *)

Section Shifts.
Local Open Scope Z_scope.

Lemma iter_pos_nat {A : Type} (f : A -> A) (n : positive) (a : A) :
  SpecFloat.iter_pos f n a = Nat.iter (Pos.to_nat n) f a.
Proof.
  revert a. induction n as [n IH|n IH|]; intros a; cbn [SpecFloat.iter_pos].
  - rewrite !IH. rewrite Pos2Nat.inj_xI.
    replace (S (2 * Pos.to_nat n)) with (Pos.to_nat n + (Pos.to_nat n + 1))%nat by lia.
    rewrite !Nat.iter_add. reflexivity.
  - rewrite !IH. rewrite Pos2Nat.inj_xO.
    replace (2 * Pos.to_nat n)%nat with (Pos.to_nat n + Pos.to_nat n)%nat by lia.
    rewrite Nat.iter_add. reflexivity.
  - reflexivity.
Qed.

Lemma shr_1_m (r : shr_record) :
  0 <= shr_m r -> shr_m (shr_1 r) = shr_m r / 2.
Proof.
  destruct r as [m rb sb]. cbn [shr_m]. intros Hm.
  rewrite <- Z.div2_div. destruct m as [|[p|p|]|p]; try lia; reflexivity.
Qed.

Lemma shr_iter_m (n : nat) (r : shr_record) :
  0 <= shr_m r -> shr_m (Nat.iter n shr_1 r) = shr_m r / 2 ^ Z.of_nat n.
Proof.
  intros Hm. induction n as [|n IH].
  - simpl. rewrite Z.div_1_r. reflexivity.
  - rewrite Nat.iter_succ. rewrite shr_1_m.
    + rewrite IH. rewrite Z.div_div by lia.
      rewrite Nat2Z.inj_succ, Z.pow_succ_r by lia. f_equal. lia.
    + rewrite IH. apply Z.div_pos; lia.
Qed.

(** Shifting right by [n] the mantissa shifted left by [n] is exact. *)
Lemma shr_iter_exact (n : nat) (m : positive) :
  Nat.iter n shr_1 {| shr_m := Zpos (Nat.iter n xO m); shr_r := false; shr_s := false |}
  = {| shr_m := Zpos m; shr_r := false; shr_s := false |}.
Proof.
  induction n as [|n IH]; [reflexivity|].
  rewrite Nat.iter_succ_r. rewrite Nat.iter_succ. cbn [shr_1 orb]. exact IH.
Qed.

Lemma pos_iter_nat (m n : positive) :
  Pos.iter xO m n = Nat.iter (Pos.to_nat n) xO m.
Proof.
  induction n as [|n IH] using Pos.peano_ind.
  - reflexivity.
  - rewrite Pos.iter_succ, Pos2Nat.inj_succ, IH. reflexivity.
Qed.

Lemma shr_exact (n m : positive) (e : Z) :
  shr {| shr_m := Zpos (Pos.iter xO m n); shr_r := false; shr_s := false |} e (Zpos n)
  = ({| shr_m := Zpos m; shr_r := false; shr_s := false |}, e + Zpos n).
Proof.
  unfold shr. rewrite iter_pos_nat, pos_iter_nat, shr_iter_exact. reflexivity.
Qed.

Lemma Zdigits2_nonneg (m : Z) : 0 <= Zdigits2 m.
Proof. destruct m; simpl; lia. Qed.

Lemma Zdigits2_bounds (m : Z) :
  0 < m -> 2 ^ (Zdigits2 m - 1) <= m < 2 ^ Zdigits2 m.
Proof. destruct m as [|p|p]; try lia. intros _. apply digits_bounds. Qed.

Lemma Zdigits2_unique (m d : Z) :
  0 < m -> 2 ^ (d - 1) <= m < 2 ^ d -> Zdigits2 m = d.
Proof. destruct m as [|p|p]; try lia. intros _. apply digits_unique. Qed.

End Shifts.

Section RoundValid.
Local Open Scope Z_scope.
Variables prec emax : Z.
Hypothesis Hprec : 0 < prec.

Lemma fexp_ge_emin (e : Z) : emin prec emax <= fexp prec emax e.
Proof. unfold fexp. lia. Qed.

Lemma fexp_mono (e e' : Z) : e <= e' -> fexp prec emax e <= fexp prec emax e'.
Proof. unfold fexp. lia. Qed.

Lemma Zdigits2_mono (a b : Z) : 0 <= a <= b -> Zdigits2 a <= Zdigits2 b.
Proof.
  intros [Ha Hab]. destruct (Z.eq_dec a 0) as [->|Hne].
  - apply Zdigits2_nonneg.
  - pose proof (Zdigits2_bounds a ltac:(lia)) as Hba.
    pose proof (Zdigits2_bounds b ltac:(lia)) as Hbb.
    assert (Zdigits2 a - 1 < Zdigits2 b); [|lia].
    apply (Z.pow_lt_mono_r_iff 2); [lia|apply Zdigits2_nonneg|lia].
Qed.

Lemma Zdigits2_div (m n : Z) :
  0 < m -> 0 <= n -> 0 < m / 2 ^ n -> Zdigits2 (m / 2 ^ n) = Zdigits2 m - n.
Proof.
  intros Hm Hn Hq. pose proof (Zdigits2_bounds m Hm) as Hb.
  pose proof (Zdigits2_nonneg m) as Hd.
  assert (Hpn : 0 < 2 ^ n) by (apply Z.pow_pos_nonneg; lia).
  assert (Hge : 2 ^ n <= m).
  { destruct (Z.le_gt_cases (2 ^ n) m) as [|Hlt]; [assumption|].
    rewrite Z.div_small in Hq by lia. lia. }
  assert (Hnd : n <= Zdigits2 m - 1).
  { assert (n < Zdigits2 m); [|lia].
    apply (Z.pow_lt_mono_r_iff 2); lia. }
  apply Zdigits2_unique; [exact Hq|]. split.
  - apply Z.div_le_lower_bound; [exact Hpn|].
    rewrite <- Z.pow_add_r by lia.
    replace (n + (Zdigits2 m - n - 1)) with (Zdigits2 m - 1) by lia. lia.
  - apply Z.div_lt_upper_bound; [exact Hpn|].
    rewrite <- Z.pow_add_r by lia.
    replace (n + (Zdigits2 m - n)) with (Zdigits2 m) by lia. lia.
Qed.

(** One pass of [shr_fexp] on a mantissa whose exponent is not above the
    canonical one: the exponent becomes canonical for the new mantissa. *)
Lemma shr_fexp_canonical (m e : Z) (l : location) :
  0 < m -> e <= fexp prec emax (Zdigits2 m + e) ->
  0 <= shr_m (fst (shr_fexp prec emax m e l)) <= m /\
  fexp prec emax (Zdigits2 (shr_m (fst (shr_fexp prec emax m e l)))
                  + snd (shr_fexp prec emax m e l))
  = snd (shr_fexp prec emax m e l).
Proof.
  intros Hm He. unfold shr_fexp.
  assert (Hrec : shr_m (shr_record_of_loc m l) = m) by (destruct l as [|[]]; reflexivity).
  set (E := fexp prec emax (Zdigits2 m + e)) in *.
  unfold shr. destruct (E - e) as [|n|n] eqn:Hn; try lia.
  - cbn [fst snd]. rewrite Hrec. split; [lia|]. fold E. lia.
  - cbn [fst snd]. rewrite iter_pos_nat, shr_iter_m by (rewrite Hrec; lia).
    rewrite Hrec, positive_nat_Z.
    assert (Hpn : 0 < 2 ^ Zpos n) by (apply Z.pow_pos_nonneg; lia).
    assert (Hq : 0 <= m / 2 ^ Zpos n <= m).
    { split; [apply Z.div_pos; lia|].
      apply Z.div_le_upper_bound; [lia|]. nia. }
    split; [exact Hq|].
    replace (e + Zpos n) with E by lia.
    destruct (Z.eq_dec (m / 2 ^ Zpos n) 0) as [H0|Hne].
    + rewrite H0. cbn [Zdigits2]. rewrite Z.add_0_l.
      (* every bit is gone: the exponent is the minimal one *)
      pose proof (Zdigits2_bounds m Hm) as Hb.
      assert (Hlt : m < 2 ^ Zpos n).
      { destruct (Z.lt_ge_cases m (2 ^ Zpos n)) as [|Hge]; [assumption|].
        assert (1 <= m / 2 ^ Zpos n); [|lia].
        apply Z.div_le_lower_bound; lia. }
      assert (Hd : Zdigits2 m <= Zpos n).
      { assert (Zdigits2 m - 1 < Zpos n); [|lia].
        apply (Z.pow_lt_mono_r_iff 2); lia. }
      unfold E, fexp in *. lia.
    + rewrite Zdigits2_div by lia.
      replace (Zdigits2 m - Zpos n + E) with (Zdigits2 m + e) by lia.
      reflexivity.
Qed.

(** Rounding yields a value of the format: a zero, an infinity, or a finite
    value with a canonical mantissa within the exponent range. *)
Lemma binary_round_aux_valid (s : bool) (m : positive) (e : Z) (l : location) :
  e <= fexp prec emax (Zpos (digits2_pos m) + e) ->
  valid_binary prec emax (binary_round_aux prec emax s (Zpos m) e l) = true.
Proof.
  intros He. unfold binary_round_aux.
  pose proof (shr_fexp_canonical (Zpos m) e l eq_refl He) as [Hm1 Hc1].
  destruct (shr_fexp prec emax (Zpos m) e l) as [mrs1 e1]. cbn [fst snd] in *.
  set (r := round_nearest_even (shr_m mrs1) (loc_of_shr_record mrs1)).
  assert (Hr : shr_m mrs1 <= r <= shr_m mrs1 + 1).
  { destruct (round_nearest_even_cases (shr_m mrs1) (loc_of_shr_record mrs1));
      unfold r; lia. }
  destruct (Z.eq_dec r 0) as [Hr0|Hrne].
  - rewrite Hr0. unfold shr_fexp. cbn [Zdigits2].
    rewrite Z.add_0_l.
    assert (Hle : fexp prec emax e1 - e1 <= 0).
    { pose proof (fexp_ge_emin (Zdigits2 (shr_m mrs1) + e1)).
      unfold fexp in *. lia. }
    unfold shr. destruct (fexp prec emax e1 - e1); try lia; reflexivity.
  - assert (Hrpos : 0 < r) by lia.
    assert (He1 : e1 <= fexp prec emax (Zdigits2 r + e1)).
    { rewrite <- Hc1 at 1. apply fexp_mono.
      pose proof (Zdigits2_mono (shr_m mrs1) r ltac:(lia)). lia. }
    pose proof (shr_fexp_canonical r e1 loc_Exact Hrpos He1) as [Hm2 Hc2].
    destruct (shr_fexp prec emax r e1 loc_Exact) as [mrs2 e2]. cbn [fst snd] in *.
    destruct (shr_m mrs2) as [|m2|m2]; try reflexivity.
    destruct (Z.leb_spec e2 (emax - prec)) as [Hle|Hgt]; [|reflexivity].
    cbn [valid_binary]. unfold bounded, canonical_mantissa.
    cbn [Zdigits2] in Hc2. rewrite Hc2, Z.eqb_refl.
    apply Z.leb_le. exact Hle.
Qed.

Lemma binary_round_valid (s : bool) (m : positive) (e : Z) :
  valid_binary prec emax (binary_round prec emax s m e) = true.
Proof.
  unfold binary_round, shl_align.
  set (E := fexp prec emax (Zpos (digits2_pos m) + e)).
  destruct (E - e) as [|d|d] eqn:Hd; apply binary_round_aux_valid; fold E.
  - lia.
  - lia.
  - rewrite digits_iter_xO.
    replace (Zpos (digits2_pos m) + Zpos d + E) with (Zpos (digits2_pos m) + e) by lia.
    fold E. lia.
Qed.

Lemma binary_normalize_valid (m e : Z) (szero : bool) :
  valid_binary prec emax (binary_normalize prec emax m e szero) = true.
Proof.
  destruct m; [reflexivity|apply binary_round_valid|apply binary_round_valid].
Qed.

Lemma Zdigits2_succ (m : Z) : 0 <= m -> Zdigits2 (m + 1) <= Zdigits2 m + 1.
Proof.
  intros Hm. destruct (Z.eq_dec m 0) as [->|Hne]; [discriminate|].
  pose proof (Zdigits2_bounds m ltac:(lia)) as Hb.
  pose proof (Zdigits2_bounds (m + 1) ltac:(lia)) as Hb'.
  pose proof (Zdigits2_nonneg m) as Hd.
  assert (Zdigits2 (m + 1) - 1 < Zdigits2 m + 1); [|lia].
  apply (Z.pow_lt_mono_r_iff 2); [lia|lia|].
  rewrite Z.pow_add_r, Z.pow_1_r by lia. lia.
Qed.

(** The exponent [shr_fexp] returns, and what is left of the magnitude. *)
Lemma shr_fexp_digits (m e : Z) (l : location) :
  0 < m ->
  snd (shr_fexp prec emax m e l) = Z.max e (fexp prec emax (Zdigits2 m + e)) /\
  (shr_m (fst (shr_fexp prec emax m e l)) = 0 \/
   Zdigits2 (shr_m (fst (shr_fexp prec emax m e l))) + snd (shr_fexp prec emax m e l)
   = Zdigits2 m + e).
Proof.
  intros Hm. unfold shr_fexp.
  assert (Hrec : shr_m (shr_record_of_loc m l) = m) by (destruct l as [|[]]; reflexivity).
  set (E := fexp prec emax (Zdigits2 m + e)) in *.
  unfold shr. destruct (E - e) as [|n|n] eqn:Hn; cbn [fst snd].
  - rewrite Hrec. split; [lia|right; reflexivity].
  - split; [lia|].
    rewrite iter_pos_nat, shr_iter_m by (rewrite Hrec; lia).
    rewrite Hrec, positive_nat_Z.
    assert (Hpn : 0 < 2 ^ Zpos n) by (apply Z.pow_pos_nonneg; lia).
    assert (Hq : 0 <= m / 2 ^ Zpos n) by (apply Z.div_pos; lia).
    destruct (Z.eq_dec (m / 2 ^ Zpos n) 0) as [H0|Hne]; [left; exact H0|right].
    rewrite Zdigits2_div by lia. lia.
  - rewrite Hrec. split; [lia|right; reflexivity].
Qed.

(** Rounding a magnitude below [2 ^ (emax - 1)] does not overflow. *)
Lemma binary_round_aux_finite (s : bool) (m : positive) (e : Z) (l : location) :
  e <= fexp prec emax (Zpos (digits2_pos m) + e) ->
  Zpos (digits2_pos m) + e < emax -> 2 <= emax ->
  is_finite (binary_round_aux prec emax s (Zpos m) e l) = true.
Proof.
  intros He HD Hemax. unfold binary_round_aux.
  pose proof (shr_fexp_canonical (Zpos m) e l eq_refl He) as [Hm1 Hc1].
  pose proof (shr_fexp_digits (Zpos m) e l eq_refl) as [He1 Hd1].
  cbn [Zdigits2] in He1, Hd1.
  destruct (shr_fexp prec emax (Zpos m) e l) as [mrs1 e1]. cbn [fst snd] in *.
  set (r := round_nearest_even (shr_m mrs1) (loc_of_shr_record mrs1)).
  assert (Hr : r = shr_m mrs1 \/ r = shr_m mrs1 + 1)
    by apply round_nearest_even_cases.
  destruct (Z.eq_dec r 0) as [Hr0|Hrne].
  - rewrite Hr0. unfold shr_fexp. cbn [Zdigits2].
    rewrite Z.add_0_l.
    assert (Hle : fexp prec emax e1 - e1 <= 0).
    { pose proof (fexp_ge_emin (Zdigits2 (shr_m mrs1) + e1)).
      unfold fexp in *. lia. }
    unfold shr. destruct (fexp prec emax e1 - e1); try lia; reflexivity.
  - assert (Hrpos : 0 < r) by lia.
    assert (Hdr : Zdigits2 r <= Zdigits2 (shr_m mrs1) + 1).
    { destruct Hr as [->| ->]; [lia|apply Zdigits2_succ; lia]. }
    assert (He1' : e1 <= fexp prec emax (Zdigits2 r + e1)).
    { rewrite <- Hc1 at 1. apply fexp_mono.
      pose proof (Zdigits2_mono (shr_m mrs1) r ltac:(lia)). lia. }
    pose proof (shr_fexp_canonical r e1 loc_Exact Hrpos He1') as [Hm2 _].
    pose proof (shr_fexp_digits r e1 loc_Exact Hrpos) as [He2 _].
    destruct (shr_fexp prec emax r e1 loc_Exact) as [mrs2 e2]. cbn [fst snd] in *.
    assert (Hbound : e2 <= emax - prec).
    { destruct Hd1 as [H0|Hd1].
      - rewrite H0 in Hdr. cbn [Zdigits2] in Hdr.
        unfold fexp, emin in *. lia.
      - unfold fexp, emin in *. lia. }
    destruct (shr_m mrs2) as [|m2|m2]; [reflexivity| |lia].
    replace (e2 <=? emax - prec) with true by (symmetry; apply Z.leb_le; exact Hbound).
    reflexivity.
Qed.

Lemma binary_round_finite (s : bool) (m : positive) (e : Z) :
  Zpos (digits2_pos m) + e < emax -> 2 <= emax ->
  is_finite (binary_round prec emax s m e) = true.
Proof.
  intros HD Hemax. unfold binary_round, shl_align.
  set (E := fexp prec emax (Zpos (digits2_pos m) + e)).
  destruct (E - e) as [|d|d] eqn:Hd; apply binary_round_aux_finite; fold E;
    try lia.
  - rewrite digits_iter_xO.
    replace (Zpos (digits2_pos m) + Zpos d + E) with (Zpos (digits2_pos m) + e) by lia.
    fold E. lia.
  - rewrite digits_iter_xO. lia.
Qed.

End RoundValid.

Section Fround.
Local Open Scope Z_scope.

Lemma bounded32_facts (m : positive) (e : Z) :
  bounded 24 128 m e = true ->
  Zpos (digits2_pos m) <= 24 /\ -149 <= e <= 104 /\
  fexp 24 128 (Zpos (digits2_pos m) + e) = e.
Proof.
  unfold bounded, canonical_mantissa. intros Hb.
  apply andb_true_iff in Hb. destruct Hb as [Hc He].
  apply Z.eqb_eq in Hc. apply Z.leb_le in He.
  unfold fexp, emin in *. lia.
Qed.

(** A binary32 value written with a 53-bit mantissa. *)
Lemma widen_exact (s : bool) (m : positive) (e : Z) :
  bounded 24 128 m e = true ->
  exists k : positive,
    Zpos k = 53 - Zpos (digits2_pos m) /\
    binary_round prec emax s m e = S754_finite s (Pos.iter xO m k) (e - Zpos k).
Proof.
  intros Hb. destruct (bounded32_facts m e Hb) as (Hd & He & _).
  destruct (53 - Zpos (digits2_pos m)) as [|k|k] eqn:Hk; try lia.
  exists k. split; [reflexivity|].
  unfold binary_round, shl_align, fexp, emin, prec, emax.
  rewrite Z.max_l by lia.
  replace (Zpos (digits2_pos m) + e - 53 - e) with (Zneg k) by lia.
  replace (Zpos (digits2_pos m) + e - 53) with (e - Zpos k) by lia.
  apply (round_fits s (Pos.iter xO m k) (e - Zpos k)).
  apply bounded_normal; [rewrite digits_iter_xO; lia|lia].
Qed.

(** Rounding it to binary32 again gives the binary32 value back. *)
Lemma narrow_exact (s : bool) (m k : positive) (e : Z) :
  bounded 24 128 m e = true -> Zpos k = 53 - Zpos (digits2_pos m) ->
  binary_round 24 128 s (Pos.iter xO m k) (e - Zpos k) = S754_finite s m e.
Proof.
  intros Hb Hk. destruct (bounded32_facts m e Hb) as (Hd & He & Hc).
  assert (HE : fexp 24 128 (Zpos (digits2_pos (Pos.iter xO m k)) + (e - Zpos k)) = e).
  { rewrite digits_iter_xO. rewrite <- Hc at 2. f_equal. lia. }
  unfold binary_round, shl_align. rewrite HE.
  replace (e - (e - Zpos k)) with (Zpos k) by lia.
  unfold binary_round_aux, shr_fexp at 1. cbn [Zdigits2]. rewrite HE.
  replace (e - (e - Zpos k)) with (Zpos k) by lia.
  cbn [shr_record_of_loc]. rewrite shr_exact.
  replace (e - Zpos k + Zpos k) with e by lia.
  cbn [shr_m loc_of_shr_record round_nearest_even].
  unfold shr_fexp. cbn [Zdigits2]. rewrite Hc, Z.sub_diag.
  cbn [shr shr_record_of_loc shr_m].
  replace (e <=? 128 - 24) with true by (symmetry; apply Z.leb_le; lia).
  reflexivity.
Qed.

Lemma normalize_round (pr em e : Z) (m : positive) (s : bool) :
  binary_normalize pr em (cond_Zopp s (Zpos m)) e s = binary_round pr em s m e.
Proof. destruct s; reflexivity. Qed.

(** [Math.fround] returns a binary64 value. *)
Lemma fround_binary64 (v : number) : binary64 (fround v).
Proof.
  destruct v as [s|s| |s m e]; try reflexivity.
  unfold fround, binary64.
  destruct (binary_normalize 24 128 (cond_Zopp s (Zpos m)) e s); try reflexivity.
  apply binary_normalize_valid. reflexivity.
Qed.

(** [Math.fround] is idempotent: a binary32 value is stored as it is. *)
Lemma fround_idempotent (v : number) : fround (fround v) = fround v.
Proof.
  destruct v as [s|s| |s m e]; try reflexivity.
  pose proof (binary_normalize_valid 24 128 eq_refl (cond_Zopp s (Zpos m)) e s) as Hval.
  assert (Hf : fround (S754_finite s m e)
               = match binary_normalize 24 128 (cond_Zopp s (Zpos m)) e s with
                 | S754_finite s' m' e' =>
                     binary_normalize prec emax (cond_Zopp s' (Zpos m')) e' s'
                 | r => r
                 end) by reflexivity.
  rewrite Hf. clear Hf.
  destruct (binary_normalize 24 128 (cond_Zopp s (Zpos m)) e s)
    as [s'|s'| |s' m' e']; try reflexivity.
  cbn [valid_binary] in Hval.
  rewrite (normalize_round prec emax e' m' s').
  destruct (widen_exact s' m' e' Hval) as (k & Hk & Hw).
  rewrite Hw. unfold fround.
  rewrite (normalize_round 24 128 (e' - Zpos k) (Pos.iter xO m' k) s').
  rewrite (narrow_exact s' m' k e' Hval Hk).
  rewrite (normalize_round prec emax e' m' s'). exact Hw.
Qed.

(** A Number of magnitude below [2 ^ 127] is stored as a finite value. *)
Lemma fround_finite (s : bool) (m : positive) (e : Z) :
  Zpos (digits2_pos m) + e < 128 ->
  is_finite (fround (S754_finite s m e)) = true.
Proof.
  intros HD.
  pose proof (binary_round_valid 24 128 eq_refl s m e) as Hval.
  pose proof (binary_round_finite 24 128 eq_refl s m e HD ltac:(lia)) as Hfin.
  assert (Hf : fround (S754_finite s m e)
               = match binary_round 24 128 s m e with
                 | S754_finite s' m' e' =>
                     binary_normalize prec emax (cond_Zopp s' (Zpos m')) e' s'
                 | r => r
                 end).
  { unfold fround. rewrite (normalize_round 24 128 e m s). reflexivity. }
  rewrite Hf. clear Hf.
  destruct (binary_round 24 128 s m e) as [s'|s'| |s' m' e'];
    try reflexivity; try discriminate Hfin.
  cbn [valid_binary] in Hval.
  rewrite (normalize_round prec emax e' m' s').
  destruct (widen_exact s' m' e' Hval) as (k & _ & ->). reflexivity.
Qed.

End Fround.

(** ** The matrix class: invariant and methods *)

Section Invariant.
Import Float32Array.

Lemma fround_float32 (v : number) : float32 (fround v).
Proof. split; [apply fround_binary64|apply fround_idempotent]. Qed.

Lemma store_float32 (a : list number) (i : nat) (v : number) :
  length a = 9%nat /\ Forall float32 a ->
  length (store a i v) = 9%nat /\ Forall float32 (store a i v).
Proof.
  intros [Hlen Hall]. unfold store. split.
  - rewrite length_insert. exact Hlen.
  - apply Forall_insert; [exact Hall|apply fround_float32].
Qed.

Lemma alter_well_formed (f : list number -> list number) (this : loc) (h : heap) :
  (forall a, length a = 9%nat /\ Forall float32 a ->
             length (f a) = 9%nat /\ Forall float32 (f a)) ->
  well_formed h -> well_formed (alter f this h).
Proof.
  intros Hf Hh o a Ho. destruct (decide (o = this)) as [->|Hne].
  - rewrite lookup_alter_eq in Ho.
    destruct (h !! this) as [b|] eqn:Hb; [|discriminate].
    injection Ho as <-. apply Hf. exact (Hh this b Hb).
  - rewrite lookup_alter_ne in Ho by congruence. exact (Hh o a Ho).
Qed.

Lemma foldl_alter_well_formed {I : Type}
    (f : heap -> I -> list number -> list number) (this : loc) (l : list I) :
  (forall h i a, length a = 9%nat /\ Forall float32 a ->
                 length (f h i a) = 9%nat /\ Forall float32 (f h i a)) ->
  forall h, well_formed h ->
    well_formed (foldl (fun h i => alter (f h i) this h) h l).
Proof.
  intros Hf. induction l as [|i l IH]; intros h Hh; [exact Hh|].
  simpl. apply IH. apply alter_well_formed; [apply Hf|exact Hh].
Qed.

Lemma set_well_formed (this : loc) m11 m12 m13 m21 m22 m23 m31 m32 m33 (h : heap) :
  well_formed h ->
  well_formed (Matrix3.set this m11 m12 m13 m21 m22 m23 m31 m32 m33 h).
Proof.
  intros Hh. unfold Matrix3.set. apply alter_well_formed; [|exact Hh].
  intros a Ha. cbv zeta. repeat apply store_float32. exact Ha.
Qed.

Lemma new_well_formed (h : heap) : well_formed h -> well_formed (Matrix3.new h).2.
Proof.
  intros Hh. unfold Matrix3.new. cbn [snd]. unfold Matrix3.makeIdentity.
  apply set_well_formed. intros o a Ho.
  destruct (decide (o = fresh (dom h))) as [->|Hne].
  - rewrite lookup_insert_eq in Ho. injection Ho as <-.
    split; [reflexivity|]. repeat constructor.
  - rewrite lookup_insert_ne in Ho by congruence. exact (Hh o a Ho).
Qed.

Lemma clone_well_formed (this : loc) (h : heap) :
  well_formed h -> well_formed (Matrix3.clone this h).2.
Proof.
  intros Hh. rewrite clone_unfold. cbn [snd].
  apply (foldl_alter_well_formed
           (fun h' i e => store e i (Matrix3.elements h' this).[i])).
  - intros h' i a. apply store_float32.
  - apply new_well_formed. exact Hh.
Qed.

(** X9.  The class invariant of [Matrix3]: the empty heap satisfies it, the
    constructor and [clone] establish it for the object they create, and
    every mutating method keeps it for every object, whatever the
    arguments (NaN and the infinities included). *)
Theorem Matrix3_invariant (Math_cos Math_sin : number -> number) :
  well_formed ∅ /\
  (forall h, well_formed h -> well_formed (Matrix3.new h).2) /\
  (forall h this, well_formed h -> well_formed (Matrix3.clone this h).2) /\
  (forall h this c,
     well_formed h -> well_formed (invoke Math_cos Math_sin this c h)).
Proof.
  split; [intros o a Ho; rewrite lookup_empty in Ho; discriminate|].
  split; [exact new_well_formed|].
  split; [intros h this; apply clone_well_formed|].
  intros h this c Hh. destruct c; cbn [invoke];
    unfold Matrix3.makeIdentity, Matrix3.makeScale, Matrix3.makeRotation,
      Matrix3.makeTranslation, Matrix3.makeOrthographic, Matrix3.multiplyMatrix;
    try (apply set_well_formed; exact Hh).
  - unfold Matrix3.multiplyScalar.
    apply (foldl_alter_well_formed (fun _ i e => store e i (e.[i] * s)%num));
      [|exact Hh].
    intros h' i a. apply store_float32.
  - unfold Matrix3.copy.
    apply (foldl_alter_well_formed
             (fun h' i e => store e i (Matrix3.elements h' m).[i])); [|exact Hh].
    intros h' i a. apply store_float32.
Qed.

End Invariant.

Section MatrixMethods.
Import Float32Array.
Local Open Scope num_scope.

Lemma same_add_zero_r (v w z : number) :
  same v w -> is_zero z = true -> same (v + z) w.
Proof.
  intros [->|[Hv Hw]] Hz.
  - destruct z as [sz| | |]; try discriminate.
    destruct w as [[]|[]| |[]]; destruct sz;
      solve [left; reflexivity | right; split; reflexivity].
  - right. split; [apply fadd_zero_zero; assumption|exact Hw].
Qed.

Lemma same_add_zero_l (z v w : number) :
  is_zero z = true -> same v w -> same (z + v) w.
Proof.
  intros Hz [->|[Hv Hw]].
  - destruct z as [sz| | |]; try discriminate.
    destruct w as [[]|[]| |[]]; destruct sz;
      solve [left; reflexivity | right; split; reflexivity].
  - right. split; [apply fadd_zero_zero; assumption|exact Hw].
Qed.

(** Zeros of either sign are interchangeable in a sum. *)
Lemma same_add_r (v w u : number) : same v w -> same (v + u) (w + u).
Proof.
  intros [->|[Hv Hw]]; [left; reflexivity|].
  destruct v as [sv| | |], w as [sw| | |]; try discriminate.
  destruct u as [su|su| |su mu eu].
  - right. destruct sv, sw, su; split; reflexivity.
  - left. reflexivity.
  - left. reflexivity.
  - left. reflexivity.
Qed.

Lemma fmul_1_1 : 1 * 1 = 1.
Proof. reflexivity. Qed.

(** [set] takes the matrix row by row, and [multiplyVector] applies that
    matrix. *)
Lemma multiplyVector_set (this : loc) m11 m12 m13 m21 m22 m23 m31 m32 m33
    (v : Vector3.t) (h : heap) (e : list number) :
  h !! this = Some e -> length e = 9%nat ->
  Matrix3.multiplyVector this v
    (Matrix3.set this m11 m12 m13 m21 m22 m23 m31 m32 m33 h)
  = {| Vector3.x := fround m11 * Vector3.x v + fround m12 * Vector3.y v
                    + fround m13 * Vector3.z v;
       Vector3.y := fround m21 * Vector3.x v + fround m22 * Vector3.y v
                    + fround m23 * Vector3.z v;
       Vector3.z := fround m31 * Vector3.x v + fround m32 * Vector3.y v
                    + fround m33 * Vector3.z v |}.
Proof.
  intros He Hlen. unfold Matrix3.multiplyVector.
  rewrite (set_elements _ _ _ _ _ _ _ _ _ _ _ _ He Hlen). reflexivity.
Qed.

(** X10.  [makeTranslation(tx, ty)] moves a finite point by the translation as
    stored (rounded to binary32), up to the sign of a zero. *)
Theorem makeTranslation_translates (this : loc) (tx ty px py : number)
    (h : heap) (e : list number) :
  h !! this = Some e -> length e = 9%nat -> finite64 px -> finite64 py ->
  let v := Matrix3.multiplyVector this
             {| Vector3.x := px; Vector3.y := py; Vector3.z := 1 |}
             (Matrix3.makeTranslation this tx ty h) in
  same (Vector3.x v) (px + fround tx) /\
  same (Vector3.y v) (py + fround ty) /\
  Vector3.z v = 1.
Proof.
  intros He Hlen [Hpx Hpx64] [Hpy Hpy64]. cbv zeta.
  unfold Matrix3.makeTranslation.
  rewrite (multiplyVector_set _ _ _ _ _ _ _ _ _ _ _ _ _ He Hlen).
  cbn [Vector3.x Vector3.y Vector3.z].
  change (fround 1) with 1. change (fround 0) with 0.
  rewrite !(fmul_1_r (fround _)) by apply fround_binary64.
  rewrite !fmul_1_l by assumption.
  split; [|split].
  - apply same_add_r. apply same_add_zero_r; [apply same_refl|].
    apply fmul_0_l. exact Hpy.
  - apply same_add_r. apply same_add_zero_l; [|apply same_refl].
    apply fmul_0_l. exact Hpx.
  - pose proof (fmul_0_l px Hpx) as H1. pose proof (fmul_0_l py Hpy) as H2.
    destruct (0 * px) as [[]| | |], (0 * py) as [[]| | |];
      try discriminate; reflexivity.
Qed.

Lemma finite64_3 : finite64 3.
Proof. split; reflexivity. Qed.

Lemma finite64_4 : finite64 4.
Proof. split; reflexivity. Qed.

Lemma makeTranslation_translates_witness :
  let v := Matrix3.multiplyVector 1%positive
             {| Vector3.x := 3; Vector3.y := 4; Vector3.z := 1 |}
             (Matrix3.makeTranslation 1%positive 10 20 (Matrix3.new ∅).2) in
  same (Vector3.x v) (3 + fround 10) /\
  same (Vector3.y v) (4 + fround 20) /\
  Vector3.z v = 1.
Proof.
  exact (makeTranslation_translates 1%positive 10 20 3 4 (Matrix3.new ∅).2 _
           (new_lookup ∅) eq_refl finite64_3 finite64_4).
Defined.

(** X11.  [makeScale(sx, sy)] multiplies the coordinates of a finite vector by the
    factors as stored and keeps its third coordinate, up to the sign of a
    zero. *)
Theorem makeScale_scales (this : loc) (sx sy : number) (v : Vector3.t)
    (h : heap) (e : list number) :
  h !! this = Some e -> length e = 9%nat ->
  finite64 (Vector3.x v) -> finite64 (Vector3.y v) -> finite64 (Vector3.z v) ->
  let v' := Matrix3.multiplyVector this v (Matrix3.makeScale this sx sy h) in
  same (Vector3.x v') (fround sx * Vector3.x v) /\
  same (Vector3.y v') (fround sy * Vector3.y v) /\
  same (Vector3.z v') (Vector3.z v).
Proof.
  intros He Hlen [Hx Hx64] [Hy Hy64] [Hz Hz64]. cbv zeta.
  unfold Matrix3.makeScale.
  rewrite (multiplyVector_set _ _ _ _ _ _ _ _ _ _ _ _ _ He Hlen).
  cbn [Vector3.x Vector3.y Vector3.z].
  change (fround 1) with 1. change (fround 0) with 0.
  rewrite fmul_1_l by assumption.
  split; [|split].
  - apply same_add_zero_r; [|apply fmul_0_l; exact Hz].
    apply same_add_zero_r; [apply same_refl|apply fmul_0_l; exact Hy].
  - apply same_add_zero_r; [|apply fmul_0_l; exact Hz].
    apply same_add_zero_l; [apply fmul_0_l; exact Hx|apply same_refl].
  - apply same_add_zero_l; [|apply same_refl].
    apply fadd_zero_zero; apply fmul_0_l; assumption.
Qed.

Lemma makeScale_scales_witness :
  let v := {| Vector3.x := 3; Vector3.y := 4; Vector3.z := 3 |} in
  let v' := Matrix3.multiplyVector 1%positive v
              (Matrix3.makeScale 1%positive 2 5 (Matrix3.new ∅).2) in
  same (Vector3.x v') (fround 2 * 3) /\
  same (Vector3.y v') (fround 5 * 4) /\
  same (Vector3.z v') 3.
Proof.
  exact (makeScale_scales 1%positive 2 5
           {| Vector3.x := 3; Vector3.y := 4; Vector3.z := 3 |}
           (Matrix3.new ∅).2 _ (new_lookup ∅) eq_refl
           finite64_3 finite64_4 finite64_3).
Defined.

End MatrixMethods.

Section MoreMethods.
Import Float32Array.
Local Open Scope num_scope.

(** Storing into a cell the binary32 value it holds changes nothing. *)
Lemma store_same (a : list number) (i : nat) (v : number) :
  Forall float32 a -> (forall x, a !! i = Some x -> v = x) -> store a i v = a.
Proof.
  intros Ha Hv. unfold store. destruct (a !! i) as [x|] eqn:Hx.
  - rewrite (Hv x eq_refl).
    rewrite (proj2 (proj1 (Forall_lookup _ _) Ha i x Hx)).
    apply list_insert_id. exact Hx.
  - apply list_insert_ge. apply lookup_ge_None. exact Hx.
Qed.

Lemma load_lookup (a : list number) (i : nat) (x : number) :
  a !! i = Some x -> a.[i] = x.
Proof.
  intros Hx. unfold load. apply nth_lookup_Some with (d := NaN) in Hx. exact Hx.
Qed.

Lemma foldl_alter_same {I : Type} (f : heap -> I -> list number -> list number)
    (this : loc) (a : list number) (l : list I) :
  (forall h i, h !! this = Some a -> f h i a = a) ->
  forall h, h !! this = Some a ->
    foldl (fun h i => alter (f h i) this h) h l = h.
Proof.
  intros Hf. induction l as [|i l IH]; intros h Hh; [reflexivity|].
  simpl.
  assert (Hstep : alter (f h i) this h = h).
  { apply map_eq. intros o. destruct (decide (o = this)) as [->|Hne].
    - rewrite lookup_alter_eq, Hh. simpl. rewrite (Hf h i Hh). reflexivity.
    - apply lookup_alter_ne. congruence. }
  rewrite Hstep. apply IH. exact Hh.
Qed.

(** X12.  [multiplyScalar(1)] changes nothing, whatever the matrix holds
    (infinities and NaN included). *)
Theorem multiplyScalar_one (this : loc) (h : heap) :
  well_formed h -> Matrix3.multiplyScalar this 1 h = h.
Proof.
  intros Hh. unfold Matrix3.multiplyScalar.
  destruct (h !! this) as [a|] eqn:Ha.
  - destruct (Hh this a Ha) as [Hlen Hall].
    apply (foldl_alter_same (fun _ i e => store e i (e.[i] * 1)) this a);
      [|exact Ha].
    intros _ i _. apply store_same; [exact Hall|].
    intros x Hx. rewrite (load_lookup a i x Hx).
    apply fmul_1_r. exact (proj1 (proj1 (Forall_lookup _ _) Hall i x Hx)).
  - induction (seq 0 9) as [|i l IH]; [reflexivity|]. simpl.
    assert (Hstep : alter (fun e => store e i (e.[i] * 1)) this h = h).
    { apply map_eq. intros o. destruct (decide (o = this)) as [->|Hne].
      - rewrite lookup_alter_eq, Ha. reflexivity.
      - apply lookup_alter_ne. congruence. }
    rewrite Hstep. exact IH.
Qed.

Lemma new_well_formed_empty : well_formed (Matrix3.new ∅).2.
Proof.
  apply new_well_formed. intros o a Ho. rewrite lookup_empty in Ho. discriminate.
Qed.

Lemma multiplyScalar_one_witness :
  Matrix3.multiplyScalar 1%positive 1 (Matrix3.new ∅).2 = (Matrix3.new ∅).2.
Proof.
  exact (multiplyScalar_one 1%positive (Matrix3.new ∅).2 new_well_formed_empty).
Defined.

(** X13.  [copy(m)] leaves in the receiver the elements of [m], leaves [m] as it
    was, and touches no other matrix; copying a matrix onto itself changes
    nothing. *)
Theorem copy_copies (this m : loc) (h : heap) (a b : list number) :
  well_formed h -> h !! this = Some b -> h !! m = Some a ->
  Matrix3.copy this m h !! this = Some a /\
  Matrix3.copy this m h !! m = Some a /\
  (forall o, o <> this -> Matrix3.copy this m h !! o = h !! o) /\
  (this = m -> Matrix3.copy this m h = h).
Proof.
  intros Hh Hthis Hm.
  destruct (Hh m a Hm) as [Hlena Halla]. destruct (Hh this b Hthis) as [Hlenb _].
  assert (Hother : forall o, o <> this -> Matrix3.copy this m h !! o = h !! o).
  { intros o Hne. unfold Matrix3.copy.
    apply (foldl_alter_lookup_ne
             (fun h i e => store e i (Matrix3.elements h m).[i])). exact Hne. }
  assert (Hself : this = m -> Matrix3.copy this m h = h).
  { intros ->. unfold Matrix3.copy.
    apply (foldl_alter_same
             (fun h' i e => store e i (Matrix3.elements h' m).[i]) m a);
      [|exact Hm].
    intros h' i Hh'. apply store_same; [exact Halla|].
    intros x Hx. unfold Matrix3.elements. rewrite Hh'. simpl.
    apply load_lookup. exact Hx. }
  destruct (decide (this = m)) as [Heq|Hne].
  - rewrite (Hself Heq). subst m. repeat split; assumption.
  - assert (Hres : Matrix3.copy this m h !! this = Some a).
    { unfold Matrix3.copy.
      rewrite (foldl_copy_lookup m this a (seq 0 9) (not_eq_sym Hne) h b Hm Hthis).
      do 10 (destruct a as [|? a]; try discriminate Hlena).
      do 10 (destruct b as [|? b]; try discriminate Hlenb).
      repeat match goal with
             | H : Forall _ (_ :: _) |- _ =>
                 apply Forall_cons in H; destruct H as [[_ ?] H]
             end.
      simpl. unfold store, load. simpl.
      repeat match goal with H : fround _ = _ |- _ => rewrite H; clear H end.
      reflexivity. }
    split; [exact Hres|]. split; [rewrite Hother by congruence; exact Hm|].
    split; [exact Hother|]. intros Heq. contradiction.
Qed.

Lemma copy_copies_witness :
  let h := identity_and_scale 2 3 in
  Matrix3.copy 1%positive 2%positive h !! 1%positive
    = Some [2; 0; 0; 0; 3; 0; 0; 0; 1] /\
  Matrix3.copy 1%positive 2%positive h !! 2%positive
    = Some [2; 0; 0; 0; 3; 0; 0; 0; 1].
Proof.
  assert (Hwf : well_formed (identity_and_scale 2 3)).
  { unfold identity_and_scale, Matrix3.makeScale. apply set_well_formed.
    apply new_well_formed. exact new_well_formed_empty. }
  destruct (copy_copies 1%positive 2%positive (identity_and_scale 2 3)
              [2; 0; 0; 0; 3; 0; 0; 0; 1] identity_elements Hwf eq_refl eq_refl)
    as (H1 & H2 & _).
  split; assumption.
Defined.

(** X14.  The constructor: [new Matrix3()] takes an address that was not in use,
    leaves the identity there and changes no existing matrix; applied to a
    finite vector, the new matrix returns it (up to the sign of a zero). *)
Theorem new_is_identity (h : heap) (v : Vector3.t) :
  finite64 (Vector3.x v) -> finite64 (Vector3.y v) -> finite64 (Vector3.z v) ->
  let m := (Matrix3.new h).1 in
  let h' := (Matrix3.new h).2 in
  h !! m = None /\
  h' !! m = Some identity_elements /\
  (forall o, o <> m -> h' !! o = h !! o) /\
  same (Vector3.x (Matrix3.multiplyVector m v h')) (Vector3.x v) /\
  same (Vector3.y (Matrix3.multiplyVector m v h')) (Vector3.y v) /\
  same (Vector3.z (Matrix3.multiplyVector m v h')) (Vector3.z v).
Proof.
  intros Hx Hy Hz. cbv zeta.
  split; [apply new_fresh|]. split; [apply new_lookup|].
  split; [intros o; apply new_lookup_ne|].
  unfold Matrix3.multiplyVector, Matrix3.elements. rewrite new_lookup.
  cbn [default from_option id load nth Vector3.x Vector3.y Vector3.z].
  split; [apply dot_100_l; assumption|].
  split; [apply dot_010_l; assumption|apply dot_001_l; assumption].
Qed.

Lemma new_is_identity_witness :
  let v := {| Vector3.x := 3; Vector3.y := 4; Vector3.z := 3 |} in
  same (Vector3.x (Matrix3.multiplyVector 1%positive v (Matrix3.new ∅).2)) 3 /\
  same (Vector3.y (Matrix3.multiplyVector 1%positive v (Matrix3.new ∅).2)) 4.
Proof.
  destruct (new_is_identity ∅ {| Vector3.x := 3; Vector3.y := 4; Vector3.z := 3 |}
              finite64_3 finite64_4 finite64_3) as (_ & _ & _ & Hx & Hy & _).
  split; assumption.
Defined.

End MoreMethods.

(** ** The projection of the page *)

Section Symmetric.
Import Script.
Local Open Scope Z_scope.

(** The sum of a normal value with itself: the exponent goes up by one. *)
Lemma fsub_opposite (m : positive) (e : Z) :
  Zpos (digits2_pos m) = 53 -> -400 <= e <= 400 ->
  fsub (S754_finite false m e) (S754_finite true m e) = S754_finite false m (e + 1).
Proof.
  intros Hd He. unfold fsub, SFsub.
  rewrite Z.min_id. unfold shl_align. rewrite Z.sub_diag. cbn [fst cond_Zopp].
  replace (Zpos m - - Zpos m) with (Zpos m~0) by lia.
  unfold binary_normalize, binary_round, shl_align.
  cbn [digits2_pos]. rewrite Pos2Z.inj_succ, Hd.
  unfold fexp, emin, prec, emax. rewrite Z.max_l by lia.
  replace (Z.succ 53 + e - 53 - e) with 1 by lia.
  unfold binary_round_aux.
  assert (H1 : shr_fexp 53 1024 (Zpos m~0) e loc_Exact
               = ({| shr_m := Zpos m; shr_r := false; shr_s := false |}, e + 1)).
  { unfold shr_fexp, Zdigits2, fexp, emin. cbn [digits2_pos].
    rewrite Pos2Z.inj_succ, Hd. rewrite Z.max_l by lia.
    replace (Z.succ 53 + e - 53 - e) with 1 by lia.
    cbn [shr shr_record_of_loc SpecFloat.iter_pos shr_1 orb]. reflexivity. }
  rewrite H1. cbn [shr_m loc_of_shr_record round_nearest_even].
  assert (H2 : shr_fexp 53 1024 (Zpos m) (e + 1) loc_Exact
               = ({| shr_m := Zpos m; shr_r := false; shr_s := false |}, e + 1)).
  { unfold shr_fexp, Zdigits2, fexp, emin. rewrite Hd. rewrite Z.max_l by lia.
    replace (53 + (e + 1) - 53 - (e + 1)) with 0 by lia. reflexivity. }
  rewrite H2. cbn [shr_m].
  replace (e + 1 <=? 1024 - 53) with true by (symmetry; apply Z.leb_le; lia).
  reflexivity.
Qed.

(** The sum of a value and its opposite is +0. *)
Lemma fadd_opposite (m : positive) (e : Z) :
  fadd (S754_finite false m e) (S754_finite true m e) = S754_zero false.
Proof.
  unfold fadd, SFadd. rewrite Z.min_id. unfold shl_align. rewrite Z.sub_diag.
  cbn [fst cond_Zopp]. rewrite Z.add_opp_diag_r. reflexivity.
Qed.

Local Open Scope num_scope.

(** The bounds [resizeCanvas] hands to [makeOrthographic] for a side of
    [n] pixels, [0 < n < 2^32]: their difference is [n] and their sum is 0. *)
Lemma symmetric_bounds (n : N) :
  (0 < n < 2 ^ 32)%N ->
  of_N n / 2 - (- of_N n) / 2 = of_N n /\
  of_N n / 2 + (- of_N n) / 2 = 0 /\
  exists e, normal (of_N n) e /\ (-52 <= e <= -21)%Z.
Proof.
  intros Hn. destruct (of_N_cases n (proj2 Hn)) as [[H0 _]|(e & Hnorm & He)]; [lia|].
  destruct Hnorm as (m & Hm & Hd) eqn:Hnormal. clear Hnormal.
  assert (Hneg : - of_N n = S754_finite true m e) by (rewrite Hm; reflexivity).
  rewrite Hneg, Hm.
  rewrite !fdiv_2_exact by (assumption || lia).
  split; [|split].
  - rewrite fsub_opposite by (assumption || lia). f_equal. lia.
  - apply fadd_opposite.
  - exists e. split; [exists m; split; [reflexivity|exact Hd]|exact He].
Qed.

Lemma two_normal : normal 2 (-51).
Proof. eexists. split; reflexivity. Qed.

(** [2 / n] is stored as a finite binary32 value. *)
Lemma scale_finite32 (n : N) : (0 < n < 2 ^ 32)%N -> finite32 (fround (2 / of_N n)).
Proof.
  intros Hn. destruct (symmetric_bounds n Hn) as (_ & _ & e & Hnorm & He).
  destruct (fdiv_normal 2 (of_N n) (-51) e two_normal Hnorm ltac:(lia) ltac:(lia))
    as (e' & (m' & Hq & Hd') & He').
  split; [split|].
  - rewrite Hq. apply fround_finite. lia.
  - apply fround_binary64.
  - apply fround_idempotent.
Qed.

Lemma zero_finite32 (s : bool) : finite32 (S754_zero s).
Proof. repeat split. Qed.

Lemma one_finite32 : finite32 1.
Proof. repeat split. Qed.

Lemma projection_finite32 (w h : N) :
  (0 < w < 2 ^ 32)%N -> (0 < h < 2 ^ 32)%N -> Forall finite32 (projection w h).
Proof.
  intros Hw Hh. unfold projection.
  repeat constructor; try apply scale_finite32; assumption.
Qed.

Lemma resizeCanvas_allocates (p : Page) :
  exists pm a,
    pMatrix (resizeCanvas p) = Some pm /\ mem p !! pm = None /\
    mem (resizeCanvas p) !! pm = Some a /\
    (forall o, o <> pm -> mem (resizeCanvas p) !! o = mem p !! o) /\
    (canvas_width (resizeCanvas p) <> 0%N -> canvas_height (resizeCanvas p) <> 0%N ->
     a = projection (canvas_width (resizeCanvas p)) (canvas_height (resizeCanvas p))).
Proof.
  destruct (resizeCanvas_bound p) as [Hbw Hbh]. revert Hbw Hbh.
  unfold resizeCanvas. cbn [canvas_width canvas_height with_canvas mem].
  set (w := reflected 300 (innerWidth p)). set (h0 := reflected 150 (innerHeight p)).
  pose proof (new_fresh (mem p)) as Hfresh.
  pose proof (new_lookup (mem p)) as Hnew.
  pose proof (new_lookup_ne (mem p)) as Hother.
  destruct (Matrix3.new (mem p)) as [m h]. cbn [fst snd] in *.
  cbn [with_matrices pMatrix mem canvas_width canvas_height].
  intros Hbw Hbh.
  pose proof (set_elements m) as Hset.
  unfold Matrix3.makeOrthographic.
  specialize (Hset (2 / (of_N w / 2 - (- of_N w) / 2))
                0 0 0
                (2 / (of_N h0 / 2 - (- of_N h0) / 2))
                0
                (- (of_N w / 2 + (- of_N w) / 2) / (of_N w / 2 - (- of_N w) / 2))
                (- (of_N h0 / 2 + (- of_N h0) / 2) / (of_N h0 / 2 - (- of_N h0) / 2))
                1 h _ Hnew eq_refl).
  unfold Matrix3.elements in Hset.
  destruct (Matrix3.set m _ _ _ _ _ _ _ _ _ h !! m) as [a|] eqn:Ha;
    [|discriminate Hset].
  exists m, a. split; [reflexivity|]. split; [exact Hfresh|].
  split; [exact Ha|]. split.
  - intros o Ho. rewrite set_lookup_ne by exact Ho. apply Hother. exact Ho.
  - intros Hw Hh.
    change (canvas_width (with_canvas p w h0)) with w in *.
    change (canvas_height (with_canvas p w h0)) with h0 in *.
    destruct (symmetric_bounds w ltac:(lia)) as (Hw1 & Hw2 & ew & (mw & Hmw & _) & _).
    destruct (symmetric_bounds h0 ltac:(lia)) as (Hh1 & Hh2 & eh & (mh & Hmh & _) & _).
    simpl in Hset. rewrite Hset.
    rewrite Hw1, Hw2, Hh1, Hh2. unfold projection. rewrite Hmw, Hmh. reflexivity.
Qed.

(** X15.  [resizeCanvas], for a window whose sides are between 1 and
    2^31 - 1: the canvas takes the size of the window and [pMatrix] becomes
    a new matrix, at an address not in use before, holding the scales [2/w]
    and [2/h] rounded to binary32 and zeros in its translation cells, all of
    them finite; no existing matrix and no other global changes. *)
Theorem resizeCanvas_projection (p : Page) :
  (0 < innerWidth p < 2 ^ 31)%N -> (0 < innerHeight p < 2 ^ 31)%N ->
  let p' := resizeCanvas p in
  canvas_width p' = innerWidth p /\ canvas_height p' = innerHeight p /\
  (exists pm,
     pMatrix p' = Some pm /\ mem p !! pm = None /\
     mem p' !! pm = Some (projection (innerWidth p) (innerHeight p)) /\
     (forall o, o <> pm -> mem p' !! o = mem p !! o)) /\
  Forall finite32 (projection (innerWidth p) (innerHeight p)) /\
  mouseX p' = mouseX p /\ mouseY p' = mouseY p /\ console p' = console p.
Proof.
  intros Hw Hh. cbv zeta.
  destruct (resizeCanvas_allocates p) as (pm & a & Hpm & Hfresh & Ha & Hother & Hproj).
  destruct (resizeCanvas_canvas p) as (Hcw & Hch & _).
  rewrite (reflected_small 300 _ (proj2 Hw)) in Hcw.
  rewrite (reflected_small 150 _ (proj2 Hh)) in Hch.
  rewrite Hcw, Hch in Hproj.
  rewrite (Hproj ltac:(lia) ltac:(lia)) in Ha.
  split; [exact Hcw|]. split; [exact Hch|].
  split; [exists pm; repeat split; assumption|].
  split; [apply projection_finite32;
          change (2 ^ 31)%N with 2147483648%N in *;
          change (2 ^ 32)%N with 4294967296%N; lia|].
  unfold resizeCanvas. destruct (Matrix3.new _) as [m h]. repeat split.
Qed.

Lemma resizeCanvas_projection_witness :
  let p' := resizeCanvas (Sample.page 800 600) in
  canvas_width p' = 800%N /\ canvas_height p' = 600%N /\
  mem p' !! 1%positive = Some (projection 800 600) /\
  Forall finite32 (projection 800 600).
Proof.
  destruct (resizeCanvas_projection (Sample.page 800 600))
    as (Hw & Hh & (pm & Hpm & _ & Ha & _) & Hfin & _);
    [cbn; lia|cbn; lia|].
  split; [exact Hw|]. split; [exact Hh|]. split; [|exact Hfin].
  injection Hpm as <-. exact Ha.
Defined.

End Symmetric.

(** ** Frames and events *)

Section Frame.
Import Script.
Import Float32Array.
Local Open Scope num_scope.

Ltac nine_cells a Hlen Hfin :=
  do 10 (destruct a as [|? a]; try discriminate Hlen);
  repeat match goal with
         | H : Forall _ (_ :: _) |- _ =>
             apply Forall_cons in H; destruct H as [[? ?] H]
         end.

Ltac frame_cell lemma :=
  apply same_feq; [match goal with H : finite64 ?v |- is_finite ?v = true => apply H end|];
  do 2 (apply same_fround; [assumption|]);
  apply lemma; assumption.

Lemma finite32_matrix_array (a : list number) :
  length a = 9%nat -> Forall finite32 a -> matrix_array a.
Proof.
  intros Hlen Hfin. split; [exact Hlen|].
  eapply Forall_impl; [exact Hfin|]. intros v [_ Hv]. exact Hv.
Qed.

Lemma updateAndRender_state (now : number) (p : Page) (g : GL)
    (pm : loc) (a : list number) :
  pMatrix p = Some pm -> mem p !! pm = Some a ->
  exists h' u,
    updateAndRender now p g
    = Returns
        (with_matrices p h' (Some pm),
         {| program := program g; currentProgram := Some (program g);
            u_mpMatrix := u;
            u_mousePosition := [fround (mouseX p); fround (mouseY p)];
            u_time := fround ((now - startTime p) * milli);
            positionBuffer := positionBuffer g; vertexCount := vertexCount g;
            drawn := vertexCount g :: drawn g; frameRequested := true |}) /\
    (forall o b, mem p !! o = Some b -> h' !! o = Some b) /\
    (length a = 9%nat -> Forall finite32 a ->
     Forall2 (fun r v => (r === v) = true) u a).
Proof.
  intros Hpm Ha. unfold updateAndRender. rewrite Hpm.
  pose proof (new_lookup (mem p)) as Hid.
  pose proof (new_lookup_ne (mem p)) as Hnew.
  pose proof (fun o b (H : mem p !! o = Some b) => allocated_ne_fresh (mem p) o b H)
    as Hne1.
  destruct (Matrix3.new (mem p)) as [mMatrix h1]. cbn [fst snd] in *.
  set (h2 := Matrix3.makeTranslation mMatrix 0 0 h1).
  assert (Hh2 : forall o b, mem p !! o = Some b -> h2 !! o = Some b).
  { intros o b Hb. unfold h2, Matrix3.makeTranslation.
    rewrite set_lookup_ne by (eapply Hne1; exact Hb).
    rewrite Hnew by (eapply Hne1; exact Hb). exact Hb. }
  assert (Hm2 : h2 !! mMatrix = Some identity_elements).
  { pose proof (set_elements mMatrix 1 0 0 0 1 0 0 0 1 h1 _ Hid eq_refl) as Hset.
    unfold Matrix3.elements in Hset. unfold h2, Matrix3.makeTranslation.
    destruct (Matrix3.set mMatrix 1 0 0 0 1 0 0 0 1 h1 !! mMatrix) as [e|];
      [|discriminate Hset].
    simpl in Hset. rewrite Hset. reflexivity. }
  pose proof (fun H => clone_lookup pm h2 a (Hh2 _ _ Ha) H) as Hmp.
  pose proof (clone_lookup_ne pm) as Hclone. specialize (fun o => Hclone o h2).
  assert (Hfr : forall o b, h2 !! o = Some b -> o <> (Matrix3.clone pm h2).1).
  { intros o b Hb. rewrite clone_loc. eapply allocated_ne_fresh. exact Hb. }
  destruct (Matrix3.clone pm h2) as [mpMatrix h3]. cbn [fst snd] in *.
  assert (Hm3 : h3 !! mMatrix = Some identity_elements).
  { rewrite Hclone by (eapply Hfr; exact Hm2). exact Hm2. }
  eexists _, _. split; [reflexivity|]. split.
  - intros o b Hb. unfold Matrix3.multiplyMatrix.
    rewrite set_lookup_ne by (eapply Hfr; apply Hh2; exact Hb).
    rewrite Hclone by (eapply Hfr; apply Hh2; exact Hb).
    apply Hh2. exact Hb.
  - intros Hlen Hfin. specialize (Hmp (finite32_matrix_array a Hlen Hfin)).
    unfold Matrix3.multiplyMatrix.
    rewrite (set_elements _ _ _ _ _ _ _ _ _ _ _ _ Hmp Hlen).
    unfold Matrix3.elements. rewrite Hmp, Hm3.
    nine_cells a Hlen Hfin.
    cbn [default from_option id identity_elements load nth from fmap list_fmap].
    repeat constructor;
      first [frame_cell dot_100_r | frame_cell dot_010_r | frame_cell dot_001_r].
Qed.

(** X16.  One frame.  With [pMatrix] holding finite elements, [updateAndRender]
    returns; the matrix uniform holds the elements of [pMatrix] (compared
    with [===]), the pointer and time uniforms the rounded pointer position
    and the seconds since [startTime]; one draw call is issued for
    [vao.vertexCount] points and the next frame is requested; the buffer,
    [pMatrix] and every matrix that existed are as before. *)
Theorem updateAndRender_frame (now : number) (p : Page) (g : GL)
    (pm : loc) (a : list number) :
  pMatrix p = Some pm -> mem p !! pm = Some a ->
  length a = 9%nat -> Forall finite32 a ->
  exists p' g',
    updateAndRender now p g = Returns (p', g') /\
    Forall2 (fun r v => (r === v) = true) (u_mpMatrix g') a /\
    u_mousePosition g' = [fround (mouseX p); fround (mouseY p)] /\
    u_time g' = fround ((now - startTime p) * milli) /\
    drawn g' = vertexCount g :: drawn g /\
    frameRequested g' = true /\
    positionBuffer g' = positionBuffer g /\ vertexCount g' = vertexCount g /\
    pMatrix p' = Some pm /\
    (forall o b, mem p !! o = Some b -> mem p' !! o = Some b) /\
    canvas_width p' = canvas_width p /\ canvas_height p' = canvas_height p /\
    mouseX p' = mouseX p /\ mouseY p' = mouseY p /\ console p' = console p.
Proof.
  intros Hpm Ha Hlen Hfin.
  destruct (updateAndRender_state now p g pm a Hpm Ha) as (h' & u & Hret & Hmem & Hu).
  eexists _, _. split; [exact Hret|].
  split; [exact (Hu Hlen Hfin)|]. repeat split. exact Hmem.
Qed.

Lemma updateAndRender_frame_witness :
  exists p' g',
    updateAndRender 1000 (resizeCanvas (Sample.page 800 600)) Sample.gl_state
      = Returns (p', g') /\
    Forall2 (fun r v => (r === v) = true) (u_mpMatrix g') (projection 800 600) /\
    u_time g' = 1.
Proof.
  destruct (updateAndRender_frame 1000 (resizeCanvas (Sample.page 800 600))
              Sample.gl_state 1%positive (projection 800 600)
              eq_refl eq_refl eq_refl
              (projection_finite32 800 600 ltac:(cbn; lia) ltac:(cbn; lia)))
    as (p' & g' & Hret & Hu & _ & Ht & _).
  exists p', g'. split; [exact Hret|]. split; [exact Hu|]. exact Ht.
Defined.

End Frame.

Section Session.
Import Script.

Lemma cols_canvas (p p' : Page) :
  canvas_width p' = canvas_width p -> canvas_height p' = canvas_height p ->
  cols p' = cols p /\ rows p' = rows p.
Proof. intros Hw Hh. unfold cols, rows, step. rewrite Hw, Hh. split; reflexivity. Qed.

Lemma lattice_canvas (p p' : Page) (c r : nat) :
  canvas_width p' = canvas_width p -> canvas_height p' = canvas_height p ->
  lattice p' c r = lattice p c r.
Proof.
  intros Hw Hh. unfold lattice, grid_point, step. rewrite Hw, Hh. reflexivity.
Qed.

Lemma grid_shown_canvas (p p' : Page) (g g' : GL) :
  canvas_width p' = canvas_width p -> canvas_height p' = canvas_height p ->
  positionBuffer g' = positionBuffer g -> vertexCount g' = vertexCount g ->
  grid_shown p g -> grid_shown p' g'.
Proof.
  intros Hw Hh Hb Hv (c & r & Hc & Hr & Hbuf & Hcount).
  destruct (cols_canvas p p' Hw Hh) as [Hcols Hrows].
  exists c, r. rewrite Hcols, Hrows, Hb, Hv, (lattice_canvas p p' c r Hw Hh).
  repeat split; assumption.
Qed.

Lemma rebuildGrid_shown (p : Page) (g : GL) (fuel : nat) :
  (canvas_width p < 2 ^ 32)%N -> (canvas_height p < 2 ^ 32)%N ->
  (513 <= fuel)%nat ->
  exists g',
    rebuildGrid fuel p g = Some g' /\ grid_shown p g' /\
    drawn g' = drawn g /\ frameRequested g' = frameRequested g.
Proof.
  intros Hw Hh Hfuel.
  destruct (grid_counts p Hw Hh) as (c & r & Hc & Hr & Hcn & Hrn & _).
  rewrite (rebuildGrid_runs p g fuel c r Hc Hr Hcn Hrn Hfuel).
  eexists. split; [reflexivity|]. split; [|split; reflexivity].
  exists c, r. repeat split; assumption.
Qed.

Lemma resize_consistent (p : Page) (g : GL) (fuel : nat) (P : Page -> Page) :
  (innerWidth p < 2 ^ 31)%N -> (innerHeight p < 2 ^ 31)%N -> (513 <= fuel)%nat ->
  (forall q, canvas_width (P q) = canvas_width q /\
             canvas_height (P q) = canvas_height q /\
             innerWidth (P q) = innerWidth q /\
             innerHeight (P q) = innerHeight q /\
             pMatrix (P q) = pMatrix q /\ mem (P q) = mem q) ->
  exists g',
    rebuildGrid fuel (P (resizeCanvas p)) g = Some g' /\
    drawn g' = drawn g /\ frameRequested g' = frameRequested g /\
    (forall g'',
       positionBuffer g'' = positionBuffer g' -> vertexCount g'' = vertexCount g' ->
       frameRequested g'' = true ->
       Forall (fun d => exists n : nat, d = Some (of_nat n)) (drawn g'') ->
       consistent (P (resizeCanvas p), g'')).
Proof.
  intros Hw Hh Hfuel HP.
  destruct (HP (resizeCanvas p)) as (Pw & Ph & Piw & Pih & Ppm & Pmem).
  destruct (resizeCanvas_canvas p) as (Hcw & Hch & _).
  rewrite (reflected_small 300 _ Hw) in Hcw.
  rewrite (reflected_small 150 _ Hh) in Hch.
  assert (Hw32 : (innerWidth p < 2 ^ 32)%N)
    by (change (2 ^ 31)%N with 2147483648%N in Hw;
        change (2 ^ 32)%N with 4294967296%N; lia).
  assert (Hh32 : (innerHeight p < 2 ^ 32)%N)
    by (change (2 ^ 31)%N with 2147483648%N in Hh;
        change (2 ^ 32)%N with 4294967296%N; lia).
  assert (Hiw : innerWidth (resizeCanvas p) = innerWidth p
                /\ innerHeight (resizeCanvas p) = innerHeight p).
  { unfold resizeCanvas. destruct (Matrix3.new _). split; reflexivity. }
  destruct Hiw as [Hiw Hih].
  destruct (rebuildGrid_shown (P (resizeCanvas p)) g fuel) as (g' & Hg & Hshown & Hd & Hf);
    [rewrite Pw, Hcw; exact Hw32|rewrite Ph, Hch; exact Hh32|exact Hfuel|].
  exists g'. split; [exact Hg|]. split; [exact Hd|]. split; [exact Hf|].
  intros g'' Hb Hv Hreq Hdrawn.
  assert (Hshown' : grid_shown (P (resizeCanvas p)) g'')
    by (eapply grid_shown_canvas; [reflexivity|reflexivity|exact Hb|exact Hv|exact Hshown]).
  unfold consistent. cbn [fst snd].
  rewrite Pw, Ph, Piw, Pih, Ppm, Pmem, Hcw, Hch, Hiw, Hih.
  split; [reflexivity|]. split; [reflexivity|].
  split; [exact Hw32|]. split; [exact Hh32|].
  split; [|split; [exact Hshown'|split; [exact Hreq|exact Hdrawn]]].
  destruct (resizeCanvas_allocates p) as (pm & a & Hpm & _ & Ha & _ & Hproj).
  destruct (resizeCanvas_canvas p) as (Hcw' & Hch' & _).
  rewrite (reflected_small 300 _ Hw) in Hcw'.
  rewrite (reflected_small 150 _ Hh) in Hch'.
  rewrite Hcw', Hch' in Hproj.
  exists pm, a. split; [exact Hpm|]. split; [exact Ha|].
  intros Hw0 Hh0. apply Hproj; assumption.
Qed.

Lemma main_consistent (pf : Platform) (p : Page) (fuel : nat) :
  webgl2 pf = true ->
  (innerWidth p < 2 ^ 31)%N -> (innerHeight p < 2 ^ 31)%N -> (513 <= fuel)%nat ->
  exists s, main pf fuel p = Returns s /\ consistent s /\ drawn s.2 = [].
Proof.
  intros Hgl Hw Hh Hfuel.
  unfold main, getWebGL2Context. rewrite Hgl. cbn [negb].
  unfold createShader, createProgram. cbv beta iota zeta.
  set (vs := {| shader_type := VERTEX_SHADER; shader_source := vertexShaderSource |}).
  set (fs := {| shader_type := FRAGMENT_SHADER; shader_source := fragmentShaderSource |}).
  set (pr := {| attached := [vs; fs] |}).
  set (P := fun q : Page =>
              let p1 := if negb (COMPILE_STATUS pf vs)
                        then console_error q (getShaderInfoLog pf vs) else q in
              let p2 := if negb (COMPILE_STATUS pf fs)
                        then console_error p1 (getShaderInfoLog pf fs) else p1 in
              if negb (LINK_STATUS pf pr)
              then console_error p2 (getProgramInfoLog pf pr) else p2).
  change (if negb (LINK_STATUS pf pr) then _ else _) with (P (resizeCanvas p)).
  set (g0 := {| program := pr; currentProgram := Some pr;
                u_mpMatrix := Float32Array.new 9;
                u_mousePosition := Float32Array.new 2; u_time := 0%num;
                positionBuffer := []; vertexCount := None;
                drawn := []; frameRequested := false |}).
  destruct (resize_consistent p g0 fuel P Hw Hh Hfuel)
    as (g' & Hg & Hd & Hf & Hcons).
  { intros q. unfold P.
    destruct (COMPILE_STATUS pf vs), (COMPILE_STATUS pf fs), (LINK_STATUS pf pr);
      repeat split. }
  rewrite Hg. eexists. split; [reflexivity|]. split.
  - apply Hcons; try reflexivity.
    cbn [drawn requestAnimationFrame]. rewrite Hd. constructor.
  - cbn [snd drawn requestAnimationFrame]. exact Hd.
Qed.

Lemma pointer_consistent (x y : number) (p : Page) (g : GL) :
  consistent (p, g) -> consistent (updatePointerPosition x y p, g).
Proof. intros H. exact H. Qed.

Lemma task_consistent (fuel : nat) (t : Task) (s : Page * GL) :
  (513 <= fuel)%nat -> in_range t -> consistent s ->
  exists s',
    run_task fuel t (s.1, Some s.2) = Returns (s'.1, Some s'.2) /\ consistent s' /\
    length (drawn s'.2)
    = ((if is_frame t then 1 else 0) + length (drawn s.2))%nat.
Proof.
  intros Hfuel Ht Hs. destruct s as [p g].
  destruct t as [now|[clientX clientY|touches|touches|width height]];
    cbn [run_task dispatch fst snd is_frame].
  - destruct Hs as (Hcw & Hch & Hw & Hh & (pm & a & Hpm & Ha & Hproj) & Hgrid & Hreq & Hdrawn).
    cbn [fst snd] in *. rewrite Hreq.
    destruct (updateAndRender_state now p g pm a Hpm Ha) as (h' & u & Hret & Hmem & _).
    rewrite Hret. eexists (_, _). split; [reflexivity|]. split; [|reflexivity].
    unfold consistent. cbn [fst snd canvas_width canvas_height innerWidth innerHeight
                            with_matrices pMatrix mem frameRequested drawn].
    split; [exact Hcw|]. split; [exact Hch|]. split; [exact Hw|]. split; [exact Hh|].
    split; [exists pm, a; split; [reflexivity|split; [apply Hmem; exact Ha|exact Hproj]]|].
    split; [eapply grid_shown_canvas; [| | | |exact Hgrid]; reflexivity|].
    split; [reflexivity|].
    constructor; [|exact Hdrawn].
    destruct Hgrid as (c & r & _ & _ & _ & Hv). exists (r * c)%nat. exact Hv.
  - eexists (_, _). split; [reflexivity|]. split; [exact Hs|reflexivity].
  - eexists (_, _). split; [reflexivity|]. split; [|reflexivity].
    destruct touches as [|[cx cy] ?]; exact Hs.
  - eexists (_, _). split; [reflexivity|]. split; [|reflexivity].
    destruct touches as [|[cx cy] ?]; exact Hs.
  - destruct Ht as [Hw' Hh'].
    destruct Hs as (_ & _ & _ & _ & _ & _ & Hreq & Hdrawn). cbn [fst snd] in *.
    destruct (resize_consistent (with_window p width height) g fuel (fun q => q)
                Hw' Hh' Hfuel) as (g' & Hg & Hd & Hf & Hcons);
      [intros q; repeat split|].
    cbv beta in Hg, Hcons. rewrite Hg. eexists (_, _). split; [reflexivity|].
    cbn [snd]. split; [|rewrite Hd; reflexivity].
    apply Hcons; [reflexivity|reflexivity|rewrite Hf; exact Hreq|rewrite Hd; exact Hdrawn].
Qed.

(** X17.  The page keeps running.  Once [main] has returned (WebGL2 available,
    window sides below 2^31), whatever frames and events follow, in any
    order, with every resize to sides below 2^31, every one of them returns:
    nothing throws and each loop ends.  After them the canvas has the size
    of the window, [pMatrix] is the projection of that canvas, the vertex
    buffer holds the grid of that canvas with [vertexCount] its number of
    points, every frame issued its draw call with a count, and the next
    frame is requested. *)
Theorem page_keeps_running (pf : Platform) (p : Page) (fuel : nat) (ts : list Task) :
  webgl2 pf = true ->
  (innerWidth p < 2 ^ 31)%N -> (innerHeight p < 2 ^ 31)%N -> (513 <= fuel)%nat ->
  Forall in_range ts ->
  exists s1 s2,
    main pf fuel p = Returns s1 /\ consistent s1 /\
    run fuel ts (s1.1, Some s1.2) = Returns (s2.1, Some s2.2) /\ consistent s2 /\
    length (drawn s2.2) = length (List.filter is_frame ts).
Proof.
  intros Hgl Hw Hh Hfuel Hts.
  destruct (main_consistent pf p fuel Hgl Hw Hh Hfuel) as (s1 & Hmain & Hs1 & Hd1).
  exists s1.
  assert (Hrun : forall ts s, Forall in_range ts -> consistent s ->
            exists s2, run fuel ts (s.1, Some s.2) = Returns (s2.1, Some s2.2) /\
              consistent s2 /\
              length (drawn s2.2)
              = (length (List.filter is_frame ts) + length (drawn s.2))%nat).
  { clear Hts. intros ts'. induction ts' as [|t ts' IH]; intros s Hts Hs.
    - exists s. split; [reflexivity|]. split; [exact Hs|reflexivity].
    - apply Forall_cons in Hts. destruct Hts as [Ht Hts].
      destruct (task_consistent fuel t s Hfuel Ht Hs) as (s' & Hstep & Hs' & Hlen).
      destruct (IH s' Hts Hs') as (s2 & Hrest & Hs2 & Hlen2).
      exists s2. cbn [run]. rewrite Hstep. split; [exact Hrest|].
      split; [exact Hs2|]. rewrite Hlen2, Hlen. cbn [List.filter].
      destruct (is_frame t); cbn [length]; lia. }
  destruct (Hrun ts s1 Hts Hs1) as (s2 & Hr & Hs2 & Hlen).
  exists s2. rewrite Hd1 in Hlen. cbn [length] in Hlen. rewrite Nat.add_0_r in Hlen.
  split; [exact Hmain|]. split; [exact Hs1|]. split; [exact Hr|].
  split; [exact Hs2|exact Hlen].
Qed.

Lemma page_keeps_running_witness :
  exists s1 s2,
    main Sample.failing_driver 513 (Sample.page 4 2) = Returns s1 /\
    run 513 [frame 16%num; event (resize 6 2); event (mousemove 1%num 1%num);
             frame 32%num] (s1.1, Some s1.2) = Returns (s2.1, Some s2.2) /\
    consistent s2 /\ length (drawn s2.2) = 2%nat.
Proof.
  destruct (page_keeps_running Sample.failing_driver (Sample.page 4 2) 513
              [frame 16%num; event (resize 6 2); event (mousemove 1%num 1%num);
               frame 32%num])
    as (s1 & s2 & Hmain & _ & Hrun & Hs2 & Hlen).
  - reflexivity.
  - cbn. lia.
  - cbn. lia.
  - lia.
  - repeat constructor; cbn; lia.
  - exists s1, s2. split; [exact Hmain|]. split; [exact Hrun|].
    split; [exact Hs2|exact Hlen].
Defined.

End Session.

(** ** The vertex shader *)

Section Signs.
Local Open Scope Z_scope.
Variables prec emax : Z.

Lemma shr_fexp_nonneg (m e : Z) (l : location) :
  0 <= m -> 0 <= shr_m (fst (shr_fexp prec emax m e l)).
Proof.
  intros Hm. unfold shr_fexp, shr.
  assert (Hrec : shr_m (shr_record_of_loc m l) = m) by (destruct l as [|[]]; reflexivity).
  destruct (fexp prec emax (Zdigits2 m + e) - e) as [|n|n]; cbn [fst].
  - rewrite Hrec. exact Hm.
  - rewrite iter_pos_nat, shr_iter_m by (rewrite Hrec; exact Hm).
    rewrite Hrec. apply Z.div_pos; [exact Hm|]. apply Z.pow_pos_nonneg; lia.
  - rewrite Hrec. exact Hm.
Qed.

(** Rounding a magnitude gives a zero, a finite value or an infinity of
    the sign it was given. *)
Lemma binary_round_aux_sign (s : bool) (m e : Z) (l : location) :
  0 <= m -> signed s (binary_round_aux prec emax s m e l).
Proof.
  intros Hm. unfold binary_round_aux.
  pose proof (shr_fexp_nonneg m e l Hm) as H1.
  destruct (shr_fexp prec emax m e l) as [mrs1 e1]. cbn [fst] in H1.
  set (r := round_nearest_even (shr_m mrs1) (loc_of_shr_record mrs1)).
  assert (Hr : 0 <= r).
  { destruct (round_nearest_even_cases (shr_m mrs1) (loc_of_shr_record mrs1));
      unfold r; lia. }
  pose proof (shr_fexp_nonneg r e1 loc_Exact Hr) as H2.
  destruct (shr_fexp prec emax r e1 loc_Exact) as [mrs2 e2]. cbn [fst] in H2.
  destruct (shr_m mrs2) as [|m2|m2]; [reflexivity| |lia].
  destruct (e2 <=? emax - prec); reflexivity.
Qed.

Lemma binary_round_sign (s : bool) (m : positive) (e : Z) :
  signed s (binary_round prec emax s m e).
Proof.
  unfold binary_round. destruct (shl_align _ _ _) as [mz ez].
  apply binary_round_aux_sign. lia.
Qed.

Lemma binary_normalize_sign (z e : Z) :
  0 <= z -> signed false (binary_normalize prec emax z e false).
Proof.
  intros Hz. destruct z as [|p|p]; [reflexivity|apply binary_round_sign|lia].
Qed.

(** The quotient of two finite values has the product of their signs. *)
Lemma SFdiv_sign (sx sy : bool) (mx my : positive) (ex ey : Z) :
  signed (xorb sx sy)
    (SFdiv prec emax (S754_finite sx mx ex) (S754_finite sy my ey)).
Proof.
  unfold SFdiv, SFdiv_core_binary.
  set (s := ex - ey - _).
  set (m' := match s with Z.pos _ => Z.shiftl (Zpos mx) s | 0 => Zpos mx | Z.neg _ => 0 end).
  assert (Hm' : 0 <= m').
  { unfold m'. destruct s; try lia. apply Z.shiftl_nonneg. lia. }
  assert (Hq : 0 <= m' / Zpos my) by (apply Z.div_pos; lia).
  unfold Z.div in Hq.
  destruct (Z.div_eucl m' (Zpos my)) as [q r].
  apply binary_round_aux_sign. exact Hq.
Qed.

Lemma SFmul_comm (v w : spec_float) : SFmul prec emax v w = SFmul prec emax w v.
Proof.
  destruct v as [sv|sv| |sv mv ev], w as [sw|sw| |sw mw ew]; simpl;
    rewrite ?(xorb_comm sv sw); try reflexivity.
  rewrite (Pos.mul_comm mv mw), (Z.add_comm ev ew). reflexivity.
Qed.

Lemma SFcompare_refl (v : spec_float) :
  v <> S754_nan -> SFcompare v v = Some Eq.
Proof.
  destruct v as [s|s| |s m e]; intros Hv; try congruence.
  - reflexivity.
  - destruct s; reflexivity.
  - simpl. rewrite Z.compare_refl, Pos.compare_cont_refl. destruct s; reflexivity.
Qed.

Lemma iter_xO_pow (m d : positive) :
  Zpos (Pos.iter xO m d) = Zpos m * 2 ^ Zpos d.
Proof.
  induction d as [|d IH] using Pos.peano_ind.
  - simpl. lia.
  - rewrite Pos.iter_succ, Pos2Z.inj_xO, IH, Pos2Z.inj_succ, Z.pow_succ_r by lia. lia.
Qed.

End Signs.

Section SquareRoot.
Local Open Scope Z_scope.

Lemma Zdigits2_shift (m s : Z) :
  0 < m -> 0 <= s -> Zdigits2 (m * 2 ^ s) = Zdigits2 m + s.
Proof.
  intros Hm Hs. pose proof (Zdigits2_bounds m Hm) as Hb.
  pose proof (Zdigits2_nonneg m) as Hd.
  assert (Hd1 : 1 <= Zdigits2 m) by (destruct m; simpl in *; lia).
  assert (Hps : 0 < 2 ^ s) by (apply Z.pow_pos_nonneg; lia).
  apply Zdigits2_unique; [nia|].
  replace (Zdigits2 m + s - 1) with (Zdigits2 m - 1 + s) by lia.
  rewrite !Z.pow_add_r by lia. nia.
Qed.

(** The integer square root has half the digits, rounded up. *)
Lemma sqrt_digits (n : Z) :
  0 < n -> Zdigits2 (Z.sqrt n) = Z.div2 (Zdigits2 n + 1).
Proof.
  intros Hn. pose proof (Zdigits2_bounds n Hn) as Hb.
  assert (Hd1 : 1 <= Zdigits2 n) by (destruct n; simpl in *; lia).
  pose proof (Z.div2_odd (Zdigits2 n + 1)) as Hk.
  set (k := Z.div2 (Zdigits2 n + 1)) in *.
  assert (Hb2 : 0 <= Z.b2z (Z.odd (Zdigits2 n + 1)) <= 1)
    by (destruct (Z.odd _); simpl; lia).
  assert (Hk1 : 1 <= k) by lia.
  pose proof (Z.sqrt_spec n ltac:(lia)) as Hq. cbv zeta in Hq.
  set (q := Z.sqrt n) in *.
  assert (Hq0 : 0 <= q) by apply Z.sqrt_nonneg.
  set (K := 2 ^ (k - 1)).
  assert (HK : 0 < K) by (apply Z.pow_pos_nonneg; lia).
  assert (HKK : K * K = 2 ^ (2 * k - 2)).
  { unfold K. rewrite <- Z.pow_add_r by lia. f_equal. lia. }
  assert (Hlow : K * K <= n).
  { rewrite HKK. apply Z.le_trans with (2 ^ (Zdigits2 n - 1)); [|lia].
    apply Z.pow_le_mono_r; lia. }
  assert (Hhigh : n < 4 * (K * K)).
  { rewrite HKK. change 4 with (2 ^ 2). rewrite <- Z.pow_add_r by lia.
    apply Z.lt_le_trans with (2 ^ Zdigits2 n); [lia|].
    apply Z.pow_le_mono_r; lia. }
  assert (H2K : 2 ^ k = 2 * K).
  { unfold K. rewrite <- (Z.pow_succ_r 2 (k - 1)) by lia. f_equal. lia. }
  apply Zdigits2_unique; [nia|]. fold K. rewrite H2K. nia.
Qed.

Variables prec emax : Z.
Hypothesis Hprec : 0 < prec.

(** A square root is a value of the format. *)
Lemma SFsqrt_valid (v : spec_float) :
  valid_binary prec emax (SFsqrt prec emax v) = true.
Proof.
  destruct v as [s|[]| |[] m e]; try reflexivity.
  unfold SFsqrt, SFsqrt_core_binary. cbn [Zdigits2].
  set (d := Zpos (digits2_pos m)).
  set (e' := Z.min (fexp prec emax (Z.div2 (d + e + 1))) (Z.div2 e)).
  assert (He' : 2 * e' <= e).
  { pose proof (Z.div2_odd e) as Ho.
    assert (0 <= Z.b2z (Z.odd e)) by (destruct (Z.odd e); simpl; lia).
    unfold e'. lia. }
  set (s := e - 2 * e').
  set (m' := match s with Z.pos _ => Z.shiftl (Zpos m) s | 0 => Zpos m | Z.neg _ => 0 end).
  assert (Hm' : m' = Zpos m * 2 ^ s).
  { unfold m'. destruct s as [|p|p] eqn:Hs; try lia.
    rewrite Z.shiftl_mul_pow2 by lia. reflexivity. }
  assert (Hm'pos : 0 < m').
  { rewrite Hm'. assert (0 < 2 ^ s) by (apply Z.pow_pos_nonneg; unfold s; lia). nia. }
  pose proof (Z.sqrtrem_sqrt m') as Hsq.
  destruct (Z.sqrtrem m') as [q r]. cbn [fst] in Hsq.
  assert (Hdq : Zdigits2 q + e' = Z.div2 (d + e + 1)).
  { rewrite Hsq, sqrt_digits by exact Hm'pos.
    rewrite Hm', Zdigits2_shift by (unfold s; lia). cbn [Zdigits2]. fold d.
    rewrite !Z.div2_div. unfold s.
    replace (d + (e - 2 * e') + 1) with (d + e + 1 + (- e') * 2) by lia.
    rewrite Z.div_add by lia. lia. }
  assert (Hqpos : 0 < q).
  { rewrite Hsq. apply Z.sqrt_pos. exact Hm'pos. }
  destruct q as [|pq|pq]; try lia.
  apply binary_round_aux_valid; [exact Hprec|].
  cbn [Zdigits2] in Hdq. rewrite Hdq. unfold e'. lia.
Qed.

End SquareRoot.

Section Magnitude.
Local Open Scope Z_scope.
Variables prec emax : Z.
Hypothesis Hprec : 0 < prec.
Hypothesis Hemax : 2 <= emax.

Lemma below_finite (k : Z) (v : spec_float) : below k v -> is_finite v = true.
Proof. destruct v; simpl; intros H; try reflexivity; contradiction. Qed.

(** What [shr_fexp] leaves of a magnitude: the exponent it returns, and a
    mantissa that is 0 or has kept the position of its leading bit. *)
Lemma shr_fexp_mag (m e : Z) (l : location) :
  0 <= m ->
  snd (shr_fexp prec emax m e l) = Z.max e (fexp prec emax (Zdigits2 m + e)) /\
  0 <= shr_m (fst (shr_fexp prec emax m e l)) <= m /\
  (shr_m (fst (shr_fexp prec emax m e l)) = 0 \/
   Zdigits2 (shr_m (fst (shr_fexp prec emax m e l))) + snd (shr_fexp prec emax m e l)
   = Zdigits2 m + e).
Proof.
  intros Hm. unfold shr_fexp.
  assert (Hrec : shr_m (shr_record_of_loc m l) = m) by (destruct l as [|[]]; reflexivity).
  set (E := fexp prec emax (Zdigits2 m + e)) in *.
  unfold shr. destruct (E - e) as [|n|n] eqn:Hn; cbn [fst snd].
  - rewrite Hrec. split; [lia|]. split; [lia|right; reflexivity].
  - split; [lia|].
    rewrite iter_pos_nat, shr_iter_m by (rewrite Hrec; lia).
    rewrite Hrec, positive_nat_Z.
    assert (Hpn : 0 < 2 ^ Zpos n) by (apply Z.pow_pos_nonneg; lia).
    assert (Hq : 0 <= m / 2 ^ Zpos n) by (apply Z.div_pos; lia).
    assert (Hle : m / 2 ^ Zpos n <= m).
    { apply Z.div_le_upper_bound; [lia|]. nia. }
    split; [lia|].
    destruct (Z.eq_dec (m / 2 ^ Zpos n) 0) as [H0|Hne]; [left; exact H0|right].
    assert (0 < m) by (destruct (Z.eq_dec m 0) as [->|]; [rewrite Z.div_0_l in Hne; lia|lia]).
    rewrite (Zdigits2_div m (Zpos n)) by lia. lia.
  - rewrite Hrec. split; [lia|]. split; [lia|right; reflexivity].
Qed.

(** A shift by fewer bits than the mantissa has leaves some of it. *)
Lemma shr_fexp_pos (m e : Z) (l : location) :
  0 < m -> fexp prec emax (Zdigits2 m + e) - e < Zdigits2 m ->
  0 < shr_m (fst (shr_fexp prec emax m e l)).
Proof.
  intros Hm Hn. unfold shr_fexp.
  assert (Hrec : shr_m (shr_record_of_loc m l) = m) by (destruct l as [|[]]; reflexivity).
  set (E := fexp prec emax (Zdigits2 m + e)) in *.
  unfold shr. destruct (E - e) as [|n|n] eqn:HEn; cbn [fst]; try (rewrite Hrec; lia).
  rewrite iter_pos_nat, shr_iter_m by (rewrite Hrec; lia).
  rewrite Hrec, positive_nat_Z.
  pose proof (Zdigits2_bounds m Hm) as Hb.
  assert (Hpn : 0 < 2 ^ Zpos n) by (apply Z.pow_pos_nonneg; lia).
  assert (2 ^ Zpos n <= 2 ^ (Zdigits2 m - 1)) by (apply Z.pow_le_mono_r; lia).
  assert (1 <= m / 2 ^ Zpos n); [|lia].
  apply Z.div_le_lower_bound; lia.
Qed.

(** Rounding a magnitude below [2 ^ k], for [k] within the exponents of
    the format, gives a zero or a finite value below [2 ^ (k + 1)]. *)
Lemma binary_round_aux_below (k : Z) (s : bool) (m e : Z) (l : location) :
  0 <= m -> Zdigits2 m + e <= k ->
  emin prec emax <= k -> k <= emax - prec ->
  below (k + 1) (binary_round_aux prec emax s m e l).
Proof.
  intros Hm HD Hmin Hmax. unfold binary_round_aux.
  pose proof (shr_fexp_mag m e l Hm) as (He1 & Hm1 & Hd1).
  destruct (shr_fexp prec emax m e l) as [mrs1 e1]. cbn [fst snd] in *.
  assert (Hek : e <= k).
  { destruct m as [|p|p]; cbn [Zdigits2] in HD; lia. }
  assert (He1k : e1 <= k) by (unfold fexp in He1; lia).
  set (r := round_nearest_even (shr_m mrs1) (loc_of_shr_record mrs1)).
  assert (Hr : r = shr_m mrs1 \/ r = shr_m mrs1 + 1)
    by apply round_nearest_even_cases.
  assert (Hr0 : 0 <= r) by lia.
  assert (Hdr : Zdigits2 r + e1 <= k + 1).
  { destruct Hr as [->| ->].
    - destruct Hd1 as [->|Hd1]; [cbn [Zdigits2]|]; lia.
    - destruct Hd1 as [->|Hd1]; [change (Zdigits2 (0 + 1)) with 1; lia|].
      pose proof (Zdigits2_succ (shr_m mrs1) ltac:(lia)). lia. }
  pose proof (shr_fexp_mag r e1 loc_Exact Hr0) as (He2 & Hm2 & Hd2).
  destruct (shr_fexp prec emax r e1 loc_Exact) as [mrs2 e2]. cbn [fst snd] in *.
  assert (He2k : e2 <= emax - prec) by (unfold fexp in He2; lia).
  destruct (shr_m mrs2) as [|m2|m2]; [exact I| |lia].
  replace (e2 <=? emax - prec) with true by (symmetry; apply Z.leb_le; exact He2k).
  cbn [below]. destruct Hd2 as [Hd2|Hd2]; [discriminate Hd2|].
  cbn [Zdigits2] in Hd2. lia.
Qed.

(** A product that is finite was below [2 ^ emax] before it was
    rounded. *)
Lemma binary_round_aux_overflow (s : bool) (m : positive) (e : Z) (l : location) :
  is_finite (binary_round_aux prec emax s (Zpos m) e l) = true ->
  Zpos (digits2_pos m) + e <= emax.
Proof.
  intros Hfin.
  destruct (Z.le_gt_cases (Zpos (digits2_pos m) + e) emax) as [|HD]; [assumption|].
  exfalso. revert Hfin. unfold binary_round_aux.
  pose proof (shr_fexp_mag (Zpos m) e l ltac:(lia)) as (He1 & Hm1 & Hd1).
  pose proof (shr_fexp_pos (Zpos m) e l eq_refl) as Hp1.
  cbn [Zdigits2] in *.
  destruct (shr_fexp prec emax (Zpos m) e l) as [mrs1 e1]. cbn [fst snd] in *.
  assert (Hp1' : 0 < shr_m mrs1) by (apply Hp1; unfold fexp, emin; lia).
  destruct Hd1 as [Hd1|Hd1]; [lia|].
  set (r := round_nearest_even (shr_m mrs1) (loc_of_shr_record mrs1)).
  assert (Hr : r = shr_m mrs1 \/ r = shr_m mrs1 + 1)
    by apply round_nearest_even_cases.
  assert (Hr0 : 0 < r) by lia.
  assert (Hdr : Zdigits2 (shr_m mrs1) <= Zdigits2 r)
    by (apply Zdigits2_mono; lia).
  pose proof (shr_fexp_mag r e1 loc_Exact ltac:(lia)) as (He2 & Hm2 & Hd2).
  pose proof (shr_fexp_pos r e1 loc_Exact Hr0) as Hp2.
  destruct (shr_fexp prec emax r e1 loc_Exact) as [mrs2 e2]. cbn [fst snd] in *.
  assert (Hp2' : 0 < shr_m mrs2) by (apply Hp2; unfold fexp, emin; lia).
  assert (He2big : emax - prec < e2) by (unfold fexp, emin in *; lia).
  destruct (shr_m mrs2) as [|m2|m2]; try lia.
  replace (e2 <=? emax - prec) with false by (symmetry; apply Z.leb_gt; exact He2big).
  discriminate.
Qed.

Lemma digits_mul_le (a b : positive) :
  Zpos (digits2_pos (a * b)) <= Zpos (digits2_pos a) + Zpos (digits2_pos b).
Proof.
  pose proof (digits_bounds a) as Ha. pose proof (digits_bounds b) as Hb.
  pose proof (digits_bounds (a * b)) as Hab.
  set (da := Zpos (digits2_pos a)) in *. set (db := Zpos (digits2_pos b)) in *.
  set (dab := Zpos (digits2_pos (a * b))) in *.
  assert (dab - 1 < da + db); [|lia].
  apply (Z.pow_lt_mono_r_iff 2); [lia|lia|].
  rewrite Z.pow_add_r by lia. rewrite Pos2Z.inj_mul in Hab. nia.
Qed.

Lemma digits_square_ge (a : positive) :
  2 * Zpos (digits2_pos a) - 1 <= Zpos (digits2_pos (a * a)).
Proof.
  pose proof (digits_bounds a) as Ha. pose proof (digits_bounds (a * a)) as Hab.
  set (da := Zpos (digits2_pos a)) in *. set (dab := Zpos (digits2_pos (a * a))) in *.
  assert (Hda : 1 <= da) by (unfold da; lia).
  assert (2 * da - 2 < dab); [|lia].
  apply (Z.pow_lt_mono_r_iff 2); [lia|lia|].
  replace (2 * da - 2) with ((da - 1) + (da - 1)) by lia.
  rewrite Z.pow_add_r by lia. rewrite Pos2Z.inj_mul in Hab. nia.
Qed.

(** A finite product is below the sum of the magnitudes. *)
Lemma SFmul_below (k1 k2 : Z) (v w : spec_float) :
  below k1 v -> below k2 w ->
  emin prec emax <= k1 + k2 -> k1 + k2 <= emax - prec ->
  below (k1 + k2 + 1) (SFmul prec emax v w).
Proof.
  destruct v as [sv|sv| |sv mv ev], w as [sw|sw| |sw mw ew]; cbn [below];
    intros Hv Hw Hmin Hmax; try contradiction; try exact I.
  unfold SFmul. apply binary_round_aux_below; try assumption; [lia|].
  cbn [Zdigits2]. pose proof (digits_mul_le mv mw). lia.
Qed.

(** A value whose square is finite is below [2 ^ ((emax + 1) / 2)]. *)
Lemma SFmul_square (v : spec_float) (k : Z) :
  is_finite (SFmul prec emax v v) = true -> emax + 1 <= 2 * k -> below k v.
Proof.
  destruct v as [sv|sv| |sv mv ev]; cbn [below]; intros Hfin Hk;
    try exact I; try discriminate Hfin.
  unfold SFmul in Hfin. apply binary_round_aux_overflow in Hfin.
  pose proof (digits_square_ge mv). lia.
Qed.

(** The quotient of a value below [2 ^ k1] by one of magnitude [2 ^ k2]
    or more is below [2 ^ (k1 - k2 + 1)]. *)
Lemma SFdiv_below (k1 k2 : Z) (v : spec_float) (sw : bool) (mw : positive) (ew : Z) :
  below k1 v -> k2 < Zpos (digits2_pos mw) + ew ->
  emin prec emax <= k1 - k2 -> k1 - k2 <= emax - prec ->
  below (k1 - k2 + 1) (SFdiv prec emax v (S754_finite sw mw ew)).
Proof.
  destruct v as [sv|sv| |sv mv ev]; cbn [below]; intros Hv Hw Hmin Hmax;
    try contradiction; try exact I.
  unfold SFdiv, SFdiv_core_binary. cbn [Zdigits2].
  set (d1 := Zpos (digits2_pos mv)) in *. set (d2 := Zpos (digits2_pos mw)) in *.
  set (e' := Z.min (fexp prec emax (d1 + ev - (d2 + ew))) (ev - ew)).
  set (s := ev - ew - e').
  assert (Hs : 0 <= s) by (unfold s, e'; lia).
  set (m' := match s with Z.pos _ => Z.shiftl (Zpos mv) s | 0 => Zpos mv | Z.neg _ => 0 end).
  assert (Hm' : m' = Zpos mv * 2 ^ s).
  { unfold m'. destruct s as [|p|p] eqn:Hsp; try lia.
    rewrite Z.shiftl_mul_pow2 by lia. reflexivity. }
  pose proof (Z_div_mod m' (Zpos mw) eq_refl) as Hdiv.
  destruct (Z.div_eucl m' (Zpos mw)) as [q r]. destruct Hdiv as [Hdiv Hr].
  pose proof (digits_bounds mv) as Hbv. pose proof (digits_bounds mw) as Hbw.
  fold d1 in Hbv. fold d2 in Hbw.
  assert (Hps : 0 < 2 ^ s) by (apply Z.pow_pos_nonneg; lia).
  assert (Hq0 : 0 <= q) by nia.
  apply binary_round_aux_below; try assumption.
  destruct (Z.eq_dec q 0) as [->|Hq]; [cbn [Zdigits2]; unfold e', fexp; lia|].
  assert (Hdq : Zdigits2 q <= d1 + s - d2 + 1).
  { pose proof (Zdigits2_bounds q ltac:(lia)) as Hbq.
    pose proof (Zdigits2_nonneg q) as Hdq0.
    assert (Hd2 : 1 <= d2) by (unfold d2; lia).
    assert (Hd1 : 1 <= d1) by (unfold d1; lia).
    assert (Zdigits2 q - 1 < d1 + s - d2 + 1); [|lia].
    destruct (Z.lt_ge_cases (Zdigits2 q - 1) (d1 + s - d2 + 1)) as [|Hge]; [assumption|].
    exfalso.
    assert (Hpos : d2 - 1 < d1 + s).
    { apply (Z.pow_lt_mono_r_iff 2); [lia|lia|].
      rewrite Z.pow_add_r by lia. nia. }
    assert (H1 : 2 ^ (d1 + s - d2 + 1) <= 2 ^ (Zdigits2 q - 1))
      by (apply Z.pow_le_mono_r; lia).
    assert (H2 : 2 ^ (d1 + s - d2 + 1) * 2 ^ (d2 - 1) = 2 ^ d1 * 2 ^ s).
    { rewrite <- !Z.pow_add_r by lia. f_equal. lia. }
    assert (H3 : 0 < 2 ^ (d2 - 1)) by (apply Z.pow_pos_nonneg; lia).
    nia. }
  unfold s in Hdq. lia.
Qed.

End Magnitude.

Section Falloff.
Import Shader.
Local Open Scope glsl_scope.

(** A value of the format that compares at least 150 is an infinity or at
    least 150 in magnitude. *)
Lemma le_150_cases (v : float) :
  valid_binary 24 128 v = true -> (150 <= v) = true ->
  v = S754_infinity false \/
  exists m e, v = S754_finite false m e /\ (-16 <= e)%Z /\
              (9830400 <= Zpos m * 2 ^ (e + 16))%Z.
Proof.
  intros Hval Hle. destruct v as [s|[]| |[] m e]; try discriminate Hle.
  - left. reflexivity.
  - right. exists m, e. split; [reflexivity|].
    unfold le, SFleb in Hle. cbn [SFcompare] in Hle.
    destruct (bounded32_facts m e Hval) as (Hd & He & Hc).
    destruct (Z.compare_spec (-16) e) as [Heq|Hlt|Hgt]; try discriminate Hle.
    + subst e. split; [lia|]. change (2 ^ (-16 + 16))%Z with 1%Z.
      change (Pos.compare_cont Eq 9830400 m) with (9830400 ?= m)%positive in Hle.
      destruct (Pos.compare_spec 9830400 m); try discriminate Hle; lia.
    + split; [lia|].
      assert (Hd24 : Zpos (digits2_pos m) = 24%Z) by (unfold fexp, emin in Hc; lia).
      pose proof (digits_bounds m) as Hb. rewrite Hd24 in Hb.
      change (2 ^ (24 - 1))%Z with 8388608%Z in Hb.
      assert (2 ^ 1 <= 2 ^ (e + 16))%Z by (apply Z.pow_le_mono_r; lia).
      change (2 ^ 1)%Z with 2%Z in *. nia.
Qed.

Lemma sub_150_sign (v : float) :
  valid_binary 24 128 v = true -> (150 <= v) = true -> signed false (v - 150).
Proof.
  intros Hval Hle.
  destruct (le_150_cases v Hval Hle) as [->|(m & e & -> & He & Hm)]; [reflexivity|].
  unfold sub, SFsub. change (150 : float) with (S754_finite false 9830400 (-16)).
  cbv iota beta. rewrite Z.min_r by lia.
  apply binary_normalize_sign. unfold shl_align. cbn [cond_Zopp].
  change (-16 - -16)%Z with 0%Z. cbn [fst].
  destruct (-16 - e)%Z as [|d|d] eqn:Hd; cbn [fst]; try lia.
  - replace (e + 16)%Z with 0%Z in Hm by lia. change (2 ^ 0)%Z with 1%Z in Hm. lia.
  - rewrite iter_xO_pow. replace (e + 16)%Z with (Zpos d) in Hm by lia. lia.
Qed.

Lemma div_neg_150_sign (u : float) :
  signed false u -> signed true (u / (0 - 150)).
Proof.
  change (0 - 150) with (S754_finite true 9830400 (-16)).
  destruct u as [s|s| |s m e]; cbn [signed]; intros Hs; try contradiction; subst s.
  - reflexivity.
  - reflexivity.
  - apply (SFdiv_sign 24 128 false true).
Qed.

Lemma smoothstep_nonpositive (q : float) :
  signed true q ->
  (let t := clamp q 0 1 in t * t * (3 - 2 * t)) = 0.
Proof.
  destruct q as [s|s| |s m e]; cbn [signed]; intros Hs; try contradiction; subst s;
    reflexivity.
Qed.

(** The falloff vanishes once the distance the shader computes is 150 or
    more. *)
Lemma smoothstep_far (v : vec2) :
  (150 <= length v) = true -> smoothstep 150 0 (length v) = 0.
Proof.
  intros Hle. unfold smoothstep. apply smoothstep_nonpositive.
  apply div_neg_150_sign. apply sub_150_sign; [|exact Hle].
  apply SFsqrt_valid. reflexivity.
Qed.

(** The offset of a coordinate once the falloff is 0: a zero if the scaled
    direction and the decay are finite, NaN if not. *)
Lemma offset_zero (a dec : float) :
  match (a * 0 * dec)%glsl with
  | S754_zero _ => is_finite a && is_finite dec = true
  | S754_nan => is_finite a && is_finite dec = false
  | _ => False
  end.
Proof.
  destruct a as [sa|sa| |sa ma ea], dec as [sd|sd| |sd md ed]; reflexivity.
Qed.

Lemma add_zero_eqb (p : float) (s : bool) :
  p <> S754_nan -> float_eq (p + S754_zero s) p = true.
Proof.
  intros Hp. destruct p as [sp|sp| |sp m e]; try congruence.
  - destruct sp, s; reflexivity.
  - destruct sp; reflexivity.
  - unfold float_eq, SFeqb. cbn [add SFadd].
    rewrite SFcompare_refl by discriminate. reflexivity.
Qed.

Lemma add_nan_eqb (p : float) : float_eq (p + S754_nan) p = false.
Proof. destruct p as [sp|sp| |sp m e]; reflexivity. Qed.

(** A coordinate that is NaN has no finite direction. *)
Lemma direction_nan (p m dist k : float) :
  is_finite ((p - m) / dist * k) = true -> p <> S754_nan.
Proof. intros H ->. discriminate H. Qed.

(** One coordinate of a far point after the displacement. *)
Lemma coordinate_far (p a dec : float) :
  (is_finite a = true -> p <> S754_nan) ->
  float_eq (p + a * 0 * dec) p = is_finite a && is_finite dec.
Proof.
  intros Hp. pose proof (offset_zero a dec) as Ho.
  destruct (a * 0 * dec) as [s|s| |s m e]; try contradiction.
  - rewrite Ho. apply andb_true_iff in Ho.
    apply add_zero_eqb. apply Hp. exact (proj1 Ho).
  - rewrite add_nan_eqb, Ho. reflexivity.
Qed.

End Falloff.

Section Direction.
Import Shader.
Local Open Scope glsl_scope.

Lemma sqrt_finite (v : float) : is_finite (sqrt v) = true -> is_finite v = true.
Proof. destruct v as [s|[]| |s m e]; intros H; try discriminate H; reflexivity. Qed.

Lemma add_finite (v w : float) :
  is_finite (v + w) = true -> is_finite v = true /\ is_finite w = true.
Proof.
  destruct v as [sv|[]| |sv mv ev], w as [sw|[]| |sw mw ew]; intros H;
    try discriminate H; split; reflexivity.
Qed.

Lemma sub_finite_l (v w : float) : is_finite (v - w) = true -> is_finite v = true.
Proof.
  destruct v as [sv|[]| |sv mv ev], w as [sw|[]| |sw mw ew]; intros H;
    try discriminate H; reflexivity.
Qed.

(** The coordinates of a vector of finite length are below [2 ^ 65]. *)
Lemma length_finite (v : vec2) :
  is_finite (length v) = true -> below 65 (x v) /\ below 65 (y v).
Proof.
  intros H. unfold length in H. apply sqrt_finite, add_finite in H.
  destruct H as [Hx Hy].
  split; apply (SFmul_square 24 128); (reflexivity || assumption || lia).
Qed.

(** A length of 150 or more has its leading bit at [2 ^ 7] or above. *)
Lemma le_150_magnitude (v : float) :
  valid_binary 24 128 v = true -> (150 <= v) = true -> is_finite v = true ->
  exists s m e, v = S754_finite s m e /\ (7 < Zpos (digits2_pos m) + e)%Z.
Proof.
  intros Hval Hle Hfin.
  destruct (le_150_cases v Hval Hle) as [->|(m & e & -> & He & Hm)];
    [discriminate Hfin|].
  exists false, m, e. split; [reflexivity|].
  pose proof (Zdigits2_shift (Zpos m) (e + 16) eq_refl ltac:(lia)) as Hd.
  assert (Hpos : (0 < 2 ^ (e + 16))%Z) by (apply Z.pow_pos_nonneg; lia).
  pose proof (Zdigits2_mono 9830400 (Zpos m * 2 ^ (e + 16)) ltac:(lia)) as Hmono.
  change (Zdigits2 9830400) with 24%Z in Hmono. cbn [Zdigits2] in Hd. lia.
Qed.

(** The direction of a vector of finite length 150 or more, scaled by 60,
    is finite. *)
Lemma direction_finite (a dist : float) :
  below 65 a -> valid_binary 24 128 dist = true ->
  (150 <= dist) = true -> is_finite dist = true ->
  is_finite (a / dist * 60) = true.
Proof.
  intros Ha Hval Hle Hfin.
  destruct (le_150_magnitude dist Hval Hle Hfin) as (s & m & e & -> & Hm).
  apply (below_finite 66).
  apply (SFmul_below 24 128 eq_refl ltac:(lia) 59 6); [| |unfold emin; lia|lia].
  - apply (SFdiv_below 24 128 eq_refl ltac:(lia) 65 7); [exact Ha|exact Hm|unfold emin; lia|lia].
  - cbn. lia.
Qed.

Lemma directions_finite (v : vec2) :
  (150 <= length v) = true -> is_finite (length v) = true ->
  is_finite (x (normalize v) * 60) && is_finite (y (normalize v) * 60) = true.
Proof.
  intros Hle Hfin. destruct (length_finite v Hfin) as [Hx Hy].
  assert (Hval : valid_binary 24 128 (length v) = true)
    by (apply SFsqrt_valid; reflexivity).
  apply andb_true_iff. split; apply direction_finite; assumption.
Qed.

End Direction.

Section Displacement.
Import Shader.
Local Open Scope glsl_scope.
Variables exp sin : float -> float.

Lemma mul_comm (a b : float) : a * b = b * a.
Proof. apply SFmul_comm. Qed.

(** C3.  The displaced position computed by the vertex shader is
    [P + dir * 60 * falloff * decay] with [d = P - M], [dist = |d|],
    [dir = d / dist], [falloff = smoothstep(150, 0, dist)] and
    [decay = exp(-3 * falloff * t) * sin(5t) * 0.5 + 1], every operation
    being the shader's own, and [gl_Position] is the matrix applied to
    that position: a function of the matrix, [P], [M] and [t] alone.  The
    equality holds for every input; under the pointer, and wherever the
    length underflows or the difference overflows, both sides are the same
    NaN or infinity. *)
Theorem displaced_formula (mp : mat3) (P M : vec2) (t : float) :
  displaced exp sin M t P = spec_displaced exp sin P M t /\
  main exp sin mp M t P
  = let D := spec_displaced exp sin P M t in
    let pos := mulmv mp {| x3 := x D; y3 := y D; z3 := 1 |} in
    {| gl_Position := {| x4 := x3 pos; y4 := y3 pos; z4 := 0; w4 := 1 |};
       gl_PointSize := three_quarters |}.
Proof.
  assert (H : displaced exp sin M t P = spec_displaced exp sin P M t).
  { unfold displaced, spec_displaced, decay, normalize. cbv zeta.
    rewrite (mul_comm t 5). reflexivity. }
  split; [exact H|]. unfold main. cbv zeta. rewrite H. reflexivity.
Qed.

(** C4, amended.  When the distance the shader computes is 150 or more,
    the falloff is exactly 0, and the displaced position equals [P]
    (compared with [==]) if and only if the direction scaled by 60 and the
    decay are finite; the scaled direction is finite whenever the computed
    distance is. *)
Theorem displaced_far (P M : vec2) (t : float) :
  let dist := length (vsub P M) in
  let dir := normalize (vsub P M) in
  let falloff := smoothstep 150 0 dist in
  let D := displaced exp sin M t P in
  (150 <= dist) = true ->
  falloff = 0 /\
  (float_eq (x D) (x P) && float_eq (y D) (y P) = true <->
   is_finite (x dir * 60) && is_finite (y dir * 60)
   && is_finite (decay exp sin falloff t) = true) /\
  (is_finite dist = true ->
   is_finite (x dir * 60) && is_finite (y dir * 60) = true).
Proof.
  cbv zeta. intros Hle.
  pose proof (smoothstep_far (vsub P M) Hle) as Hf.
  split; [exact Hf|]. split; [|apply directions_finite; exact Hle].
  unfold displaced. cbv zeta. rewrite Hf.
  cbn [x y vadd vscale].
  rewrite !coordinate_far.
  - destruct (is_finite (x (normalize (vsub P M)) * 60)),
             (is_finite (y (normalize (vsub P M)) * 60)),
             (is_finite (decay exp sin 0 t)); simpl; tauto.
  - apply direction_nan.
  - apply direction_nan.
Qed.

End Displacement.

Section DisplacementExamples.
Import Shader.
Local Open Scope glsl_scope.

Lemma displaced_far_witness :
  let P := {| x := 150; y := 0 |} in
  let M := {| x := 0; y := 0 |} in
  (150 <= length (vsub P M)) = true /\
  smoothstep 150 0 (length (vsub P M)) = 0 /\
  displaced SampleShader.flat_exp SampleShader.flat_sin M 2 P = P.
Proof.
  cbv zeta.
  destruct (displaced_far SampleShader.flat_exp SampleShader.flat_sin {| x := 150; y := 0 |}
              {| x := 0; y := 0 |} 2 eq_refl) as (Hf & _ & _).
  split; [reflexivity|]. split; [exact Hf|reflexivity].
Defined.

(** C4 as stated fails where the difference overflows.  For the point
    [(2 ^ 127, 0)] with the pointer at [(- 2 ^ 127, 0)] the distance is the
    infinity and the falloff is 0, but the direction is NaN and so is the
    displaced position, at every time. *)
Lemma displaced_far_overflow :
  let P := {| x := SampleShader.huge; y := 0 |} in
  let M := {| x := - SampleShader.huge; y := 0 |} in
  (150 <= length (vsub P M)) = true /\
  smoothstep 150 0 (length (vsub P M)) = 0 /\
  forall (exp sin : float -> float) (t : float),
    x (displaced exp sin M t P) = S754_nan /\
    float_eq (x (displaced exp sin M t P)) (x P) = false.
Proof.
  cbv zeta. split; [reflexivity|]. split; [reflexivity|].
  intros exp sin t.
  assert (H : x (displaced exp sin {| x := - SampleShader.huge; y := 0 |} t {| x := SampleShader.huge; y := 0 |})
              = S754_nan).
  { unfold displaced. cbv zeta. cbn [x vadd vscale].
    change (x (normalize (vsub {| x := SampleShader.huge; y := 0 |} {| x := - SampleShader.huge; y := 0 |})))
      with S754_nan.
    change (smoothstep 150 0 (length (vsub {| x := SampleShader.huge; y := 0 |} {| x := - SampleShader.huge; y := 0 |})))
      with (0 : float).
    destruct (decay exp sin 0 t); reflexivity. }
  rewrite H. split; reflexivity.
Qed.

(** The exact distance and the computed one differ.  In units of
    [2 ^ -17] the point is (29203390, 30310088) and the pointer
    (10038697, 25921284): their exact distance is above 150, the distance
    the shader computes is [150 - 2 ^ -16], and the falloff is not 0. *)
Lemma falloff_near_150 :
  let P := {| x := S754_finite false 14601695 (-16);
              y := S754_finite false 15155044 (-16) |} in
  let M := {| x := S754_finite false 10038697 (-17);
              y := S754_finite false 12960642 (-16) |} in
  ((150 * 2 ^ 17) ^ 2
   <= (scaled 17 (x P) - scaled 17 (x M)) ^ 2
      + (scaled 17 (y P) - scaled 17 (y M)) ^ 2)%Z /\
  length (vsub P M) = S754_finite false 9830399 (-16) /\
  (length (vsub P M) < 150) = true /\
  smoothstep 150 0 (length (vsub P M)) = S754_finite false 9162596 (-68).
Proof.
  cbv zeta. split; [vm_compute; discriminate|].
  split; [reflexivity|]. split; reflexivity.
Qed.

End DisplacementExamples.

Section UnderPointer.
Import Shader.
Local Open Scope glsl_scope.
Variables exp sin : float -> float.

Lemma sub_self (v : float) : v - v = 0 \/ v - v = S754_nan.
Proof.
  destruct v as [[]|[]| |s m e]; try (left; reflexivity); try (right; reflexivity).
  left. unfold sub, SFsub. rewrite Z.min_id. unfold shl_align.
  rewrite Z.sub_diag. reflexivity.
Qed.

Lemma mul_nan_l (v : float) : S754_nan * v = S754_nan.
Proof. destruct v; reflexivity. Qed.

Lemma mul_nan_r (v : float) : v * S754_nan = S754_nan.
Proof. destruct v; reflexivity. Qed.

Lemma add_nan_l (v : float) : S754_nan + v = S754_nan.
Proof. destruct v; reflexivity. Qed.

Lemma add_nan_r (v : float) : v + S754_nan = S754_nan.
Proof. destruct v; reflexivity. Qed.

(** A vector whose coordinates are zeros or NaN has no direction. *)
Lemma normalize_zero (v : vec2) :
  (x v = 0 \/ x v = S754_nan) -> (y v = 0 \/ y v = S754_nan) ->
  normalize v = {| x := S754_nan; y := S754_nan |}.
Proof.
  destruct v as [a b]. cbn [x y].
  intros [-> | ->] [-> | ->]; reflexivity.
Qed.

Lemma displaced_under_pointer (P : vec2) (t : float) :
  displaced exp sin P t P = {| x := S754_nan; y := S754_nan |}.
Proof.
  unfold displaced. cbv zeta.
  rewrite (normalize_zero (vsub P P)) by apply sub_self.
  unfold vscale, vadd. cbn [x y].
  rewrite !mul_nan_l, !add_nan_r. reflexivity.
Qed.

(** X3.  Under the pointer the shader computes no position: when the point
    is the pointer position, whatever it is, the displaced position is
    (NaN, NaN) and [gl_Position] is (NaN, NaN, 0, 1), for every matrix and
    time.  Nor is the point itself the only such case: at [(2 ^ -80, 0)]
    from the pointer the length underflows to 0 and the first coordinate of
    the displaced position is not finite. *)
Theorem main_under_pointer (mp : mat3) (P : vec2) (t : float) :
  displaced exp sin P t P = {| x := S754_nan; y := S754_nan |} /\
  gl_Position (main exp sin mp P t P)
  = {| x4 := S754_nan; y4 := S754_nan; z4 := 0; w4 := 1 |} /\
  length {| x := SampleShader.tiny; y := 0 |} = 0 /\
  is_finite (x (displaced exp sin {| x := 0; y := 0 |} t {| x := SampleShader.tiny; y := 0 |}))
  = false.
Proof.
  split; [apply displaced_under_pointer|]. split; [|split; [reflexivity|]].
  - unfold main. cbv zeta. rewrite displaced_under_pointer.
    unfold mulmv. cbn [x y x3 y3 z3 gl_Position].
    rewrite !mul_nan_r, !add_nan_l. reflexivity.
  - unfold displaced. cbv zeta. cbn [x vadd vscale].
    change (x (normalize (vsub {| x := SampleShader.tiny; y := 0 |} {| x := 0; y := 0 |})))
      with (S754_infinity false).
    change (smoothstep 150 0 (length (vsub {| x := SampleShader.tiny; y := 0 |} {| x := 0; y := 0 |})))
      with (1 : float).
    destruct (decay exp sin 1 t) as [[]|[]| |[] m e]; reflexivity.
Qed.

End UnderPointer.

Section FarPosition.
Import Shader.
Local Open Scope glsl_scope.
Variables exp sin : float -> float.

Lemma same_trans (a b c : float) : same a b -> same b c -> same a c.
Proof.
  intros [->|[Ha Hb]] [->|[Hb' Hc]]; try (left; reflexivity);
    right; split; assumption.
Qed.

Lemma add_zero_same (v z : float) : is_zero z = true -> same (v + z) v.
Proof.
  destruct z as [sz| | |]; try discriminate. intros _.
  destruct v as [[]|[]| |s m e], sz; try (left; reflexivity);
    right; split; reflexivity.
Qed.

Lemma mul_same_r (k v w : float) :
  is_finite k = true -> same v w -> same (k * v) (k * w).
Proof.
  intros Hk [->|[Hv Hw]]; [left; reflexivity|].
  destruct v as [sv| | |], w as [sw| | |]; try discriminate.
  destruct k as [sk|sk| |sk mk ek]; try discriminate; right; split; reflexivity.
Qed.

Lemma mul_not_nan (k v : float) :
  is_finite k = true -> is_finite v = true -> k * v <> S754_nan.
Proof.
  destruct k as [sk|sk| |sk mk ek], v as [sv|sv| |sv mv ev]; try discriminate;
    intros _ _; try discriminate.
  pose proof (binary_round_aux_sign 24 128 (xorb sk sv) (Zpos (mk * mv))
                (ek + ev) loc_Exact ltac:(lia)) as Hs.
  unfold mul, SFmul. intros Heq. rewrite Heq in Hs. exact Hs.
Qed.

Lemma same_float_eq (v w : float) : w <> S754_nan -> same v w -> float_eq v w = true.
Proof.
  intros Hw [->|[Hv Hz]].
  - unfold float_eq, SFeqb. rewrite SFcompare_refl by exact Hw. reflexivity.
  - destruct v, w; try discriminate. reflexivity.
Qed.

(** A cell of the projection reaches the shader as a finite value. *)
Lemma of_number_finite (v : number) : finite32 v -> is_finite (of_number v) = true.
Proof.
  intros [[Hfin _] Hround]. destruct v as [s|s| |s m e]; try discriminate Hfin;
    [reflexivity|].
  unfold fround in Hround. unfold of_number.
  destruct (binary_normalize 24 128 (cond_Zopp s (Z.pos m)) e s);
    try reflexivity; discriminate Hround.
Qed.

Lemma same_finite (v w : float) : same v w -> is_finite w = true -> is_finite v = true.
Proof.
  intros [->|[Hv _]] Hw; [exact Hw|]. destruct v; try discriminate. reflexivity.
Qed.

Lemma feq_same (v w : number) : (v === w)%num = true -> same v w.
Proof.
  unfold feq, SFeqb.
  destruct v as [sv|sv| |sv mv ev], w as [sw|sw| |sw mw ew]; cbn [SFcompare];
    try discriminate; try (destruct sv, sw; discriminate).
  - intros _. right. split; reflexivity.
  - destruct sv, sw; try discriminate; intros _; left; reflexivity.
  - destruct sv, sw; try discriminate;
      (destruct (Z.compare_spec ev ew) as [->| |]; try discriminate;
       change (Pos.compare_cont Eq mv mw) with (mv ?= mw)%positive;
       destruct (Pos.compare_spec mv mw) as [->| |]; try discriminate;
       intros _; left; reflexivity).
Qed.

Lemma of_number_same (v w : number) : same v w -> same (of_number v) (of_number w).
Proof.
  intros [->|[Hv Hw]]; [left; reflexivity|].
  destruct v, w; try discriminate. right. split; reflexivity.
Qed.

Lemma mul_same (k k' v w : float) :
  is_finite k' = true -> is_finite w = true ->
  same k k' -> same v w -> same (k * v) (k' * w).
Proof.
  intros Hk Hw [->|[Hz Hz']] Hvw; [apply mul_same_r; assumption|].
  pose proof (same_finite v w Hvw Hw) as Hv.
  destruct k as [sk| | |], k' as [sk'| | |]; try discriminate.
  destruct v as [sv|sv| |sv mv ev]; try discriminate;
    destruct w as [sw|sw| |sw mw ew]; try discriminate;
    right; split; reflexivity.
Qed.

Lemma mul_zero_finite (z v : float) :
  is_zero z = true -> is_finite v = true -> is_zero (z * v) = true.
Proof. destruct z; try discriminate. destruct v; try discriminate; reflexivity. Qed.

(** One coordinate of [gl_Position] for a point the displacement leaves
    where it is: the scale times the coordinate. *)
Lemma coordinate_scaled (k k' p D1 D2 z1 z2 : float) :
  is_finite k' = true -> is_finite p = true -> is_finite D2 = true ->
  same k k' -> same D1 p -> is_zero z1 = true -> is_zero z2 = true ->
  float_eq (k * D1 + z1 * D2 + z2 * 1) (k' * p) = true /\
  float_eq (z1 * D2 + k * D1 + z2 * 1) (k' * p) = true.
Proof.
  intros Hk Hp HD2 Hkk HD1 Hz1 Hz2.
  assert (H2 : is_zero (z2 * 1) = true) by (apply mul_zero_finite; [exact Hz2|reflexivity]).
  assert (H1 : is_zero (z1 * D2) = true) by (apply mul_zero_finite; assumption).
  assert (Hm : same (k * D1) (k' * p)) by (apply mul_same; assumption).
  split; (apply same_float_eq; [apply mul_not_nan; assumption|]);
    (eapply same_trans; [apply add_zero_same; exact H2|]).
  - eapply same_trans; [apply add_zero_same; exact H1|exact Hm].
  - eapply same_trans; [|exact Hm].
    destruct (z1 * D2) as [sz| | |]; try discriminate H1.
    destruct (k * D1) as [[]|[]| |su mu eu], sz; try (left; reflexivity);
      right; split; reflexivity.
Qed.

(** A point at a finite computed distance of 150 or more, at a time when
    the decay is finite, stays where it is, up to the sign of a zero. *)
Lemma displaced_far_same (P M : vec2) (t : float) :
  (150 <= length (vsub P M)) = true -> is_finite (length (vsub P M)) = true ->
  is_finite (decay exp sin 0 t) = true ->
  let D := displaced exp sin M t P in
  same (x D) (x P) /\ same (y D) (y P) /\
  is_finite (x P) = true /\ is_finite (y P) = true.
Proof.
  intros Hle Hfin Hdec. cbv zeta.
  pose proof (smoothstep_far (vsub P M) Hle) as Hf.
  pose proof (directions_finite (vsub P M) Hle Hfin) as Hdir.
  apply andb_true_iff in Hdir. destruct Hdir as [Hdx Hdy].
  destruct (length_finite (vsub P M) Hfin) as [Hx Hy].
  apply (below_finite 65) in Hx, Hy. cbn [x y vsub] in Hx, Hy.
  apply sub_finite_l in Hx, Hy.
  unfold displaced. cbv zeta. rewrite Hf. cbn [x y vadd vscale].
  pose proof (offset_zero (x (normalize (vsub P M)) * 60) (decay exp sin 0 t)) as Hox.
  pose proof (offset_zero (y (normalize (vsub P M)) * 60) (decay exp sin 0 t)) as Hoy.
  rewrite Hdx, Hdec in Hox. rewrite Hdy, Hdec in Hoy.
  destruct (x (normalize (vsub P M)) * 60 * 0 * decay exp sin 0 t)
    as [sx| | |]; try contradiction; try discriminate Hox.
  destruct (y (normalize (vsub P M)) * 60 * 0 * decay exp sin 0 t)
    as [sy| | |]; try contradiction; try discriminate Hoy.
  repeat split; try assumption; apply add_zero_same; reflexivity.
Qed.

(** X4.  A far point is drawn at the projection of its own position.  For a
    canvas of [w] by [h] pixels (sides between 1 and 2^31 - 1), when the
    matrix uniform holds the elements of the projection [resizeCanvas]
    computes for it (compared with [===], as a frame leaves them), a point
    whose computed distance to the pointer is finite and 150 or more, at a
    time when the decay is finite, gets the [gl_Position]
    ([sx * x], [sy * y], 0, 1), where [sx] and [sy], the scales [2/w] and
    [2/h] as the matrix holds them, are finite. *)
Theorem main_far_position (w h : N) (u : list number) (P M : vec2) (t : float) :
  (0 < w < 2 ^ 31)%N -> (0 < h < 2 ^ 31)%N ->
  Forall2 (fun r v => (r === v)%num = true) u (projection w h) ->
  (150 <= length (vsub P M)) = true -> is_finite (length (vsub P M)) = true ->
  is_finite (decay exp sin 0 t) = true ->
  let sx := of_number (fround (2 / of_N w)%num) in
  let sy := of_number (fround (2 / of_N h)%num) in
  let pos := gl_Position (main exp sin (uniform_matrix u) M t P) in
  is_finite sx = true /\ is_finite sy = true /\
  float_eq (x4 pos) (sx * x P) = true /\ float_eq (y4 pos) (sy * y P) = true /\
  z4 pos = 0 /\ w4 pos = 1.
Proof.
  intros Hw Hh Hu Hle Hfin Hdec. cbv zeta.
  destruct (displaced_far_same P M t Hle Hfin Hdec) as (Hsx & Hsy & Hpx & Hpy).
  cbv zeta in Hsx, Hsy.
  assert (Hfx : is_finite (of_number (fround (2 / of_N w)%num)) = true).
  { apply of_number_finite, scale_finite32.
    change (2 ^ 31)%N with 2147483648%N in Hw.
    change (2 ^ 32)%N with 4294967296%N. lia. }
  assert (Hfy : is_finite (of_number (fround (2 / of_N h)%num)) = true).
  { apply of_number_finite, scale_finite32.
    change (2 ^ 31)%N with 2147483648%N in Hh.
    change (2 ^ 32)%N with 4294967296%N. lia. }
  split; [exact Hfx|]. split; [exact Hfy|].
  unfold projection in Hu.
  repeat (let r := fresh "u" in let H := fresh "Hu" in
          apply Forall2_cons_inv_r in Hu; destruct Hu as (r & ? & H & Hu & ->);
          apply feq_same, of_number_same in H).
  apply Forall2_nil_inv_r in Hu. subst.
  unfold main. cbv zeta. cbn [gl_Position x4 y4 z4 w4].
  set (D := displaced exp sin M t P) in *.
  unfold mulmv, uniform_matrix, cell.
  cbn [x3 y3 z3 cells fmap list_fmap nth].
  assert (Hzero : forall v : float, same v (of_number 0%num) -> is_zero v = true).
  { intros v [->|[Hv _]]; [reflexivity|exact Hv]. }
  pose proof (same_finite _ _ Hsx Hpx) as HDx.
  pose proof (same_finite _ _ Hsy Hpy) as HDy.
  split; [|split; [|split; reflexivity]].
  - apply (coordinate_scaled _ _ _ _ _ _ _ Hfx Hpx HDy); auto.
  - apply (coordinate_scaled _ _ _ _ _ _ _ Hfy Hpy HDx); auto.
Qed.

End FarPosition.

Section FarPositionExamples.
Import Shader.
Local Open Scope glsl_scope.

Lemma main_far_position_witness :
  let P := {| x := 150; y := 0 |} in
  let M := {| x := 0; y := 0 |} in
  let pos := gl_Position (main SampleShader.flat_exp SampleShader.flat_sin
                            (uniform_matrix (projection 800 600)) M 2 P) in
  (150 <= length (vsub P M)) = true /\
  float_eq (x4 pos) (of_number (fround (2 / of_N 800)%num) * 150) = true /\
  float_eq (y4 pos) (of_number (fround (2 / of_N 600)%num) * 0) = true.
Proof.
  cbv zeta.
  destruct (main_far_position SampleShader.flat_exp SampleShader.flat_sin 800 600
              (projection 800 600) {| x := 150; y := 0 |} {| x := 0; y := 0 |} 2)
    as (_ & _ & Hx & Hy & _).
  - split; reflexivity.
  - split; reflexivity.
  - repeat (constructor; [vm_compute; reflexivity|]). constructor.
  - reflexivity.
  - reflexivity.
  - reflexivity.
  - split; [reflexivity|]. split; [exact Hx|exact Hy].
Defined.

End FarPositionExamples.


(** ** The copy buttons *)

Section Buttons.
Import CopyButtons SampleButtons.
Local Open Scope string_scope.

Lemma line_wires (buttonId linkId : string) (b : Browser) (el : Element) :
  document b !! buttonId = Some el ->
  line buttonId linkId b
  = Ok (with_document b
          (<[buttonId := addEventListener el (buttonId, linkId)]> (document b))).
Proof. intros Hel. unfold line, copyLink. rewrite Hel. reflexivity. Qed.

Lemma line_missing (buttonId linkId : string) (b : Browser) :
  document b !! buttonId = None -> line buttonId linkId b = Uncaught null_error b.
Proof. intros Hel. unfold line. rewrite Hel. reflexivity. Qed.

(** X18.  The script gives every button one listener.  When the three buttons
    exist the script ends without an error and each button has got exactly
    one more listener for [click], the one that copies its own link: the
    outer [addEventListener], called with the [undefined] that [copyLink]
    returns, adds none.  Nothing else changes. *)
Theorem script_wires (b : Browser) (email github linkedin : Element) :
  document b !! "#copy-email" = Some email ->
  document b !! "#copy-github" = Some github ->
  document b !! "#copy-linkedin" = Some linkedin ->
  exists b',
    script b = Ok b' /\
    document b' !! "#copy-email"
      = Some (addEventListener email ("#copy-email", "#email-link")) /\
    document b' !! "#copy-github"
      = Some (addEventListener github ("#copy-github", "#github-link")) /\
    document b' !! "#copy-linkedin"
      = Some (addEventListener linkedin ("#copy-linkedin", "#linkedin-link")) /\
    (forall k, k <> "#copy-email" -> k <> "#copy-github" -> k <> "#copy-linkedin" ->
               document b' !! k = document b !! k) /\
    clipboard_text b' = clipboard_text b /\ timeouts b' = timeouts b /\
    uncaught b' = uncaught b /\ now b' = now b.
Proof.
  intros He Hg Hl. unfold script, buttons. cbn [lines].
  rewrite (line_wires _ _ _ _ He).
  rewrite (line_wires "#copy-github" _ _ github)
    by (cbn [document with_document]; rewrite lookup_insert_ne by done; exact Hg).
  rewrite (line_wires "#copy-linkedin" _ _ linkedin)
    by (cbn [document with_document]; rewrite !lookup_insert_ne by done; exact Hl).
  eexists. split; [reflexivity|].
  cbn [document with_document clipboard_text timeouts uncaught now].
  split; [rewrite !lookup_insert_ne by done; apply lookup_insert_eq|].
  split; [rewrite lookup_insert_ne by done; apply lookup_insert_eq|].
  split; [apply lookup_insert_eq|].
  split; [|repeat split].
  intros k H1 H2 H3. rewrite !lookup_insert_ne by congruence. reflexivity.
Qed.

Lemma script_wires_witness :
  exists b', script (contact_page grants) = Ok b' /\ timeouts b' = [].
Proof.
  destruct (script_wires (contact_page grants) _ _ _ eq_refl eq_refl eq_refl)
    as (b' & Hs & _ & _ & _ & _ & _ & Ht & _).
  exists b'. split; [exact Hs|exact Ht].
Defined.


(** X19.  A missing button stops the script.  The first line whose button does
    not exist throws a [TypeError]; the buttons of the lines before it have
    their listener, and those of the lines after it get none. *)
Theorem script_missing_button (b : Browser) (n : nat) (buttonId linkId : string) :
  buttons !! n = Some (buttonId, linkId) ->
  document b !! buttonId = None ->
  (forall m bl, (m < n)%nat -> buttons !! m = Some bl ->
                is_Some (document b !! bl.1)) ->
  exists b',
    script b = Uncaught null_error b' /\
    (forall m bl el, (m < n)%nat -> buttons !! m = Some bl ->
       document b !! bl.1 = Some el ->
       document b' !! bl.1 = Some (addEventListener el bl)) /\
    (forall m bl, (n <= m)%nat -> buttons !! m = Some bl ->
       document b' !! bl.1 = document b !! bl.1).
Proof.
  intros Hn Hnone Hbefore. unfold script.
  destruct n as [|[|[|n]]]; cbn in Hn; try discriminate Hn;
    injection Hn as <- <-.
  - exists b. unfold buttons. cbn [lines]. rewrite (line_missing _ _ _ Hnone).
    split; [reflexivity|]. split; [intros m bl el Hm; lia|reflexivity].
  - destruct (Hbefore 0%nat _ ltac:(lia) eq_refl) as [e He]. cbn [fst] in He.
    unfold buttons. cbn [lines]. rewrite (line_wires _ _ _ _ He).
    rewrite line_missing
      by (cbn [document with_document]; rewrite lookup_insert_ne by done; exact Hnone).
    eexists. split; [reflexivity|]. cbn [document with_document]. split.
    + intros m bl el Hm Hbl Hel. destruct m as [|m]; [|lia].
      cbn in Hbl. injection Hbl as <-. cbn [fst] in *.
      rewrite He in Hel. injection Hel as <-. apply lookup_insert_eq.
    + intros m bl Hm Hbl.
      destruct m as [|[|[|m]]]; cbn in Hbl; try discriminate Hbl; try lia;
        injection Hbl as <-; cbn [fst]; rewrite lookup_insert_ne by done;
        reflexivity.
  - destruct (Hbefore 0%nat _ ltac:(lia) eq_refl) as [e He]. cbn [fst] in He.
    destruct (Hbefore 1%nat _ ltac:(lia) eq_refl) as [g Hg]. cbn [fst] in Hg.
    unfold buttons. cbn [lines]. rewrite (line_wires _ _ _ _ He).
    rewrite (line_wires "#copy-github" _ _ g)
      by (cbn [document with_document]; rewrite lookup_insert_ne by done; exact Hg).
    rewrite line_missing
      by (cbn [document with_document]; rewrite !lookup_insert_ne by done;
          exact Hnone).
    eexists. split; [reflexivity|]. cbn [document with_document]. split.
    + intros m bl el Hm Hbl Hel. destruct m as [|[|m]]; [| |lia];
        cbn in Hbl; injection Hbl as <-; cbn [fst] in *.
      * rewrite He in Hel. injection Hel as <-.
        rewrite lookup_insert_ne by done. apply lookup_insert_eq.
      * rewrite Hg in Hel. injection Hel as <-. apply lookup_insert_eq.
    + intros m bl Hm Hbl.
      destruct m as [|[|[|m]]]; cbn in Hbl; try discriminate Hbl; try lia;
        injection Hbl as <-; cbn [fst]; rewrite !lookup_insert_ne by done;
        reflexivity.
Qed.

Lemma script_missing_button_witness :
  exists b',
    script contact_page_without_github = Uncaught null_error b' /\
    (listeners <$> document b' !! "#copy-email")
      = Some [("#copy-email", "#email-link")] /\
    (listeners <$> document b' !! "#copy-linkedin") = Some [].
Proof.
  destruct (script_missing_button contact_page_without_github
              1 "#copy-github" "#github-link" eq_refl eq_refl)
    as (b' & Hs & Hbefore & Hafter).
  { intros m bl Hm Hbl. destruct m as [|m]; [|lia].
    cbn in Hbl. injection Hbl as <-. eexists. reflexivity. }
  exists b'. split; [exact Hs|]. split.
  - pose proof (Hbefore 0%nat ("#copy-email", "#email-link") _ ltac:(lia)
                  eq_refl eq_refl) as H.
    cbn [fst] in H. rewrite H. reflexivity.
  - pose proof (Hafter 2%nat ("#copy-linkedin", "#linkedin-link") ltac:(lia)
                  eq_refl) as H.
    cbn [fst] in H. rewrite H. reflexivity.
Defined.

(** X20.  A click on a wired button.  With the clipboard available the listener
    asks for the text of the link to be written, shows the check icon on the
    button and sets one timeout, 1500 ms ahead; the icon is shown whether the
    write is granted or not, and only a granted write changes the clipboard.
    Without [navigator.clipboard] the listener stops with a [TypeError]
    before it has changed anything. *)
Theorem click_copies (b : Browser) (buttonId linkId : string) (button link : Element) :
  document b !! buttonId = Some button ->
  document b !! linkId = Some link ->
  listeners button = [(buttonId, linkId)] ->
  let b' := click buttonId b in
  match navigator_clipboard b with
  | unavailable =>
      document b' = document b /\ clipboard_text b' = clipboard_text b /\
      timeouts b' = timeouts b /\
      uncaught b'
        = (uncaught b ++ ["TypeError: navigator.clipboard is undefined"])%list
  | c =>
      document b' = <[buttonId := set_icon button "check"]> (document b) /\
      clipboard_text b'
        = match c with grants => Some (textContent link) | _ => clipboard_text b end /\
      timeouts b' = (timeouts b ++ [((now b + 1500)%Z, buttonId)])%list /\
      uncaught b' = uncaught b
  end /\
  now b' = now b /\ navigator_clipboard b' = navigator_clipboard b.
Proof.
  intros Hb Hl Hls. cbv zeta. unfold click. rewrite Hb, Hls. cbn [foldl fst snd].
  unfold listener. rewrite Hl. unfold writeText.
  destruct (navigator_clipboard b) eqn:Hc; cbn [report].
  - cbn [document clipboard_text timeouts uncaught now navigator_clipboard].
    repeat split; exact Hc.
  - unfold show. rewrite Hb.
    cbn [report setTimeout with_document document clipboard_text timeouts uncaught
         now navigator_clipboard].
    repeat split; exact Hc.
  - unfold show. cbn [document]. rewrite Hb.
    cbn [report setTimeout with_document document clipboard_text timeouts uncaught
         now navigator_clipboard].
    repeat split; exact Hc.
Qed.


Lemma click_copies_witness :
  let b' := click "#copy-email" (wired grants) in
  clipboard_text b' = Some "someone@example.org" /\
  (innerHTML <$> document b' !! "#copy-email") = Some (icon "check") /\
  timeouts b' = [(1500%Z, "#copy-email")].
Proof.
  pose proof (click_copies (wired grants) "#copy-email" "#email-link" _ _
                eq_refl eq_refl eq_refl) as H.
  cbv zeta in H. destruct H as [(Hd & Hc & Ht & _) _].
  cbv zeta. split; [exact Hc|]. split; [|exact Ht].
  rewrite Hd. rewrite lookup_insert_eq. reflexivity.
Defined.

Lemma icon_ne : icon "content_copy" <> icon "check".
Proof. discriminate. Qed.

Lemma report_listener_settled (buttonId linkId : string) (b : Browser) :
  settled b -> settled (report (listener buttonId linkId b)).
Proof.
  intros [Hcheck Hdue]. unfold listener.
  destruct (document b !! linkId) as [link|]; [|split; assumption].
  unfold writeText.
  assert (Hshow : forall b0, document b0 = document b -> timeouts b0 = timeouts b ->
                             now b0 = now b ->
                             settled (report
                               match show buttonId "check" b0 with
                               | Ok b1 => Ok (setTimeout buttonId 1500 b1)
                               | Uncaught error b1 => Uncaught error b1
                               end)).
  { intros b0 Hd Ht Hn. unfold show. rewrite Hd.
    destruct (document b !! buttonId) as [el|] eqn:Hel.
    - cbn [report]. split;
        cbn [setTimeout with_document document timeouts now]; rewrite ?Ht, ?Hn, ?Hd.
      + intros k el' Hk Hic. destruct (decide (k = buttonId)) as [->|Hne].
        * exists (now b + 1500)%Z. apply in_or_app. right. left. reflexivity.
        * rewrite lookup_insert_ne in Hk by congruence.
          destruct (Hcheck k el' Hk Hic) as [t Hin].
          exists t. apply in_or_app. left. exact Hin.
      + intros t k Hin. apply in_app_or in Hin. destruct Hin as [Hin|[Heq|[]]].
        * destruct (Hdue t k Hin) as [Hle Hex]. split; [exact Hle|].
          destruct (decide (k = buttonId)) as [->|Hne].
          -- rewrite lookup_insert_eq. eexists. reflexivity.
          -- rewrite lookup_insert_ne by congruence. exact Hex.
        * injection Heq as <- <-. split; [lia|].
          rewrite lookup_insert_eq. eexists. reflexivity.
    - cbn [report]. split; cbn [document timeouts now uncaught];
        rewrite ?Ht, ?Hn, ?Hd; assumption. }
  destruct (navigator_clipboard b).
  - split; assumption.
  - apply Hshow; reflexivity.
  - apply Hshow; reflexivity.
Qed.

Lemma click_settled (target : string) (b : Browser) :
  settled b -> settled (click target b).
Proof.
  unfold click. destruct (document b !! target) as [el|]; [|auto].
  generalize (listeners el). intros l. revert b.
  induction l as [|c l IH]; intros b Hb; [exact Hb|].
  cbn [foldl]. apply IH. apply report_listener_settled. exact Hb.
Qed.

(** While the due timeouts [due] run: an element showing the check icon
    has a timeout that is pending or still to run. *)
Lemma callbacks_settled (due : list (Z * string)) :
  forall b,
    (forall k el, document b !! k = Some el -> innerHTML el = icon "check" ->
                  exists t, In (t, k) (timeouts b) \/ In (t, k) due) ->
    (forall t k, In (t, k) (timeouts b) ->
                 (t <= now b + 1500)%Z /\ is_Some (document b !! k)) ->
    settled (foldl (fun b d => report (callback d.2 b)) b due).
Proof.
  induction due as [|[t0 k0] due IH]; intros b Hcheck Hdue.
  - split; [|exact Hdue]. intros k el Hk Hic.
    destruct (Hcheck k el Hk Hic) as [t [Hin|[]]]. exists t. exact Hin.
  - cbn [foldl snd]. apply IH.
    + unfold callback, show. destruct (document b !! k0) as [el0|] eqn:Hel0.
      * cbn [report with_document document timeouts]. intros k el Hk Hic.
        destruct (decide (k = k0)) as [->|Hne].
        -- rewrite lookup_insert_eq in Hk. injection Hk as <-.
           cbn [set_icon innerHTML] in Hic. destruct (icon_ne Hic).
        -- rewrite lookup_insert_ne in Hk by congruence.
           destruct (Hcheck k el Hk Hic) as [t [Hin|[Heq|Hin]]].
           ++ exists t. left. exact Hin.
           ++ congruence.
           ++ exists t. right. exact Hin.
      * cbn [report document timeouts]. intros k el Hk Hic.
        destruct (Hcheck k el Hk Hic) as [t [Hin|[Heq|Hin]]].
        -- exists t. left. exact Hin.
        -- injection Heq as <- <-. congruence.
        -- exists t. right. exact Hin.
    + unfold callback, show. destruct (document b !! k0) as [el0|] eqn:Hel0;
        cbn [report with_document document timeouts now]; intros t k Hin;
        destruct (Hdue t k Hin) as [Hle Hex]; (split; [exact Hle|]); [|exact Hex].
      destruct (decide (k = k0)) as [->|Hne].
      * rewrite lookup_insert_eq. eexists. reflexivity.
      * rewrite lookup_insert_ne by congruence. exact Hex.
Qed.

Lemma elapse_settled (ms : Z) (b : Browser) :
  (0 <= ms)%Z -> settled b ->
  settled (elapse ms b) /\
  (1500 <= ms -> timeouts (elapse ms b) = [])%Z.
Proof.
  intros Hms [Hcheck Hdue]. unfold elapse.
  set (t := (now b + ms)%Z).
  set (due := List.filter (fun d => (d.1 <=? t)%Z) (timeouts b)).
  set (pending := List.filter (fun d => negb (d.1 <=? t)%Z) (timeouts b)).
  assert (Hsplit : forall d, In d (timeouts b) -> In d pending \/ In d due).
  { intros d Hd. destruct (d.1 <=? t)%Z eqn:Hle.
    - right. apply filter_In. split; assumption.
    - left. apply filter_In. split; [assumption|]. rewrite Hle. reflexivity. }
  assert (Htimeouts : forall due' b0,
            timeouts (foldl (fun (b : Browser) (d : Z * string) =>
                               report (callback d.2 b)) b0 due')
            = timeouts b0).
  { induction due' as [|d due' IH]; intros b0; [reflexivity|].
    cbn [foldl]. rewrite IH. unfold callback, show.
    destruct (document b0 !! d.2); reflexivity. }
  split.
  - apply callbacks_settled; cbn [set_clock document timeouts now].
    + intros k el Hk Hic. destruct (Hcheck k el Hk Hic) as [t' Hin].
      exists t'. apply Hsplit. exact Hin.
    + intros t' k Hin. apply filter_In in Hin. destruct Hin as [Hin _].
      destruct (Hdue t' k Hin) as [Hle Hex]. split; [unfold t; lia|exact Hex].
  - intros Hlong. rewrite Htimeouts. cbn [set_clock timeouts].
    unfold pending.
    assert (Hall : forall d, In d (timeouts b) -> (d.1 <=? t)%Z = true).
    { intros [t' k] Hin. destruct (Hdue t' k Hin) as [Hle _].
      apply Z.leb_le. cbn [fst]. unfold t. lia. }
    clear -Hall. induction (timeouts b) as [|d l IH]; [reflexivity|].
    cbn [List.filter]. rewrite (Hall d (or_introl eq_refl)). cbn [negb].
    apply IH. intros d' Hd'. apply Hall. right. exact Hd'.
Qed.

(** X21.  The check icon never sticks.  On a page where no element shows the
    check icon and no timeout is pending, let clicks (on anything) and
    lapses of time follow each other in any order; once 1500 ms pass
    without a click, no timeout is pending and no element shows the check
    icon. *)
Theorem check_icon_reverts (b : Browser) (acts : list Action) (ms : Z) :
  timeouts b = [] ->
  (forall k el, document b !! k = Some el -> innerHTML el <> icon "check") ->
  Forall forward acts -> (1500 <= ms)%Z ->
  let b' := elapse ms (foldl (fun b a => act a b) b acts) in
  timeouts b' = [] /\
  (forall k el, document b' !! k = Some el -> innerHTML el <> icon "check").
Proof.
  intros Ht Hno Hacts Hms. cbv zeta.
  assert (H0 : settled b).
  { split.
    - intros k el Hk Hic. destruct (Hno k el Hk Hic).
    - rewrite Ht. intros t k []. }
  assert (Hrun : settled (foldl (fun b a => act a b) b acts)).
  { clear Ht Hno. revert b H0.
    induction Hacts as [|a acts Ha _ IH]; intros b H0; [exact H0|].
    cbn [foldl]. apply IH. destruct a as [target|d]; cbn [act].
    - apply click_settled. exact H0.
    - apply elapse_settled; assumption. }
  destruct (elapse_settled ms _ ltac:(lia) Hrun) as [[Hcheck _] Hnone].
  specialize (Hnone Hms). split; [exact Hnone|].
  intros k el Hk Hic. destruct (Hcheck k el Hk Hic) as [t Hin].
  rewrite Hnone in Hin. destruct Hin.
Qed.


Lemma check_icon_reverts_witness :
  let b' := elapse 1500
              (foldl (fun b a => act a b) (wired grants)
                 [Click "#copy-email"; Elapse 1000; Click "#copy-email"]) in
  timeouts b' = [] /\
  (forall k el, document b' !! k = Some el -> innerHTML el <> icon "check").
Proof.
  apply (check_icon_reverts (wired grants)
           [Click "#copy-email"; Elapse 1000; Click "#copy-email"] 1500).
  - reflexivity.
  - intros k el Hk.
    assert (HF : map_Forall (fun (_ : string) (el : Element) =>
                               innerHTML el <> icon "check")
                   (document (wired grants)))
      by (refine (bool_decide_unpack _ _); vm_compute; exact I).
    exact (HF k el Hk).
  - repeat constructor. cbn. lia.
  - lia.
Defined.

Lemma click_shows (b : Browser) (buttonId linkId : string) (button link : Element) :
  document b !! buttonId = Some button ->
  document b !! linkId = Some link ->
  listeners button = [(buttonId, linkId)] ->
  navigator_clipboard b <> unavailable ->
  document (click buttonId b) = <[buttonId := set_icon button "check"]> (document b) /\
  timeouts (click buttonId b)
    = (timeouts b ++ [((now b + 1500)%Z, buttonId)])%list /\
  now (click buttonId b) = now b /\
  navigator_clipboard (click buttonId b) = navigator_clipboard b.
Proof.
  intros Hb Hl Hls Hc. unfold click. rewrite Hb, Hls. cbn [foldl fst snd].
  unfold listener. rewrite Hl. unfold writeText.
  destruct (navigator_clipboard b) eqn:Hnc; [congruence| |];
    unfold show; cbn [document]; rewrite Hb;
    cbn [report setTimeout with_document document timeouts now navigator_clipboard];
    repeat split; exact Hnc.
Qed.

(** X22.  A second click does not restart the delay.  When a wired button is
    clicked, and clicked again [d] ms later ([0 < d < 1500]), the timeout of
    the first click still runs 1500 ms after the first click: the check
    icon of the second click is replaced after [1500 - d] ms only, while the
    timeout of the second click is still pending. *)
Theorem second_click_reverts_early (b : Browser) (buttonId linkId : string)
    (button link : Element) (d : Z) :
  document b !! buttonId = Some button ->
  document b !! linkId = Some link ->
  listeners button = [(buttonId, linkId)] ->
  navigator_clipboard b <> unavailable ->
  timeouts b = [] -> (0 < d < 1500)%Z ->
  let b2 := click buttonId (elapse d (click buttonId b)) in
  let b3 := elapse (1500 - d) b2 in
  (innerHTML <$> document b2 !! buttonId) = Some (icon "check") /\
  (innerHTML <$> document b3 !! buttonId) = Some (icon "content_copy") /\
  now b3 = (now b + 1500)%Z /\
  timeouts b3 = [((now b + d + 1500)%Z, buttonId)].
Proof.
  intros Hb Hl Hls Hc Ht Hd. cbv zeta.
  destruct (click_shows b buttonId linkId button link Hb Hl Hls Hc)
    as (Hd1 & Ht1 & Hn1 & Hc1).
  rewrite Ht in Ht1. cbn [app] in Ht1.
  set (b1 := click buttonId b) in *.
  (* the first lapse: nothing is due *)
  assert (He : elapse d b1 = set_clock b1 (now b + d)%Z [((now b + 1500)%Z, buttonId)]).
  { unfold elapse. rewrite Ht1, Hn1. cbn [List.filter fst].
    replace (now b + 1500 <=? now b + d)%Z with false
      by (symmetry; apply Z.leb_gt; lia).
    reflexivity. }
  rewrite He. set (b1' := set_clock b1 _ _).
  assert (Hl1 : document b1' !! linkId = Some (if decide (linkId = buttonId)
                                                then set_icon button "check" else link)).
  { unfold b1'. cbn [set_clock document]. rewrite Hd1.
    destruct (decide (linkId = buttonId)) as [->|Hne].
    - apply lookup_insert_eq.
    - rewrite lookup_insert_ne by congruence. exact Hl. }
  destruct (click_shows b1' buttonId linkId (set_icon button "check") _
              ltac:(unfold b1'; cbn [set_clock document]; rewrite Hd1;
                    apply lookup_insert_eq)
              Hl1 Hls
              ltac:(unfold b1'; cbn [set_clock navigator_clipboard];
                    rewrite Hc1; exact Hc))
    as (Hd2 & Ht2 & Hn2 & _).
  set (b2 := click buttonId b1') in *.
  unfold b1' in Ht2, Hn2. cbn [set_clock timeouts now app] in Ht2, Hn2.
  split; [rewrite Hd2, lookup_insert_eq; reflexivity|].
  unfold elapse. rewrite Ht2, Hn2. cbn [List.filter fst].
  replace (now b + d + (1500 - d))%Z with (now b + 1500)%Z by lia.
  rewrite Z.leb_refl.
  replace (now b + d + 1500 <=? now b + 1500)%Z with false
    by (symmetry; apply Z.leb_gt; lia).
  cbn [negb foldl snd]. unfold callback, show. cbn [set_clock document].
  rewrite Hd2, lookup_insert_eq.
  cbn [report with_document document now timeouts].
  rewrite lookup_insert_eq. repeat split.
Qed.

Lemma second_click_reverts_early_witness :
  let b2 := click "#copy-email" (elapse 1000 (click "#copy-email" (wired grants))) in
  let b3 := elapse 500 b2 in
  (innerHTML <$> document b3 !! "#copy-email") = Some (icon "content_copy") /\
  timeouts b3 = [(2500%Z, "#copy-email")].
Proof.
  pose proof (second_click_reverts_early (wired grants) "#copy-email" "#email-link"
                _ _ 1000 eq_refl eq_refl eq_refl ltac:(discriminate) eq_refl
                ltac:(lia)) as H.
  cbv zeta in H. destruct H as (_ & H3 & _ & Ht).
  split; [exact H3|exact Ht].
Defined.

End Buttons.
